(** * demo001: clinical summary tables over polars frames

    A shallow embedding of the Python package [demo001]
    ([baseline.py], [safety.py], [population.py]) and the properties of
    its aggregation and table-assembly functions.

    The package is written against the polars data-frame library.  The
    frame operations it calls ([filter], [group_by], [join], [pivot],
    [fill_null], [n_unique], the [DataFrame] constructor) are modelled in
    the modules [Py] and [Polars] below on lists of rows; each function of
    the package is then transcribed call by call.

    Conventions of the model:
    - a nullable column cell is an [option]; [None] is polars' null (and
      Python's [None] once a cell is read into Python);
    - counts ([len], [n_unique]) are [N]; integer data are [Z];
    - a Float64 value that reaches a display string is a [Polars.float]:
      NaN, infinity, or a signed decimal with two fractional digits, which
      is enough for every float this package prints ([round(1)],
      [round(2)], a median of integers);
    - a Python exception is a [Raise] in the [Result] monad.

    Scope of the model:
    - case conversions ([str.title], [str.to_titlecase]) are those of
      ASCII text;
    - a continuous variable is an integer column.  Its mean, standard
      deviation and median are computed in exact arithmetic, where
      polars computes in Float64: the two agree on the median for
      values of magnitude at most [2^52], and on the rounded mean and
      deviation except at a rounding tie and beyond that magnitude.
      The properties of these statistics say which values they cover,
      and none rests on the choice made at a tie;
    - a percentage is rounded half to even from the exact quotient;
      its properties bound the distance to the exact percentage, which
      holds whichever way a tie goes.  Counts are below [2^32], the
      height that a polars frame can have;
    - the row order of an inner join is not fixed by the source: it is
      a parameter of the model ([Polars.Engine]), and the properties
      hold for every engine.  A left join keeps the order of the left
      frame.  [group_by] lists the groups by first occurrence, an order
      that polars does not promise: the properties of grouped frames
      are stated up to the order of their rows;
    - every column of the event frame is nullable; the [N] column of
      the population counts holds no nulls;
    - a variable of the subject frame does not bear the name of a
      column that the package adds to a frame ([len], [total], [pct],
      [n_pct]);
    - the subject frame of [population.create_population_summary] has
      the column TRT01P, and the population flags it has are string
      columns. *)

From Stdlib Require Import String Ascii List ZArith NArith Lia Bool.
From Stdlib Require Import DecimalString OrdersEx Sorted Permutation.
From Stdlib Require Import RelationClasses.
Import ListNotations.
Local Open Scope string_scope.
Local Open Scope list_scope.

(** String concatenation ([++] is kept for lists). *)
Infix "+++" := String.append (right associativity, at level 60).

Set Implicit Arguments.

(* ================================================================== *)
(** ** Exceptions and the result monad *)

Inductive PyError : Type :=
| AttributeError                         (* attribute access on [None] *)
| IndexError                             (* [series[0]] on an empty series *)
| ShapeError                             (* rows do not fit the schema *)
| DuplicateError (name : string)         (* a column name occurs twice *)
| ColumnNotFoundError (name : string)
| InvalidOperationError (name : string)  (* numeric aggregation of a string column *)
| ComputeError.                          (* pivot met two values for one cell *)

Inductive Result (A : Type) : Type :=
| Ok (a : A)
| Raise (e : PyError).

Arguments Ok {A} a.
Arguments Raise {A} e.

Definition bind {A B} (m : Result A) (k : A -> Result B) : Result B :=
  match m with
  | Ok a => k a
  | Raise e => Raise e
  end.

Notation "x <- m ;; k" := (bind m (fun x => k))
  (at level 61, m at next level, right associativity).

(** A Python list comprehension whose body may raise: elements are
    evaluated left to right and the first exception ends the loop. *)
Fixpoint mapM {A B} (f : A -> Result B) (l : list A) : Result (list B) :=
  match l with
  | [] => Ok []
  | a :: l' => b <- f a ;; bs <- mapM f l' ;; Ok (b :: bs)
  end.

(** A Python [for] loop that updates one variable ([table_rows]) and
    whose body may raise. *)
Fixpoint for_each {A S} (l : list A) (body : S -> A -> Result S) (s : S)
  : Result S :=
  match l with
  | [] => Ok s
  | a :: l' => s' <- body s a ;; for_each l' body s'
  end.

(* ================================================================== *)
(** ** Python strings and numbers *)

Module Py.

(** [str(n)] for a non-negative and for a signed integer. *)
Definition str_N (n : N) : string := NilZero.string_of_uint (N.to_uint n).
Definition str_Z (z : Z) : string := NilZero.string_of_int (Z.to_int z).

Definition is_upper (c : ascii) : bool :=
  let n := N_of_ascii c in ((65 <=? n) && (n <=? 90))%N.
Definition is_lower (c : ascii) : bool :=
  let n := N_of_ascii c in ((97 <=? n) && (n <=? 122))%N.
Definition is_alphabetic (c : ascii) : bool := is_upper c || is_lower c.
Definition to_upper (c : ascii) : ascii :=
  if is_lower c then ascii_of_N (N_of_ascii c - 32) else c.
Definition to_lower (c : ascii) : ascii :=
  if is_upper c then ascii_of_N (N_of_ascii c + 32) else c.

(** [str.title()] on ASCII text: a letter that follows a letter is
    lower-cased, a letter that follows anything else is upper-cased. *)
Fixpoint title_from (previous_is_cased : bool) (s : string) : string :=
  match s with
  | EmptyString => EmptyString
  | String c rest =>
      if is_lower c then
        String (if previous_is_cased then c else to_upper c)
               (title_from true rest)
      else if is_upper c then
        String (if previous_is_cased then to_lower c else c)
               (title_from true rest)
      else String c (title_from false rest)
  end.
Definition title (s : string) : string := title_from false s.

(** [s.replace(old, new)] for a non-empty [old]: occurrences are found
    left to right and do not overlap.  [skip] counts the characters of
    a match that are still to be dropped. *)
Fixpoint replace_from (old new : string) (skip : nat) (s : string) : string :=
  match s with
  | EmptyString => EmptyString
  | String c rest =>
      match skip with
      | S k => replace_from old new k rest
      | O =>
          if String.prefix old s
          then new +++ replace_from old new (String.length old - 1) rest
          else String c (replace_from old new 0 rest)
      end
  end.
Definition replace (s old new : string) : string := replace_from old new 0 s.

(** [f"{x}"] where [x] may be [None]. *)
Definition format_value (x : option string) : string :=
  match x with
  | Some s => s
  | None => "None"
  end.

(** [x.replace(old, new)] where [x] may be [None]. *)
Definition replace_method (x : option string) (old new : string)
  : Result string :=
  match x with
  | Some s => Ok (replace s old new)
  | None => Raise AttributeError
  end.

End Py.

(* ================================================================== *)
(** ** Decidable equality of cell values and group keys *)

Class Eqb (K : Type) : Type := eqb : K -> K -> bool.

#[export] Instance Eqb_string : Eqb string := String.eqb.

#[export] Instance Eqb_option {K} `{Eqb K} : Eqb (option K) :=
  fun a b =>
    match a, b with
    | Some x, Some y => eqb x y
    | None, None => true
    | _, _ => false
    end.

#[export] Instance Eqb_pair {K L} `{Eqb K} `{Eqb L} : Eqb (K * L) :=
  fun a b => eqb (fst a) (fst b) && eqb (snd a) (snd b).

(* ================================================================== *)
(** ** The polars operations the package calls *)

Module Polars.

(** *** Expressions on nullable cells *)

(** [pl.col(c) == value] under [filter]: a null cell compares to null,
    and [filter] keeps only the rows whose predicate is true. *)
Definition eq_lit (cell : option string) (value : string) : bool :=
  match cell with
  | Some s => eqb s value
  | None => false
  end.

(** [pl.col(c) == value] under [filter], where [value] is a Python
    value read from a series: compared with [None] every cell gives
    null, and the filter keeps no row. *)
Definition eq_value (cell value : option string) : bool :=
  match value with
  | Some v => eq_lit cell v
  | None => false
  end.

(** Join keys: two cells join when both are non-null and equal (polars
    joins do not match null with null). *)
Definition key_match (a b : option string) : bool :=
  match a, b with
  | Some x, Some y => eqb x y
  | _, _ => false
  end.

(** [Series.drop_nulls()]. *)
Fixpoint drop_nulls {A} (l : list (option A)) : list A :=
  match l with
  | [] => []
  | Some a :: l' => a :: drop_nulls l'
  | None :: l' => drop_nulls l'
  end.

(** [Series.unique(maintain_order=True)]: the distinct values, each at
    the place of its first occurrence; null is a value like any other. *)
Fixpoint unique {K} `{Eqb K} (l : list K) : list K :=
  match l with
  | [] => []
  | x :: l' => x :: filter (fun y => negb (eqb x y)) (unique l')
  end.

(** [Expr.n_unique()]. *)
Definition n_unique {K} `{Eqb K} (l : list K) : N :=
  N.of_nat (length (unique l)).

(** [df.group_by(key)]: one group per distinct key (null keys form a
    group of their own), holding the rows of that key in frame order.
    polars leaves the order of the groups unspecified; the model lists
    them by first occurrence.  The tables of the package read a grouped
    frame by key ([filter], [join]); only
    [population.format_population_table] follows the order of its rows,
    and it takes the grouped frame as an argument. *)
Definition group_by {R K} `{Eqb K} (key : R -> K) (df : list R)
  : list (K * list R) :=
  map (fun k => (k, filter (fun r => eqb (key r) k) df))
      (unique (map key df)).

(** [left.join(right, on=key, how="left")]: every left row, in order,
    paired with each matching right row, or once with null when no
    right row matches. *)
Definition left_join {L R} (lkey : L -> option string)
    (rkey : R -> option string) (left : list L) (right : list R)
  : list (L * option R) :=
  flat_map (fun l =>
              match filter (fun r => key_match (lkey l) (rkey r)) right with
              | [] => [(l, None)]
              | ms => map (fun r => (l, Some r)) ms
              end) left.

(** *** The row order of an inner join *)

(** [join] without [maintain_order] returns the matched rows in an
    order that polars does not specify; in practice it follows the left
    or the right frame, depending on their heights.  An [Engine] is one
    such choice: [arrange] takes the matched rows in the order of the
    left frame and lists them in the order in which the engine returns
    them.  Whatever holds for every engine holds for the order that a
    release of polars happens to produce. *)
Class Engine : Type := {
  arrange : forall A : Type, list A -> list A;
  arrange_perm : forall (A : Type) (l : list A), Permutation (arrange l) l
}.

(** The engine that keeps the order of the left frame, and the one that
    returns the rows of that order last to first. *)
Definition left_order : Engine :=
  {| arrange := fun _ l => l;
     arrange_perm := fun _ l => Permutation_refl l |}.

Definition reversed : Engine :=
  {| arrange := fun _ l => rev l;
     arrange_perm := fun _ l => Permutation_sym (Permutation_rev l) |}.

(** [left.join(right, on=key)] (inner). *)
Definition inner_join {E : Engine} {L R} (lkey : L -> option string)
    (rkey : R -> option string) (left : list L) (right : list R)
  : list (L * R) :=
  arrange
    (flat_map (fun l =>
                 map (fun r => (l, r))
                     (filter (fun r => key_match (lkey l) (rkey r)) right))
              left).

(** [Expr.fill_null(0)] on a count column. *)
Definition fill_null (default : N) (x : option N) : N :=
  match x with
  | Some n => n
  | None => default
  end.

(** *** Float64 values that are printed *)

Inductive float : Type :=
| NaN
| Inf
| Dec (negative : bool) (hundredths : N).

Definition digit (d : N) : string := Py.str_N (d mod 10).

(** The text of a float, as [cast(str)] and [pl.format] give it: the
    shortest decimal that reads back, with at least one fractional
    digit.  Values of magnitude [10^16] and more, which the text gives
    with an exponent, are outside the model. *)
Definition str_float (x : float) : string :=
  match x with
  | NaN => "NaN"
  | Inf => "inf"
  | Dec neg h =>
      (if neg then "-" else "") +++ Py.str_N (h / 100) +++ "."
      +++ digit (h / 10)
      +++ (if (h mod 10 =? 0)%N then "" else digit h)
  end.

(** [a / b] rounded to the nearest integer, a half to the even
    neighbour: the default mode of [Expr.round] ([6.25] gives [6.2],
    [0.25] gives [0.2]).  The quotient is taken exactly; the Float64
    computation can differ from it only where [a / b] falls on a half
    that is not a binary fraction, so the properties below state a
    rounded value through its distance to the exact quotient and not
    through the choice made at a half. *)
Definition round_div (a b : N) : N :=
  let q := (a / b)%N in
  let r := (a mod b)%N in
  if (2 * r <? b)%N then q
  else if (b <? 2 * r)%N then (q + 1)%N
  else if N.even q then q else (q + 1)%N.

(** [(100.0 * n / d).round(1)] for counts [n] and [d].  Float division
    by zero does not raise: [0.0 / 0] is NaN and [x / 0] is infinity
    for [x > 0]; [round] leaves both unchanged.  For [d > 0] the
    quotient is rounded to one decimal. *)
Definition percent_round1 (n d : N) : float :=
  if (d =? 0)%N then (if (n =? 0)%N then NaN else Inf)
  else Dec false (10 * round_div (1000 * n) d).

Definition sum (xs : list Z) : Z := fold_right Z.add 0%Z xs.

(** [mean().round(1)] of a non-empty integer group, for values whose
    sum is of magnitude at most [2^53] (the float sum is then exact). *)
Definition mean_round1 (xs : list Z) : float :=
  let s := sum xs in
  Dec (s <? 0)%Z
      (10 * round_div (10 * Z.abs_N s) (N.of_nat (length xs))).

(** [std().round(2)] (sample standard deviation, [ddof = 1]) of a group
    of at least two integers: with [n] values, the variance is
    [(n * sum x^2 - (sum x)^2) / (n * (n - 1))]. *)
Definition std_round2 (xs : list Z) : float :=
  let n := Z.of_nat (length xs) in
  let a := (n * sum (map (fun x => x * x) xs) - sum xs * sum xs)%Z in
  let b := (n * (n - 1))%Z in
  Dec false (Z.to_N ((Z.sqrt (40000 * a / b) + 1) / 2)).

Fixpoint insert_Z (x : Z) (l : list Z) : list Z :=
  match l with
  | [] => [x]
  | y :: l' => if (x <=? y)%Z then x :: l else y :: insert_Z x l'
  end.
Definition sort_Z (l : list Z) : list Z := fold_right insert_Z [] l.

Definition half_sum (a b : Z) : float :=
  Dec (a + b <? 0)%Z (50 * Z.abs_N (a + b)).

(** [median()] of a non-empty integer group: the middle value, or the
    mean of the two middle values of an even-sized group.  The result
    is the Float64 that polars computes as long as the values are of
    magnitude at most [2^52]; beyond that the float is a rounded value,
    which this exact result does not follow. *)
Definition median_of (xs : list Z) : float :=
  let s := sort_Z xs in
  let k := length s in
  if Nat.even k
  then half_sum (nth (k / 2 - 1) s 0%Z) (nth (k / 2) s 0%Z)
  else half_sum (nth (k / 2) s 0%Z) (nth (k / 2) s 0%Z).

Definition minimum (xs : list Z) : option Z :=
  match xs with
  | [] => None
  | x :: xs' => Some (fold_right Z.min x xs')
  end.
Definition maximum (xs : list Z) : option Z :=
  match xs with
  | [] => None
  | x :: xs' => Some (fold_right Z.max x xs')
  end.

(** The aggregations of [summarize_continuous] on one group of a
    nullable integer column: nulls are skipped, and an aggregation
    with too few values left is null. *)
Definition agg_mean_round1 (cells : list (option Z)) : option float :=
  match drop_nulls cells with
  | [] => None
  | xs => Some (mean_round1 xs)
  end.
Definition agg_std_round2 (cells : list (option Z)) : option float :=
  match drop_nulls cells with
  | [] | [_] => None
  | xs => Some (std_round2 xs)
  end.
Definition agg_median (cells : list (option Z)) : option float :=
  match drop_nulls cells with
  | [] => None
  | xs => Some (median_of xs)
  end.
Definition agg_min (cells : list (option Z)) : option Z :=
  minimum (drop_nulls cells).
Definition agg_max (cells : list (option Z)) : option Z :=
  maximum (drop_nulls cells).

(** [Expr.str.to_titlecase()] on ASCII text: a letter is upper-cased
    when it starts the text or follows a character that is not a
    letter, and lower-cased when it follows a letter, as [str.title]
    does: ["a1b soc"] becomes ["A1B Soc"]. *)
Fixpoint to_titlecase_from (next_is_upper : bool) (s : string) : string :=
  match s with
  | EmptyString => EmptyString
  | String c rest =>
      String (if next_is_upper then Py.to_upper c else Py.to_lower c)
             (to_titlecase_from (negb (Py.is_alphabetic c)) rest)
  end.
Definition to_titlecase (s : string) : string := to_titlecase_from true s.

(** *** Sorting a string series *)

Definition string_leb (a b : string) : bool :=
  match String_as_OT.compare a b with
  | Gt => false
  | _ => true
  end.

Fixpoint insert_string (x : string) (l : list string) : list string :=
  match l with
  | [] => [x]
  | y :: l' => if string_leb x y then x :: l else y :: insert_string x l'
  end.

(** [Series.sort()] on a string series without nulls: ascending by
    character code. *)
Definition sort (l : list string) : list string :=
  fold_right insert_string [] l.

Definition is_null {A} (x : option A) : bool :=
  match x with
  | Some _ => false
  | None => true
  end.

(** [Series.sort()] on a nullable string series: the nulls come
    first. *)
Definition sort_nullable (l : list (option string)) : list (option string) :=
  filter is_null l ++ map Some (sort (drop_nulls l)).

(** *** Building a frame from rows *)

Definition Cell : Type := option string.

Record Table : Type := {
  header : list string;
  body : list (list Cell)
}.

(** Column names of a schema given as a list of strings: an empty name
    at position [i] becomes [column_i]. *)
Fixpoint column_names_from (i : N) (schema : list string) : list string :=
  match schema with
  | [] => []
  | col :: rest =>
      (if eqb col "" then "column_" +++ Py.str_N i else col)
        :: column_names_from (i + 1) rest
  end.
Definition column_names (schema : list string) : list string :=
  column_names_from 0 schema.

Fixpoint first_duplicate (names : list string) : option string :=
  match names with
  | [] => None
  | x :: rest =>
      if existsb (eqb x) rest then Some x else first_duplicate rest
  end.

(** [pl.DataFrame(rows, schema=schema, orient="row")] for rows of
    strings and nulls: the rows must have as many cells as the schema
    has names, and the names must be distinct. *)
Definition DataFrame (rows : list (list Cell)) (schema : list string)
  : Result Table :=
  if forallb (fun row => length row =? length schema)%nat rows then
    match first_duplicate (column_names schema) with
    | Some name => Raise (DuplicateError name)
    | None => Ok {| header := column_names schema; body := rows |}
    end
  else Raise ShapeError.

End Polars.

(* ================================================================== *)
(** ** baseline.py *)

Module baseline.
Import Polars.

(** The subject-level frame (ADSL): the planned-treatment column
    [TRT01P], a nullable string column, and the other columns by name
    (distinct names other than TRT01P), each a nullable integer or
    string series of the frame's height. *)
Inductive Series : Type :=
| IntSeries (cells : list (option Z))
| StrSeries (cells : list (option string)).

Record SubjectFrame : Type := {
  TRT01P : list (option string);
  columns : list (string * Series)
}.

(** [df[name]] / [pl.col(name)]: one of the other columns, or the
    treatment column itself. *)
Definition column (df : SubjectFrame) (name : string) : Result Series :=
  match find (fun c => eqb (fst c) name) (columns df) with
  | Some c => Ok (snd c)
  | None =>
      if eqb name "TRT01P" then Ok (StrSeries (TRT01P df))
      else Raise (ColumnNotFoundError name)
  end.

(** The reserved default of [get_value]. *)
Definition sentinel : string := "0 (0.0%)".

Record ContinuousStats : Type := {
  cs_TRT01P : option string;
  cs_mean : option float;
  cs_sd : option float;
  cs_median : option float;
  cs_min : option Z;
  cs_max : option Z;
  cs_n : N
}.

Definition summarize_continuous (df : SubjectFrame) (var : string)
  : Result (list ContinuousStats) :=
  series <- column df var ;;
  match series with
  | StrSeries _ => Raise (InvalidOperationError var)
  | IntSeries cells =>
      Ok (map (fun g =>
                 let values := map snd (snd g) in
                 {| cs_TRT01P := fst g;
                    cs_mean := agg_mean_round1 values;
                    cs_sd := agg_std_round2 values;
                    cs_median := agg_median values;
                    cs_min := agg_min values;
                    cs_max := agg_max values;
                    cs_n := N.of_nat (length (snd g)) |})
              (group_by fst (combine (TRT01P df) cells)))
  end.

Record CategoricalStats : Type := {
  ct_TRT01P : option string;
  ct_var : option string;
  ct_len : N;
  ct_total : N;
  ct_pct : float
}.

(** The cells of a categorical variable.  An integer column grouped as
    categories is read through the decimal text of its values, which
    is how its categories are printed. *)
Definition category_cells (s : Series) : list (option string) :=
  match s with
  | StrSeries cells => cells
  | IntSeries cells => map (option_map Py.str_Z) cells
  end.

(** Whether [name] is read as the treatment column itself. *)
Definition is_treatment_column (df : SubjectFrame) (name : string) : bool :=
  eqb name "TRT01P"
  && negb (existsb (fun c => eqb (fst c) name) (columns df)).

(** [group_by(["TRT01P", var])] refuses the treatment column as [var]:
    the grouped frame would hold its name twice. *)
Definition summarize_categorical {E : Engine} (df : SubjectFrame)
    (var : string) : Result (list CategoricalStats) :=
  series <- column df var ;;
  if is_treatment_column df var then Raise (DuplicateError var) else
  let rows := combine (TRT01P df) (category_cells series) in
  (* Get counts by treatment and category *)
  let counts :=
    map (fun g => (fst g, N.of_nat (length (snd g))))
        (group_by (fun r => r) rows) in
  (* Get treatment totals for percentage calculations *)
  let totals :=
    map (fun g => (fst g, N.of_nat (length (snd g))))
        (group_by fst rows) in
  (* Calculate percentages *)
  Ok (map (fun j =>
             let '((trt, cat, len), (_, total)) := j in
             {| ct_TRT01P := trt; ct_var := cat; ct_len := len;
                ct_total := total; ct_pct := percent_round1 len total |})
          (inner_join (fun c => fst (fst c)) fst counts totals)).

(** [get_value] reads the frame's [TRT01P] column and its last column;
    a frame is given as the list of these two cells per row.  The
    result is a Python value: the text of the cell, or [None] for a
    null cell. *)
Definition get_value (df : list (option string * option string))
    (treatment : string) : option string :=
  match filter (fun r => eq_lit (fst r) treatment) df with
  | r :: _ => snd r
  | [] => Some sentinel
  end.

Record ContinuousFormatted : Type := {
  cf_TRT01P : option string;
  cf_mean_sd : option string;
  cf_median_range : option string
}.

(** [pl.format] is null as soon as one argument is null. *)
Definition format_mean_sd (mean sd : option float) : option string :=
  match mean, sd with
  | Some m, Some s => Some (str_float m +++ " (" +++ str_float s +++ ")")
  | _, _ => None
  end.

Definition format_median_range (median : option float) (min max : option Z)
  : option string :=
  match median, min, max with
  | Some md, Some mn, Some mx =>
      Some (str_float md +++ " [" +++ Py.str_Z mn +++ ", "
            +++ Py.str_Z mx +++ "]")
  | _, _, _ => None
  end.

Definition format_continuous_stats (stats : list ContinuousStats)
  : list ContinuousFormatted :=
  map (fun s =>
         {| cf_TRT01P := cs_TRT01P s;
            cf_mean_sd := format_mean_sd (cs_mean s) (cs_sd s);
            cf_median_range :=
              format_median_range (cs_median s) (cs_min s) (cs_max s) |})
      stats.

Record CategoricalFormatted : Type := {
  cg_TRT01P : option string;
  cg_var : option string;
  cg_n_pct : option string
}.

Definition format_categorical_stats (stats : list CategoricalStats)
  : list CategoricalFormatted :=
  map (fun s =>
         {| cg_TRT01P := ct_TRT01P s;
            cg_var := ct_var s;
            cg_n_pct :=
              Some (Py.str_N (ct_len s) +++ " (" +++ str_float (ct_pct s)
                    +++ "%)") |})
      stats.

(** The header row of a variable: the label and three blank cells. *)
Definition header_row (label : string) : list Cell :=
  [Some label; Some ""; Some ""; Some ""].

Definition continuous_label (var : string) : string :=
  if eqb var "AGE" then Py.title var +++ " (years)" else Py.title var.

(** Body of the loop over [continuous_vars]. *)
Definition process_continuous (adsl : SubjectFrame)
    (treatments : list string) (table_rows : list (list Cell))
    (var : string) : Result (list (list Cell)) :=
  var_stats <- summarize_continuous adsl var ;;
  let var_formatted := format_continuous_stats var_stats in
  (* Add variable header *)
  let table_rows := table_rows ++ [header_row (continuous_label var)] in
  (* Add mean (SD) row *)
  mean_cells <-
    mapM (fun trt =>
            Py.replace_method
              (get_value
                 (map (fun r => (cf_TRT01P r, cf_mean_sd r)) var_formatted)
                 trt)
              sentinel "")
         treatments ;;
  let table_rows :=
    table_rows ++ [Some "  Mean (SD)" :: map Some mean_cells] in
  (* Add median [min, max] row *)
  median_cells <-
    mapM (fun trt =>
            Py.replace_method
              (get_value
                 (map (fun r => (cf_TRT01P r, cf_median_range r))
                      var_formatted)
                 trt)
              sentinel "")
         treatments ;;
  Ok (table_rows ++ [Some "  Median [Min, Max]" :: map Some median_cells]).

(** The categories of a variable, from the original frame:
    [adsl[var].unique(maintain_order=True).drop_nulls().to_list()]. *)
Definition categories_of (series : Series) : list string :=
  drop_nulls (unique (category_cells series)).

(** [category in var_formatted[var].unique().to_list()]. *)
Definition in_formatted (var_formatted : list CategoricalFormatted)
    (category : string) : bool :=
  existsb (fun v => eqb v (Some category))
          (unique (map cg_var var_formatted)).

Definition category_row (var_formatted : list CategoricalFormatted)
    (treatments : list string) (category : string) : list Cell :=
  let cat_data :=
    filter (fun r => eq_lit (cg_var r) category) var_formatted in
  Some ("  " +++ category)
    :: map (fun trt =>
              get_value (map (fun r => (cg_TRT01P r, cg_n_pct r)) cat_data)
                        trt)
           treatments.

(** Body of the loop over [categorical_vars]; the inner loop skips a
    category ([continue]) that the formatted statistics do not hold. *)
Definition process_categorical {E : Engine} (adsl : SubjectFrame)
    (treatments : list string) (table_rows : list (list Cell))
    (var : string) : Result (list (list Cell)) :=
  var_stats <- summarize_categorical adsl var ;;
  let var_formatted := format_categorical_stats var_stats in
  (* Add variable header *)
  let table_rows := table_rows ++ [header_row (Py.title var)] in
  (* Add category rows *)
  series <- column adsl var ;;
  let categories := categories_of series in
  Ok (table_rows
        ++ map (category_row var_formatted treatments)
               (filter (in_formatted var_formatted) categories)).

Definition create_baseline_table {E : Engine} (adsl : SubjectFrame)
    (continuous_vars categorical_vars : list string)
    (treatments : list string) : Result Table :=
  table_rows <-
    for_each continuous_vars (process_continuous adsl treatments) [] ;;
  table_rows <-
    for_each categorical_vars (process_categorical adsl treatments)
             table_rows ;;
  DataFrame table_rows ("Characteristic" :: treatments).

End baseline.

(* ================================================================== *)
(** ** safety.py *)

Module safety.
Import Polars.

(** One row of the event-level frame (ADAE); every column is
    nullable. *)
Record AeRow : Type := {
  TRT01A : option string;
  USUBJID : option string;
  AEDECOD : option string;
  AEBODSYS : option string;
  AEREL : option string;
  AESER : option string;
  AEOUT : option string;
  AEACN : option string
}.

(** A filter expression is given by the rows on which it is true. *)
Definition Expr : Type := AeRow -> bool.

(** [treatment_levels] is given by its [TRT01A] column; the result has
    the columns [TRT01A] and [n]. *)
Definition count_participants (df : list AeRow)
    (treatment_levels : list (option string)) (condition : option Expr)
  : list (option string * N) :=
  let df :=
    match condition with
    | Some c => filter c df
    | None => df
    end in
  let counts :=
    map (fun g => (fst g, n_unique (map USUBJID (snd g))))
        (group_by TRT01A df) in
  map (fun j => (fst j, fill_null 0 (option_map snd (snd j))))
      (left_join (fun l => l) fst treatment_levels counts).

Record SummaryRow : Type := {
  sr_TRT01A : option string;
  sr_n : option N;
  sr_category : string
}.

Definition population_label : string := "Participants in population".

(** [pl.col(c).is_in(values)]. *)
Definition is_in (cell : option string) (values : list string) : bool :=
  match cell with
  | Some s => existsb (eqb s) values
  | None => false
  end.

Definition related : list string :=
  ["POSSIBLE"; "PROBABLE"; "DEFINITE"; "RELATED"].

Definition with_category (category : string)
    (counts : list (option string * N)) : list SummaryRow :=
  map (fun c => {| sr_TRT01A := fst c; sr_n := Some (snd c);
                   sr_category := category |})
      counts.

(** [pop_counts] has the columns [TRT01A] and [N]. *)
Definition create_ae_summary (adae_safety : list AeRow)
    (pop_counts : list (option string * N))
    (treatment_levels : list (option string)) : list SummaryRow :=
  (* 1. Participants in population *)
  let pop_row := with_category population_label pop_counts in
  (* 2. With any adverse event *)
  let any_ae :=
    with_category "With any adverse event"
      (count_participants adae_safety treatment_levels None) in
  (* 3. With drug-related adverse event *)
  let drug_related :=
    with_category "With drug-related adverse event"
      (count_participants adae_safety treatment_levels
         (Some (fun r => is_in (AEREL r) related))) in
  (* 4. With serious adverse event *)
  let serious :=
    with_category "With serious adverse event"
      (count_participants adae_safety treatment_levels
         (Some (fun r => eq_lit (AESER r) "Y"))) in
  (* 5. With serious drug-related adverse event *)
  let serious_drug_related :=
    with_category "With serious drug-related adverse event"
      (count_participants adae_safety treatment_levels
         (Some (fun r => eq_lit (AESER r) "Y" && is_in (AEREL r) related))) in
  (* 6. Who died *)
  let deaths :=
    with_category "Who died"
      (count_participants adae_safety treatment_levels
         (Some (fun r => eq_lit (AEOUT r) "FATAL"))) in
  (* 7. Discontinued due to adverse event *)
  let discontinued :=
    with_category "Discontinued due to adverse event"
      (count_participants adae_safety treatment_levels
         (Some (fun r => eq_lit (AEACN r) "DRUG WITHDRAWN"))) in
  pop_row ++ any_ae ++ drug_related ++ serious ++ serious_drug_related
    ++ deaths ++ discontinued.

Record FormattedRow : Type := {
  fr_TRT01A : option string;
  fr_n : N;
  fr_category : string;
  fr_N : option N;
  fr_pct : option float;
  fr_n_display : string;
  fr_pct_display : string
}.

(** One row of [format_ae_summary] after the left join: [row] with the
    population total [N] of its treatment group, null when
    [pop_counts] has no row for the group.  Both [with_columns] calls
    are folded into the record; [pct] is computed from the count as it
    was before [fill_null]. *)
Definition format_row (row : SummaryRow) (total : option N) : FormattedRow :=
  let n := fill_null 0 (sr_n row) in
  let is_population := eqb (sr_category row) population_label in
  let pct :=
    if is_population then None
    else match sr_n row, total with
         | Some k, Some d => Some (percent_round1 k d)
         | _, _ => None
         end in
  {| fr_TRT01A := sr_TRT01A row;
     fr_n := n;
     fr_category := sr_category row;
     fr_N := total;
     fr_pct := pct;
     fr_n_display := Py.str_N n;
     fr_pct_display :=
       if is_population then ""
       else "(" +++ str_float (match pct with
                               | Some x => x
                               | None => Dec false 0
                               end) +++ ")" |}.

Definition format_ae_summary (ae_summary : list SummaryRow)
    (pop_counts : list (option string * N)) : list FormattedRow :=
  map (fun j => format_row (fst j) (option_map snd (snd j)))
      (left_join sr_TRT01A fst ae_summary pop_counts).

Record AeCount : Type := {
  ac_TRT01A : option string;
  ac_AEBODSYS_STD : option string;
  ac_AEDECOD_STD : option string;
  ac_n : N
}.

(** The grouped counts of [create_ae_by_soc_table].  The source sorts
    this frame; every later step either sorts again or reads the one
    row of a group, so the sort is left out. *)
Definition ae_counts_of (adae_safety : list AeRow) : list AeCount :=
  map (fun g =>
         let '(trt, soc, term) := fst g in
         {| ac_TRT01A := trt; ac_AEBODSYS_STD := soc;
            ac_AEDECOD_STD := term;
            ac_n := n_unique (map USUBJID (snd g)) |})
      (group_by (fun r => (TRT01A r, option_map to_titlecase (AEBODSYS r),
                           option_map to_titlecase (AEDECOD r)))
                adae_safety).

(** [str(pop_counts.filter(pl.col("TRT01A") == t)["N"][0])]. *)
Definition population_cell (pop_counts : list (option string * N))
    (t : string) : Result string :=
  match filter (fun p => eq_lit (fst p) t) pop_counts with
  | p :: _ => Ok (Py.str_N (snd p))
  | [] => Raise IndexError
  end.

(** The count of one term in one treatment group, as text; [ae_term]
    is [None] for a null term. *)
Definition count_cell (soc_data : list AeCount) (ae_term : option string)
    (trt : string) : string :=
  let count_data :=
    filter (fun r => eq_value (ac_AEDECOD_STD r) ae_term
                     && eq_lit (ac_TRT01A r) trt)
           soc_data in
  let count :=
    match count_data with
    | r :: _ => ac_n r
    | [] => 0%N
    end in
  Py.str_N count.

Definition term_row (soc_data : list AeCount) (treatments : list string)
    (ae_term : option string) : list Cell :=
  Some ("  " +++ Py.format_value ae_term)
    :: map (fun trt => Some (count_cell soc_data ae_term trt)) treatments.

(** The rows of one System Organ Class: its header and its terms;
    [soc] is [None] for a null organ class, which labels its header
    with a null cell. *)
Definition soc_rows (ae_counts : list AeCount) (treatments : list string)
    (soc : option string) : list (list Cell) :=
  let soc_data :=
    filter (fun r => eq_value (ac_AEBODSYS_STD r) soc) ae_counts in
  (soc :: repeat (Some "") (length treatments))
    :: map (term_row soc_data treatments)
           (sort_nullable (unique (map ac_AEDECOD_STD soc_data))).

Definition create_ae_by_soc_table (adae_safety : list AeRow)
    (pop_counts : list (option string * N)) (treatments : list string)
  : Result Table :=
  let ae_counts := ae_counts_of adae_safety in
  (* Initialize table with population counts *)
  population_cells <- mapM (population_cell pop_counts) treatments ;;
  let table_data :=
    [ Some population_label :: map Some population_cells;
      repeat (Some "") (length treatments + 1) ] in
  (* Build hierarchical structure: SOC -> Specific AE terms *)
  let table_data :=
    table_data
      ++ flat_map (soc_rows ae_counts treatments)
                  (sort_nullable (unique (map ac_AEBODSYS_STD ae_counts))) in
  DataFrame table_data
            ("System Organ Class / Preferred Term" :: treatments).

End safety.

(* ================================================================== *)
(** ** population.py *)

Module population.
Import Polars.

Record PopulationRow : Type := {
  TRT01P : option string;
  n : N;
  population : string
}.

(** [data] is given by its [TRT01P] column. *)
Definition count_by_treatment (data : list (option string))
    (population_name : string) : list PopulationRow :=
  map (fun g => {| TRT01P := fst g; n := N.of_nat (length (snd g));
                   population := population_name |})
      (group_by (fun t => t) data).

Record PopulationStats : Type := {
  ps_TRT01P : option string;
  ps_population : string;
  ps_n : N;
  ps_total : N;
  ps_pct : float;
  ps_display : string
}.

(** The two [with_columns] steps of [format_population_table] on one
    joined row. *)
Definition stats_row (row : PopulationRow) (total : N) : PopulationStats :=
  let pct := percent_round1 (n row) total in
  {| ps_TRT01P := TRT01P row;
     ps_population := population row;
     ps_n := n row;
     ps_total := total;
     ps_pct := pct;
     ps_display :=
       if eqb (population row) "Participants in population"
       then Py.str_N (n row)
       else Py.str_N (n row) +++ " (" +++ str_float pct +++ ")" |}.

(** One cell of the pivot: the value of the one row at this index and
    column, null when there is none. *)
Definition pivot_cell (stats : list PopulationStats)
    (index : string) (on : option string) : Result Cell :=
  match filter (fun r => eqb (ps_population r) index
                         && eqb (ps_TRT01P r) on) stats with
  | [] => Ok None
  | [r] => Ok (Some (ps_display r))
  | _ => Raise ComputeError
  end.

(** The name of a pivot column. *)
Definition on_name (on : option string) : string :=
  match on with
  | Some s => s
  | None => "null"
  end.

(** The frame before the pivot; [totals] has the columns [TRT01P] and
    [total]. *)
Definition formatted_stats {E : Engine} (pop_summary : list PopulationRow)
    (totals : list (option string * N)) : list PopulationStats :=
  map (fun j => stats_row (fst j) (snd (snd j)))
      (inner_join TRT01P fst pop_summary totals).

(** The pivot ([maintain_order=True]) makes one column per treatment
    group and one row per population, each in the order of first
    appearance in the joined frame. *)
Definition format_population_table {E : Engine}
    (pop_summary : list PopulationRow)
    (totals : list (option string * N)) : Result Table :=
  (* Calculate percentages, format display values *)
  let formatted_stats := formatted_stats pop_summary totals in
  (* Pivot to wide format *)
  let on_values := unique (map ps_TRT01P formatted_stats) in
  let index_values := unique (map ps_population formatted_stats) in
  rows <-
    mapM (fun index =>
            cells <- mapM (pivot_cell formatted_stats index) on_values ;;
            Ok (Some index :: cells))
         index_values ;;
  let names := "population" :: map on_name on_values in
  match first_duplicate names with
  | Some name => Raise (DuplicateError name)
  | None => Ok {| header := names; body := rows |}
  end.

(** A subject of [adsl]: the planned treatment and the three
    population flags.  The flag of a column that the frame does not
    have is never read. *)
Record Subject : Type := {
  subject_TRT01P : option string;
  ITTFL : option string;
  EFFFL : option string;
  SAFFL : option string
}.

(** [adsl], given by the names of its columns and by its rows. *)
Record SubjectFrame : Type := {
  columns : list string;
  rows : list Subject
}.

(** [name in adsl.columns]. *)
Definition contains (name : string) (names : list string) : bool :=
  existsb (eqb name) names.

(** [pl.concat(populations, how="diagonal")] stacks the frames, which
    all have the columns of [count_by_treatment]. *)
Definition create_population_summary (adsl : SubjectFrame)
  : list PopulationRow :=
  (* All randomized participants *)
  let pop_all :=
    count_by_treatment (map subject_TRT01P (rows adsl))
                       "Participants in population" in
  let populations := [pop_all] in
  (* Intent-to-treat population *)
  let populations :=
    if contains "ITTFL" (columns adsl) then
      let adsl_itt := filter (fun s => eq_lit (ITTFL s) "Y") (rows adsl) in
      let pop_itt :=
        count_by_treatment (map subject_TRT01P adsl_itt)
                           "Participants included in ITT population" in
      populations ++ [pop_itt]
    else populations in
  (* Efficacy population *)
  let populations :=
    if contains "EFFFL" (columns adsl) then
      let adsl_eff := filter (fun s => eq_lit (EFFFL s) "Y") (rows adsl) in
      let pop_eff :=
        count_by_treatment (map subject_TRT01P adsl_eff)
                           "Participants included in efficacy population" in
      populations ++ [pop_eff]
    else populations in
  (* Safety population *)
  let populations :=
    if contains "SAFFL" (columns adsl) then
      let adsl_saf := filter (fun s => eq_lit (SAFFL s) "Y") (rows adsl) in
      let pop_saf :=
        count_by_treatment (map subject_TRT01P adsl_saf)
                           "Participants included in safety population" in
      populations ++ [pop_saf]
    else populations in
  concat populations.

End population.

(* ================================================================== *)
(** ** Definitions used to state the properties *)

(** A key type whose [eqb] decides equality. *)
Class EqbLaws (K : Type) `{Eqb K} : Prop :=
  eqb_eq : forall a b : K, eqb a b = true <-> a = b.

Arguments EqbLaws K {_}.

(** [a] occurs in the list and [b] occurs somewhere after it. *)
Inductive before {A : Type} (a b : A) : list A -> Prop :=
| before_here l : In b l -> before a b (a :: l)
| before_later x l : before a b l -> before a b (x :: l).

(** Position of the first occurrence of [x] in [l]. *)
Fixpoint first_index {K} `{Eqb K} (x : K) (l : list K) : option nat :=
  match l with
  | [] => None
  | y :: l' => if eqb x y then Some 0%nat
               else option_map S (first_index x l')
  end.

(** Whether a row passes the optional filter of [count_participants]. *)
Definition holds (condition : option safety.Expr) (r : safety.AeRow) : bool :=
  match condition with
  | Some c => c r
  | None => true
  end.

(** The rows that pass the optional filter. *)
Definition selected (df : list safety.AeRow) (condition : option safety.Expr)
  : list safety.AeRow :=
  filter (holds condition) df.

(** The count that [count_participants] reports for one level: the
    distinct subjects of the level's rows, and 0 for a null level, which
    joins with no group. *)
Definition level_count (df : list safety.AeRow) (level : option string) : N :=
  match level with
  | Some t =>
      Polars.n_unique
        (map safety.USUBJID
             (filter (fun r => eqb (safety.TRT01A r) (Some t)) df))
  | None => 0%N
  end.

(** The participants of one treatment group with one term of one organ
    class: the distinct subject identifiers among the matching events. *)
Definition participants (adae : list safety.AeRow) (trt soc term : string)
  : N :=
  Polars.n_unique
    (map safety.USUBJID
         (filter (fun r =>
                    eqb (safety.TRT01A r) (Some trt)
                    && eqb (option_map Polars.to_titlecase (safety.AEBODSYS r))
                           (Some soc)
                    && eqb (option_map Polars.to_titlecase (safety.AEDECOD r))
                           (Some term))
                 adae)).

(** The rows that [create_baseline_table] hands to the frame
    constructor. *)
Definition baseline_rows {E : Polars.Engine} (adsl : baseline.SubjectFrame)
    (continuous_vars categorical_vars treatments : list string)
  : Result (list (list Polars.Cell)) :=
  table_rows <-
    for_each continuous_vars (baseline.process_continuous adsl treatments) [] ;;
  for_each categorical_vars (baseline.process_categorical adsl treatments)
           table_rows.

(** The [median_range] cells of a continuous variable, one per
    treatment, as [get_value] reads them. *)
Definition median_range_cells (adsl : baseline.SubjectFrame) (var : string)
    (treatments : list string) : Result (list (option string)) :=
  var_stats <- baseline.summarize_continuous adsl var ;;
  Ok (map (baseline.get_value
             (map (fun r => (baseline.cf_TRT01P r, baseline.cf_median_range r))
                  (baseline.format_continuous_stats var_stats)))
          treatments).

(** The rows that one pass of a loop of [create_baseline_table] appends:
    the loop body run on an empty [table_rows]. *)
Definition continuous_block (adsl : baseline.SubjectFrame)
    (treatments : list string) (var : string)
  : Result (list (list Polars.Cell)) :=
  baseline.process_continuous adsl treatments [] var.

Definition categorical_block {E : Polars.Engine}
    (adsl : baseline.SubjectFrame)
    (treatments : list string) (var : string)
  : Result (list (list Polars.Cell)) :=
  baseline.process_categorical adsl treatments [] var.

(** The two-column frames that [get_value] reads in the continuous
    block. *)
Definition mean_sd_frame (var_formatted : list baseline.ContinuousFormatted)
  : list (option string * option string) :=
  map (fun r => (baseline.cf_TRT01P r, baseline.cf_mean_sd r)) var_formatted.

Definition median_range_frame
    (var_formatted : list baseline.ContinuousFormatted)
  : list (option string * option string) :=
  map (fun r => (baseline.cf_TRT01P r, baseline.cf_median_range r))
      var_formatted.

(** Whether [totals] holds a total for the treatment group of a row of
    the population summary. *)
Definition has_total (totals : list (option string * N))
    (row : population.PopulationRow) : bool :=
  existsb (fun t => Polars.key_match (population.TRT01P row) (fst t)) totals.

(** [a] comes before [b] in the order of [Series.sort] on strings: the
    order of the character codes, which is alphabetical on title-cased
    text. *)
Definition string_lt (a b : string) : Prop :=
  String_as_OT.compare a b = Lt.

(** The group key of [create_ae_by_soc_table], and the row of
    [ae_counts] for one key. *)
Definition ae_key (r : safety.AeRow)
  : option string * option string * option string :=
  (safety.TRT01A r, option_map Polars.to_titlecase (safety.AEBODSYS r),
   option_map Polars.to_titlecase (safety.AEDECOD r)).

Definition ae_count_of (adae : list safety.AeRow)
    (k : option string * option string * option string) : safety.AeCount :=
  {| safety.ac_TRT01A := fst (fst k);
     safety.ac_AEBODSYS_STD := snd (fst k);
     safety.ac_AEDECOD_STD := snd k;
     safety.ac_n :=
       Polars.n_unique
         (map safety.USUBJID (filter (fun r => eqb (ae_key r) k) adae)) |}.

(** The terms listed under one organ class of the AE-by-SOC table. *)
Definition terms_of (adae : list safety.AeRow) (soc : string) : list string :=
  Polars.sort
    (Polars.drop_nulls
       (Polars.unique
          (map safety.ac_AEDECOD_STD
               (filter (fun r => Polars.eq_lit (safety.ac_AEBODSYS_STD r) soc)
                       (safety.ae_counts_of adae))))).

(** The rows of one organ class as the AE-by-SOC table shows them: the
    header with blank group cells, then per term the indented label and
    the participants of each treatment as text. *)
Definition soc_block (adae : list safety.AeRow) (treatments : list string)
    (soc : string) : list (list Polars.Cell) :=
  (Some soc :: repeat (Some "") (length treatments))
    :: map (fun term =>
              Some ("  " +++ term)
                :: map (fun trt =>
                          Some (Py.str_N (participants adae trt soc term)))
                       treatments)
           (terms_of adae soc).

Definition percent : ascii := "%"%char.

(** The characters of a string. *)
Fixpoint chars (s : string) : list ascii :=
  match s with
  | EmptyString => []
  | String c rest => c :: chars rest
  end.

(** *** Groups of the subject-level frame *)

(** The cells of a column that belong to the rows of one treatment cell
    [t] (a treatment name, or null). *)
Definition group_cells {V} (trt : list (option string)) (cells : list V)
    (t : option string) : list V :=
  map snd (filter (fun r => eqb (fst r) t) (combine trt cells)).

(** The row of [summarize_continuous] for one treatment cell. *)
Definition continuous_stat (trt : list (option string))
    (cells : list (option Z)) (t : option string)
  : baseline.ContinuousStats :=
  let values := group_cells trt cells t in
  {| baseline.cs_TRT01P := t;
     baseline.cs_mean := Polars.agg_mean_round1 values;
     baseline.cs_sd := Polars.agg_std_round2 values;
     baseline.cs_median := Polars.agg_median values;
     baseline.cs_min := Polars.agg_min values;
     baseline.cs_max := Polars.agg_max values;
     baseline.cs_n := N.of_nat (length values) |}.

(** The value of a printed float in hundredths (0 for NaN and
    infinity). *)
Definition centi (x : Polars.float) : Z :=
  match x with
  | Polars.Dec neg h => if neg then (- Z.of_N h)%Z else Z.of_N h
  | _ => 0%Z
  end.

(** The number of rows of the subject-level frame with treatment cell
    [t], and with treatment cell [t] and category cell [c]. *)
Definition subjects (trt : list (option string)) (cells : list (option string))
    (t : option string) : N :=
  N.of_nat (length (filter (fun r => eqb (fst r) t) (combine trt cells))).

Definition subjects_in (trt : list (option string))
    (cells : list (option string)) (t c : option string) : N :=
  N.of_nat (length (filter (fun r => eqb r (t, c)) (combine trt cells))).

(** The row of [summarize_categorical] for one treatment and category. *)
Definition categorical_stat (trt : list (option string))
    (cells : list (option string)) (k : option string * option string)
  : baseline.CategoricalStats :=
  {| baseline.ct_TRT01P := fst k;
     baseline.ct_var := snd k;
     baseline.ct_len := subjects_in trt cells (fst k) (snd k);
     baseline.ct_total := subjects trt cells (fst k);
     baseline.ct_pct :=
       Polars.percent_round1 (subjects_in trt cells (fst k) (snd k))
                             (subjects trt cells (fst k)) |}.


Definition is_some {A} (x : option A) : bool :=
  match x with
  | Some _ => true
  | None => false
  end.

(** *** The event-level frame and the population counts *)

(** The population count that the left join of [format_ae_summary]
    attaches to a treatment cell: that of the first row of [pop_counts]
    for the treatment, null for a treatment without a row and for a null
    treatment. *)
Definition population_of (pop_counts : list (option string * N))
    (trt : option string) : option N :=
  match trt with
  | Some t =>
      option_map snd (find (fun p => Polars.eq_lit (fst p) t) pop_counts)
  | None => None
  end.

(** The six event categories of [create_ae_summary], in its order. *)
Definition event_categories : list string :=
  [ "With any adverse event";
    "With drug-related adverse event";
    "With serious adverse event";
    "With serious drug-related adverse event";
    "Who died";
    "Discontinued due to adverse event" ].

(** A text with its ASCII letters in lower case. *)
Fixpoint lower (s : string) : string :=
  match s with
  | EmptyString => EmptyString
  | String c rest => String (Py.to_lower c) (lower rest)
  end.

(** Two events that agree on treatment and subject and whose term and
    organ class differ at most in the case of their letters. *)
Definition same_event_up_to_case (r1 r2 : safety.AeRow) : Prop :=
  safety.TRT01A r1 = safety.TRT01A r2
  /\ safety.USUBJID r1 = safety.USUBJID r2
  /\ option_map lower (safety.AEDECOD r1)
     = option_map lower (safety.AEDECOD r2)
  /\ option_map lower (safety.AEBODSYS r1)
     = option_map lower (safety.AEBODSYS r2).

(** The subjects that [create_population_summary] counts under a
    population label: all of them, or those whose flag is "Y" when the
    frame has the flag column. *)
Definition members (adsl : population.SubjectFrame) (label : string)
  : list population.Subject :=
  let flagged (name : string) (flag : population.Subject -> option string) :=
    if population.contains name (population.columns adsl)
    then filter (fun s => Polars.eq_lit (flag s) "Y") (population.rows adsl)
    else [] in
  if eqb label "Participants in population" then population.rows adsl
  else if eqb label "Participants included in ITT population"
  then flagged "ITTFL" population.ITTFL
  else if eqb label "Participants included in efficacy population"
  then flagged "EFFFL" population.EFFFL
  else if eqb label "Participants included in safety population"
  then flagged "SAFFL" population.SAFFL
  else [].

(** The subjects of one treatment cell among [subjects]. *)
Definition of_treatment (subjects : list population.Subject)
    (trt : option string) : list population.Subject :=
  filter (fun s => eqb (population.subject_TRT01P s) trt) subjects.

(** The population and treatment of a summary row. *)
Definition summary_key (r : population.PopulationRow)
  : string * option string :=
  (population.population r, population.TRT01P r).

(** The total that [totals] lists first for a treatment. *)
Definition total_of (totals : list (option string * N))
    (trt : option string) : option N :=
  match trt with
  | Some t =>
      option_map snd (find (fun p => Polars.eq_lit (fst p) t) totals)
  | None => None
  end.

(** The text of the first row of the summary for a population and a
    treatment, printed with the total of the treatment; null when the
    summary has no such row or the treatment has no total. *)
Definition display_cell (pop_summary : list population.PopulationRow)
    (totals : list (option string * N)) (index : string)
    (on : option string) : Polars.Cell :=
  match find (fun r => eqb (summary_key r) (index, on)) pop_summary with
  | Some r =>
      option_map (fun total =>
                    population.ps_display (population.stats_row r total))
                 (total_of totals on)
  | None => None
  end.

(** [text] displays the count [n] of the population [label] over
    [total]: the count alone for all participants; otherwise the count
    and, in parentheses, the percentage to one decimal, within 0.05 of
    the exact percentage, or the float quotient NaN or infinity when
    the total is 0. *)
Definition displays (label : string) (n total : N) (text : string) : Prop :=
  if eqb label "Participants in population" then text = Py.str_N n
  else if (total =? 0)%N
  then text = Py.str_N n +++ " (" +++ (if (n =? 0)%N then "NaN" else "inf")
              +++ ")"
  else exists tenths,
         (2 * (tenths * total) <= 2 * (1000 * n) + total
          /\ 2 * (1000 * n) <= 2 * (tenths * total) + total)%N
         /\ text = Py.str_N n +++ " ("
                   +++ Polars.str_float (Polars.Dec false (10 * tenths))
                   +++ ")".

(** The rows of the joined frame that fall into one cell of the
    pivot. *)
Definition cell_rows (stats : list population.PopulationStats)
    (index : string) (on : option string) : list population.PopulationStats :=
  filter (fun r => eqb (population.ps_population r) index
                   && eqb (population.ps_TRT01P r) on) stats.

(** *** Sample data *)

Module sample.

(** Scenario A: AGE is 30 and 40 under Placebo and 50 under Drug. *)
Definition scenario_A : baseline.SubjectFrame :=
  {| baseline.TRT01P := [Some "Placebo"; Some "Placebo"; Some "Drug"];
     baseline.columns :=
       [("AGE", baseline.IntSeries [Some 30%Z; Some 40%Z; Some 50%Z])] |}.

(** Three arms with two subjects each, and one subject without a
    planned treatment whose sex category no arm shares. *)
Definition adsl : baseline.SubjectFrame :=
  {| baseline.TRT01P :=
       [Some "Placebo"; Some "Drug"; Some "Placebo"; Some "Drug";
        Some "High"; Some "High"; None];
     baseline.columns :=
       [("AGE", baseline.IntSeries
                  [Some 30%Z; Some 50%Z; Some 40%Z; Some 61%Z;
                   Some 45%Z; Some 47%Z; Some 52%Z]);
        ("SEX", baseline.StrSeries
                  [Some "M"; Some "F"; Some "F"; Some "F";
                   Some "M"; Some "F"; Some "U"])] |}.

Definition arms : list string := ["Placebo"; "Drug"; "High"].

(** The baseline table of [adsl] for its three arms. *)
Definition baseline_table : Polars.Table :=
  {| Polars.header := ["Characteristic"; "Placebo"; "Drug"; "High"];
     Polars.body :=
       [ [Some "Age (years)"; Some ""; Some ""; Some ""];
         [Some "  Mean (SD)"; Some "35.0 (7.07)"; Some "55.5 (7.78)";
          Some "46.0 (1.41)"];
         [Some "  Median [Min, Max]"; Some "35.0 [30, 40]";
          Some "55.5 [50, 61]"; Some "46.0 [45, 47]"];
         [Some "Sex"; Some ""; Some ""; Some ""];
         [Some "  M"; Some "1 (50.0%)"; Some "0 (0.0%)"; Some "1 (50.0%)"];
         [Some "  F"; Some "1 (50.0%)"; Some "2 (100.0%)";
          Some "1 (50.0%)"] ] |}.

(** The same table asked for an arm without subjects. *)
Definition baseline_table_other : Polars.Table :=
  {| Polars.header := ["Characteristic"; "Placebo"; "Drug"; "Other"];
     Polars.body :=
       [ [Some "Age (years)"; Some ""; Some ""; Some ""];
         [Some "  Mean (SD)"; Some "35.0 (7.07)"; Some "55.5 (7.78)";
          Some ""];
         [Some "  Median [Min, Max]"; Some "35.0 [30, 40]";
          Some "55.5 [50, 61]"; Some ""];
         [Some "Sex"; Some ""; Some ""; Some ""];
         [Some "  M"; Some "1 (50.0%)"; Some "0 (0.0%)"; Some "0 (0.0%)"];
         [Some "  F"; Some "1 (50.0%)"; Some "2 (100.0%)";
          Some "0 (0.0%)"] ] |}.

Definition event (trt subject term soc : string) (serious : option string)
  : safety.AeRow :=
  {| safety.TRT01A := Some trt; safety.USUBJID := Some subject;
     safety.AEDECOD := Some term; safety.AEBODSYS := Some soc;
     safety.AEREL := None; safety.AESER := serious;
     safety.AEOUT := None; safety.AEACN := None |}.

(** An event of subject S1 whose term is null. *)
Definition unnamed_event : safety.AeRow :=
  {| safety.TRT01A := Some "Drug"; safety.USUBJID := Some "S1";
     safety.AEDECOD := None; safety.AEBODSYS := Some "SKIN DISORDERS";
     safety.AEREL := None; safety.AESER := None;
     safety.AEOUT := None; safety.AEACN := None |}.

(** Subject S1 has two rash events. *)
Definition adae : list safety.AeRow :=
  [ event "Drug" "S1" "RASH" "SKIN DISORDERS" (Some "Y");
    event "Drug" "S1" "RASH" "SKIN DISORDERS" None;
    event "Drug" "S2" "RASH" "SKIN DISORDERS" (Some "Y");
    event "Placebo" "S3" "ATRIAL FIBRILLATION" "CARDIAC DISORDERS" None ].

(** The AE-by-SOC table of [adae] for the three arms. *)
Definition ae_by_soc_table : Polars.Table :=
  {| Polars.header :=
       ["System Organ Class / Preferred Term"; "Placebo"; "Drug"; "High"];
     Polars.body :=
       [ [Some "Participants in population"; Some "5"; Some "10"; Some "0"];
         [Some ""; Some ""; Some ""; Some ""];
         [Some "Cardiac Disorders"; Some ""; Some ""; Some ""];
         [Some "  Atrial Fibrillation"; Some "1"; Some "0"; Some "0"];
         [Some "Skin Disorders"; Some ""; Some ""; Some ""];
         [Some "  Rash"; Some "0"; Some "2"; Some "0"] ] |}.

Definition pop_counts : list (option string * N) :=
  [(Some "Placebo", 5%N); (Some "Drug", 10%N); (Some "High", 0%N)].

(** A summary row of an arm whose population count is 0. *)
Definition empty_arm_summary : list safety.SummaryRow :=
  [ {| safety.sr_TRT01A := Some "High"; safety.sr_n := Some 0%N;
       safety.sr_category := "With any adverse event" |} ].

Definition pop_summary : list population.PopulationRow :=
  [ {| population.TRT01P := Some "Drug"; population.n := 10%N;
       population.population := "Participants in population" |};
    {| population.TRT01P := Some "Placebo"; population.n := 5%N;
       population.population := "Participants in population" |} ].

Definition totals : list (option string * N) :=
  [(Some "Placebo", 5%N); (Some "Drug", 10%N)].

Definition subject (trt : string) (itt : option string)
  : population.Subject :=
  {| population.subject_TRT01P := Some trt; population.ITTFL := itt;
     population.EFFFL := None; population.SAFFL := Some "Y" |}.

(** Three randomized subjects, two of them in the ITT population; the
    frame has no EFFFL column. *)
Definition enrolled : population.SubjectFrame :=
  {| population.columns := ["USUBJID"; "TRT01P"; "ITTFL"; "SAFFL"];
     population.rows :=
       [ subject "Placebo" (Some "Y");
         subject "Drug" (Some "Y");
         subject "Drug" (Some "N") ] |}.

End sample.

(* ================================================================== *)
(** ** Equality tests *)

#[export] Instance EqbLaws_string : EqbLaws string := String.eqb_eq.

Lemma eqb_spec {K} `{EqbLaws K} (a b : K) : reflect (a = b) (eqb a b).
Proof. apply iff_reflect. symmetry. apply eqb_eq. Qed.

#[export] Instance EqbLaws_option {K} `{EqbLaws K} : EqbLaws (option K).
Proof.
  intros [x|] [y|]; unfold eqb at 1, Eqb_option; try (split; congruence).
  rewrite eqb_eq. split; congruence.
Qed.

#[export] Instance EqbLaws_pair {K L} `{EqbLaws K} `{EqbLaws L}
  : EqbLaws (K * L).
Proof.
  intros [a1 a2] [b1 b2]. unfold eqb at 1, Eqb_pair. simpl.
  rewrite andb_true_iff, !eqb_eq. split; [intros [-> ->] | intros [=]]; auto.
Qed.

Lemma eqb_refl {K} `{EqbLaws K} (a : K) : eqb a a = true.
Proof. apply eqb_eq. reflexivity. Qed.

Lemma eqb_true_iff {K} `{EqbLaws K} (a b : K) : eqb a b = true <-> a = b.
Proof. apply eqb_eq. Qed.

Lemma eqb_false_iff {K} `{EqbLaws K} (a b : K) : eqb a b = false <-> a <> b.
Proof. destruct (eqb_spec a b); split; congruence. Qed.

Lemma eq_lit_true_iff (cell : option string) (v : string) :
  Polars.eq_lit cell v = true <-> cell = Some v.
Proof.
  destruct cell as [s|]; simpl.
  - rewrite eqb_true_iff. split; congruence.
  - split; discriminate.
Qed.

Lemma key_match_true_iff (a b : option string) :
  Polars.key_match a b = true <-> exists s, a = Some s /\ b = Some s.
Proof.
  destruct a as [x|], b as [y|]; simpl;
    try (split; [discriminate | intros (s & ? & ?); discriminate]).
  rewrite eqb_true_iff. split.
  - intros ->. eauto.
  - intros (s & ? & ?). congruence.
Qed.

(* ================================================================== *)
(** ** Lists: filters, distinct values, groups *)

Section Lists.
Context {A : Type}.

Lemma filter_nil_iff (p : A -> bool) (l : list A) :
  filter p l = [] <-> forall x, In x l -> p x = false.
Proof.
  induction l as [|x l IH]; simpl.
  - split; [intros _ y [] | reflexivity].
  - destruct (p x) eqn:Hx; split.
    + discriminate.
    + intros Hall. specialize (Hall x (or_introl eq_refl)). congruence.
    + intros Hnil y [<- | Hy]; [assumption | apply IH; assumption].
    + intros Hall. apply IH. intros y Hy. apply Hall. right. assumption.
Qed.

Lemma filter_filter (p q : A -> bool) (l : list A) :
  filter p (filter q l) = filter (fun x => q x && p x) l.
Proof.
  induction l as [|x l IH]; simpl; [reflexivity|].
  destruct (q x); simpl; [destruct (p x)|]; rewrite IH; reflexivity.
Qed.

Lemma map_flat_map_singleton {B C} (g : B -> C) (f : A -> list B)
    (h : A -> C) (l : list A) :
  (forall a, map g (f a) = [h a]) -> map g (flat_map f l) = map h l.
Proof.
  intros Hf. induction l as [|a l IH]; simpl; [reflexivity|].
  rewrite map_app, Hf, IH. reflexivity.
Qed.

Lemma before_cons_inv (a b x : A) (l : list A) :
  before a b (x :: l) -> (a = x /\ In b l) \/ before a b l.
Proof. intros Hb. inversion Hb; subst; auto. Qed.

Lemma before_In (a b : A) (l : list A) : before a b l -> In a l /\ In b l.
Proof.
  induction 1 as [l Hb | x l _ [IHa IHb]]; simpl; auto.
Qed.

Lemma before_filter (p : A -> bool) (a b : A) (l : list A) :
  before a b (filter p l) -> before a b l.
Proof.
  induction l as [|x l IH]; simpl; intros Hb; [inversion Hb|].
  destruct (p x).
  - apply before_cons_inv in Hb. destruct Hb as [[-> Hin] | Hb'].
    + apply before_here. apply filter_In in Hin. tauto.
    + apply before_later. auto.
  - apply before_later. auto.
Qed.

Lemma before_drop_nulls (a b : A) (l : list (option A)) :
  before a b (Polars.drop_nulls l) -> before (Some a) (Some b) l.
Proof.
  induction l as [|[x|] l IH]; simpl; intros Hb.
  - inversion Hb.
  - apply before_cons_inv in Hb. destruct Hb as [[-> Hin] | Hb'].
    + apply before_here.
      clear -Hin. induction l as [|[y|] l IH]; simpl in *; intuition congruence.
    + apply before_later. auto.
  - apply before_later. auto.
Qed.

Lemma In_drop_nulls (a : A) (l : list (option A)) :
  In a (Polars.drop_nulls l) <-> In (Some a) l.
Proof.
  induction l as [|[x|] l IH]; simpl.
  - tauto.
  - rewrite IH. split; intros [?|?]; auto; left; congruence.
  - rewrite IH. split; [auto|]. intros [?|?]; [discriminate|assumption].
Qed.

Lemma NoDup_filter (p : A -> bool) (l : list A) :
  NoDup l -> NoDup (filter p l).
Proof.
  induction 1 as [|x l Hnotin _ IH]; simpl; [constructor|].
  destruct (p x); [|assumption].
  constructor; [|assumption]. rewrite filter_In. tauto.
Qed.

Lemma NoDup_drop_nulls (l : list (option A)) :
  NoDup l -> NoDup (Polars.drop_nulls l).
Proof.
  induction 1 as [|[x|] l Hnotin _ IH]; simpl; try assumption; [constructor|].
  constructor; [|assumption]. rewrite In_drop_nulls. assumption.
Qed.

End Lists.

Section Unique.
Context {K : Type} `{EqbLaws K}.

Lemma unique_In (x : K) (l : list K) : In x (Polars.unique l) <-> In x l.
Proof.
  induction l as [|y l IH]; simpl; [tauto|].
  rewrite filter_In, IH, negb_true_iff, eqb_false_iff.
  destruct (eqb_spec y x); intuition congruence.
Qed.

Lemma unique_NoDup (l : list K) : NoDup (Polars.unique l).
Proof.
  induction l as [|y l IH]; simpl; constructor.
  - rewrite filter_In, negb_true_iff, eqb_false_iff. tauto.
  - apply NoDup_filter. assumption.
Qed.

Lemma first_index_Some (x : K) (l : list K) :
  In x l -> exists i, first_index x l = Some i.
Proof.
  induction l as [|y l IH]; simpl; [tauto|].
  intros Hin. destruct (eqb_spec x y) as [->|Hne]; [eauto|].
  destruct IH as [i ->]; [destruct Hin; congruence|].
  simpl. eauto.
Qed.

(** [unique] lists the values in the order of their first
    occurrences. *)
Lemma unique_before (a b : K) (l : list K) :
  before a b (Polars.unique l) ->
  exists i j, first_index a l = Some i /\ first_index b l = Some j
              /\ (i < j)%nat.
Proof.
  induction l as [|y l IH]; simpl; intros Hb; [inversion Hb|].
  apply before_cons_inv in Hb. destruct Hb as [[-> Hin] | Hb'].
  - apply filter_In in Hin. destruct Hin as [Hin Hne].
    rewrite negb_true_iff, eqb_false_iff in Hne.
    rewrite eqb_refl.
    destruct (eqb_spec b y) as [->|_]; [congruence|].
    rewrite unique_In in Hin.
    destruct (first_index_Some b l Hin) as [j ->].
    exists 0%nat, (S j). simpl. repeat split; lia.
  - destruct (before_In Hb') as [Hfa Hfb].
    apply filter_In in Hfa. apply filter_In in Hfb.
    destruct Hfa as [_ Hna], Hfb as [_ Hnb].
    rewrite negb_true_iff, eqb_false_iff in Hna, Hnb.
    apply before_filter in Hb'.
    destruct (IH Hb') as (i & j & Hi & Hj & Hlt).
    destruct (eqb_spec a y) as [->|_]; [congruence|].
    destruct (eqb_spec b y) as [->|_]; [congruence|].
    rewrite Hi, Hj. exists (S i), (S j). simpl. repeat split; lia.
Qed.

Lemma n_unique_spec (l : list K) :
  exists ids, NoDup ids /\ (forall x, In x ids <-> In x l)
              /\ Polars.n_unique l = N.of_nat (length ids).
Proof.
  exists (Polars.unique l). split; [apply unique_NoDup|].
  split; [intros x; apply unique_In | reflexivity].
Qed.

End Unique.

Section Groups.
Context {R K : Type} `{EqbLaws K}.
Variable key : R -> K.

Lemma group_by_In (df : list R) (k : K) (rows : list R) :
  In (k, rows) (Polars.group_by key df) <->
  In k (map key df) /\ rows = filter (fun r => eqb (key r) k) df.
Proof.
  unfold Polars.group_by. rewrite in_map_iff. split.
  - intros (k' & [= <- <-] & Hin). rewrite unique_In in Hin. auto.
  - intros [Hin ->]. exists k. rewrite unique_In. auto.
Qed.

(** Looking one key up in a frame that has one row per key. *)
Lemma filter_map_keyed {V} (mk : K -> V) (p : V -> bool)
    (k0 : K) (ks : list K) :
  NoDup ks ->
  (forall k, p (mk k) = true <-> k = k0) ->
  filter p (map mk ks)
  = if existsb (fun k => p (mk k)) ks then [mk k0] else [].
Proof.
  intros Hnd Hp. induction Hnd as [|k ks Hnotin Hnd IH]; simpl; [reflexivity|].
  destruct (p (mk k)) eqn:Hk; simpl.
  - apply Hp in Hk. subst k. f_equal.
    rewrite IH. destruct (existsb _ ks) eqn:Hex; [|reflexivity].
    exfalso. apply existsb_exists in Hex. destruct Hex as (k & Hin & Hk).
    apply Hp in Hk. subst k. contradiction.
  - apply IH.
Qed.

End Groups.

(* ================================================================== *)
(** ** safety.count_participants *)

Section CountParticipants.
Import safety.

Lemma selected_filter (df : list AeRow) (condition : option Expr) :
  match condition with
  | Some c => filter c df
  | None => df
  end = selected df condition.
Proof.
  unfold selected. destruct condition as [c|]; simpl; [reflexivity|].
  induction df as [|r df IH]; simpl; congruence.
Qed.

(** The grouped frame [counts] of [count_participants]. *)
Lemma counts_keyed (df : list AeRow) :
  map (fun g => (fst g, Polars.n_unique (map USUBJID (snd g))))
      (Polars.group_by TRT01A df)
  = map (fun k => (k, Polars.n_unique
                        (map USUBJID
                             (filter (fun r => eqb (TRT01A r) k) df))))
        (Polars.unique (map TRT01A df)).
Proof. unfold Polars.group_by. rewrite map_map. reflexivity. Qed.

(** The left join and [fill_null] on one row of [treatment_levels]. *)
Lemma join_level (df : list AeRow) (level : option string) :
  map (fun j : option string * option (option string * N) =>
         (fst j, Polars.fill_null 0 (option_map snd (snd j))))
      (match
          filter (fun c : option string * N =>
                    Polars.key_match level (fst c))
                 (map (fun k =>
                         (k, Polars.n_unique
                               (map USUBJID
                                    (filter (fun r => eqb (TRT01A r) k) df))))
                      (Polars.unique (map TRT01A df)))
        with
        | [] => [(level, None)]
        | ms => map (fun c => (level, Some c)) ms
        end)
  = [(level, level_count df level)].
Proof.
  destruct level as [t|].
  - rewrite (filter_map_keyed
               (fun k => (k, Polars.n_unique
                               (map USUBJID
                                    (filter (fun r => eqb (TRT01A r) k) df))))
               (fun c : option string * N => Polars.key_match (Some t) (fst c))
               (k0 := Some t)).
    + destruct (existsb _ _) eqn:Hex; simpl; [reflexivity|].
      cbn [fst] in Hex. f_equal. f_equal.
      assert (Hnil : filter (fun r => eqb (TRT01A r) (Some t)) df = []).
      { apply filter_nil_iff. intros r Hr. apply eqb_false_iff. intros Heq.
        assert (Hin : In (Some t) (Polars.unique (map TRT01A df))).
        { rewrite unique_In. rewrite <- Heq. apply in_map. assumption. }
        assert (Hex' : existsb (fun k => Polars.key_match (Some t) k)
                               (Polars.unique (map TRT01A df)) = true).
        { apply existsb_exists. exists (Some t). split; [assumption|].
          simpl. apply eqb_refl. }
        congruence. }
      rewrite Hnil. reflexivity.
    + apply unique_NoDup.
    + intros k. cbn [fst]. rewrite key_match_true_iff. split.
      * intros (s & [= <-] & ->). reflexivity.
      * intros ->. eauto.
  - simpl.
    replace (filter _ _) with (@nil (option string * N)); [reflexivity|].
    symmetry. apply filter_nil_iff. intros; reflexivity.
Qed.

Lemma count_participants_rows df levels condition :
  count_participants df levels condition
  = map (fun level => (level, level_count (selected df condition) level))
        levels.
Proof.
  unfold count_participants. rewrite selected_filter, counts_keyed.
  set (df' := selected df condition).
  unfold Polars.left_join.
  apply map_flat_map_singleton. intros level. apply join_level.
Qed.

End CountParticipants.

Section CountParticipantsProperties.
Import safety.

Lemma level_count_no_rows (df : list AeRow) (level : option string) :
  (forall r, In r df -> TRT01A r <> level) -> level_count df level = 0%N.
Proof.
  intros Hno. destruct level as [t|]; [|reflexivity]. simpl.
  replace (filter _ df) with (@nil AeRow); [reflexivity|].
  symmetry. apply filter_nil_iff. intros r Hr.
  apply eqb_false_iff. apply Hno. assumption.
Qed.

Lemma selected_In (df : list AeRow) (condition : option Expr) (r : AeRow) :
  In r (selected df condition) <-> In r df /\ holds condition r = true.
Proof. apply filter_In. Qed.

(** C1.  [count_participants] returns one row per row of the
    treatment-levels table (the rows of the result carry exactly the
    levels of the table, each as often as the table lists it); a level
    none of whose rows passes the filter has [n = 0]; on an empty
    dataset every level has [n = 0]. *)
Theorem C1_count_participants_zero_fill
    (df : list AeRow) (levels : list (option string))
    (condition : option Expr) :
  Permutation (map fst (count_participants df levels condition)) levels
  /\ length (count_participants df levels condition) = length levels
  /\ (forall level n,
        In (level, n) (count_participants df levels condition) ->
        (forall r, In r df -> holds condition r = true ->
                   TRT01A r <> level) ->
        n = 0%N)
  /\ (forall level n,
        In (level, n) (count_participants [] levels condition) -> n = 0%N).
Proof.
  rewrite !count_participants_rows. repeat split.
  - rewrite map_map. simpl. rewrite map_id. reflexivity.
  - apply length_map.
  - intros level n Hin Hno. apply in_map_iff in Hin.
    destruct Hin as (level' & [= -> <-] & _).
    apply level_count_no_rows. intros r Hr.
    apply selected_In in Hr. destruct Hr. auto.
  - intros level n Hin. apply in_map_iff in Hin.
    destruct Hin as (level' & [= -> <-] & _).
    apply level_count_no_rows. intros r [].
Qed.

Lemma C1_witness :
  Permutation
    (map fst (safety.count_participants
                sample.adae [Some "Placebo"; Some "Drug"; Some "High"] None))
    [Some "Placebo"; Some "Drug"; Some "High"]
  /\ (forall n,
        In (Some "High", n)
           (safety.count_participants
              sample.adae [Some "Placebo"; Some "Drug"; Some "High"] None) ->
        n = 0%N).
Proof.
  destruct (C1_count_participants_zero_fill
              sample.adae [Some "Placebo"; Some "Drug"; Some "High"] None)
    as (Hlevels & _ & Hzero & _).
  split; [exact Hlevels|].
  intros n Hin. apply (Hzero _ _ Hin).
  intros r Hr _. simpl in Hr.
  destruct Hr as [<- | [<- | [<- | [<- | []]]]]; discriminate.
Defined.

(** C5.  The count reported for a treatment group is the number of
    distinct subject identifiers among the rows of that group that
    pass the filter; a participant with several such rows counts
    once. *)
Theorem C5_count_participants_distinct_subjects
    (df : list AeRow) (levels : list (option string))
    (condition : option Expr) (t : string) (n : N) :
  In (Some t, n) (count_participants df levels condition) ->
  (exists ids : list (option string),
      NoDup ids
      /\ (forall u, In u ids <->
                    exists r, In r df /\ holds condition r = true
                              /\ TRT01A r = Some t /\ USUBJID r = u)
      /\ n = N.of_nat (length ids))
  /\ (forall u,
        (exists r, In r df /\ holds condition r = true
                   /\ TRT01A r = Some t) ->
        (forall r, In r df -> holds condition r = true ->
                   TRT01A r = Some t -> USUBJID r = u) ->
        n = 1%N).
Proof.
  rewrite count_participants_rows. intros Hin.
  apply in_map_iff in Hin. destruct Hin as (level & [= -> <-] & _).
  simpl.
  destruct (n_unique_spec
              (map USUBJID
                   (filter (fun r => eqb (TRT01A r) (Some t))
                           (selected df condition))))
    as (ids & Hnd & Hids & Hn).
  assert (Hmem : forall u, In u ids <->
                 exists r, In r df /\ holds condition r = true
                           /\ TRT01A r = Some t /\ USUBJID r = u).
  { intros u. rewrite Hids, in_map_iff. split.
    - intros (r & Hu & Hr). apply filter_In in Hr. destruct Hr as [Hr Ht].
      apply selected_In in Hr. apply eqb_true_iff in Ht.
      exists r. tauto.
    - intros (r & Hr & Hc & Ht & Hu). exists r. split; [assumption|].
      apply filter_In. split; [apply selected_In; auto|].
      apply eqb_true_iff. assumption. }
  split.
  - exists ids. auto.
  - intros u (r & Hr & Hc & Ht) Hall. rewrite Hn.
    assert (Hu : In u ids).
    { apply Hmem. exists r. repeat split; auto. }
    assert (Honly : forall x, In x ids -> x = u).
    { intros x Hx. apply Hmem in Hx.
      destruct Hx as (r' & Hr' & Hc' & Ht' & <-). auto. }
    destruct ids as [|x ids]; [destruct Hu|].
    destruct ids as [|y ids]; [reflexivity|].
    exfalso. inversion Hnd as [|? ? Hnotin _]; subst. apply Hnotin.
    rewrite (Honly x), <- (Honly y); simpl; auto.
Qed.

Lemma C5_witness :
  In (Some "Drug", 2%N)
     (count_participants sample.adae [Some "Placebo"; Some "Drug"] None)
  /\ exists ids : list (option string),
      NoDup ids
      /\ (forall u, In u ids <->
                    exists r, In r sample.adae /\ holds None r = true
                              /\ TRT01A r = Some "Drug" /\ USUBJID r = u)
      /\ 2%N = N.of_nat (length ids).
Proof.
  assert (Hin : In (Some "Drug", 2%N)
                   (count_participants sample.adae
                                       [Some "Placebo"; Some "Drug"] None))
    by (vm_compute; auto).
  split; [exact Hin|].
  exact (proj1 (C5_count_participants_distinct_subjects
                  sample.adae [Some "Placebo"; Some "Drug"] None
                  "Drug" 2%N Hin)).
Defined.

End CountParticipantsProperties.

(* ================================================================== *)
(** ** Loops in the result monad *)

Section Loops.
Context {A B : Type}.

Lemma mapM_Forall2 (f : A -> Result B) (l : list A) (bs : list B) :
  mapM f l = Ok bs <-> Forall2 (fun a b => f a = Ok b) l bs.
Proof.
  revert bs. induction l as [|a l IH]; intros bs; simpl.
  - split.
    + intros [= <-]. constructor.
    + intros Hf. inversion Hf. reflexivity.
  - split.
    + destruct (f a) as [b|e] eqn:Hfa; simpl; [|discriminate].
      destruct (mapM f l) as [bs'|e] eqn:Hm; simpl; [|discriminate].
      intros [= <-]. constructor; [assumption|]. apply IH. reflexivity.
    + intros Hf. inversion Hf as [|? b ? bs' Hfa Hrest]; subst.
      rewrite Hfa. simpl. apply IH in Hrest. rewrite Hrest. reflexivity.
Qed.

Lemma mapM_length (f : A -> Result B) (l : list A) (bs : list B) :
  mapM f l = Ok bs -> length bs = length l.
Proof.
  intros Hm. apply mapM_Forall2 in Hm.
  symmetry. eapply Forall2_length. eassumption.
Qed.

Lemma mapM_nth (f : A -> Result B) (l : list A) (bs : list B)
    (j : nat) (a : A) :
  mapM f l = Ok bs -> nth_error l j = Some a ->
  exists b, nth_error bs j = Some b /\ f a = Ok b.
Proof.
  intros Hm. apply mapM_Forall2 in Hm. revert j.
  induction Hm as [|a' b' l' bs' Hab _ IH]; intros [|j]; simpl;
    try discriminate.
  - intros [= ->]. eauto.
  - apply IH.
Qed.

Lemma mapM_In (f : A -> Result B) (l : list A) (bs : list B) (b : B) :
  mapM f l = Ok bs -> In b bs -> exists a, In a l /\ f a = Ok b.
Proof.
  intros Hm. apply mapM_Forall2 in Hm.
  induction Hm as [|a' b' l' bs' Hab _ IH]; simpl; [tauto|].
  intros [<- | Hin]; [eauto|].
  destruct (IH Hin) as (a & Ha & Hfa). eauto.
Qed.

(** A loop whose body appends a block of rows to the accumulator
    appends the blocks in order. *)
Lemma for_each_blocks (body : list B -> A -> Result (list B))
    (block : A -> Result (list B)) (l : list A) (acc : list B) :
  (forall acc a, body acc a = (b <- block a ;; Ok (acc ++ b))) ->
  for_each l body acc = (bs <- mapM block l ;; Ok (acc ++ concat bs)).
Proof.
  intros Hbody. revert acc.
  induction l as [|a l IH]; intros acc; simpl.
  - rewrite app_nil_r. reflexivity.
  - rewrite Hbody. destruct (block a) as [b|e]; simpl; [|reflexivity].
    rewrite IH. destruct (mapM block l) as [bs|e]; simpl; [|reflexivity].
    rewrite app_assoc. reflexivity.
Qed.

End Loops.

(** The row at offset [k] of the [i]-th block, when every block before
    it has [w] rows. *)
Lemma nth_error_blocks {A B} (block : A -> Result (list B)) (w : nat)
    (l : list A) (bs : list (list B)) (rest : list B) :
  (forall a b, block a = Ok b -> length b = w) ->
  mapM block l = Ok bs ->
  forall i a k, nth_error l i = Some a -> (k < w)%nat ->
  exists b, block a = Ok b
            /\ nth_error (concat bs ++ rest) (w * i + k) = nth_error b k.
Proof.
  intros Hw Hm. apply mapM_Forall2 in Hm.
  induction Hm as [|a' b' l' bs' Hab _ IH]; intros [|i] a k; simpl;
    try discriminate.
  - intros [= ->] Hk. exists b'. split; [assumption|].
    rewrite Nat.mul_0_r. simpl.
    rewrite <- app_assoc. apply nth_error_app1.
    rewrite (Hw _ _ Hab). assumption.
  - intros Ha Hk. destruct (IH i a k Ha Hk) as (b & Hb & Hnth).
    exists b. split; [assumption|].
    rewrite <- app_assoc, nth_error_app2 by (rewrite (Hw _ _ Hab); lia).
    rewrite (Hw _ _ Hab), <- Hnth. f_equal. lia.
Qed.

(* ================================================================== *)
(** ** Characters of the display strings *)

Lemma chars_append (a b : string) : chars (a +++ b) = chars a ++ chars b.
Proof. induction a as [|c a IH]; simpl; congruence. Qed.

Lemma prefix_chars (a b : string) (c : ascii) :
  String.prefix a b = true -> In c (chars a) -> In c (chars b).
Proof.
  revert b. induction a as [|x a IH]; intros b; [simpl; tauto|].
  destruct b as [|y b]; simpl; [discriminate|].
  destruct (Ascii.ascii_dec x y) as [->|]; [|discriminate].
  intros Hp [<- | Hin]; auto.
Qed.

Lemma uint_no_percent (d : Decimal.uint) :
  ~ In percent (chars (NilEmpty.string_of_uint d)).
Proof.
  unfold percent.
  induction d; simpl; [tauto | intros [Hc | Hin]; [discriminate | auto] ..].
Qed.

Lemma str_N_no_percent (n : N) : ~ In percent (chars (Py.str_N n)).
Proof.
  unfold Py.str_N, NilZero.string_of_uint.
  destruct (N.to_uint n) eqn:Hd; try (rewrite <- Hd; apply uint_no_percent).
  unfold percent. simpl. intros [Hc | []]. discriminate.
Qed.

Lemma str_Z_no_percent (z : Z) : ~ In percent (chars (Py.str_Z z)).
Proof.
  unfold Py.str_Z, NilZero.string_of_int.
  assert (Hu : forall d, ~ In percent (chars (NilZero.string_of_uint d))).
  { intros d. unfold NilZero.string_of_uint.
    destruct d eqn:Hd; try (rewrite <- Hd; apply uint_no_percent).
    unfold percent. simpl. intros [Hc | []]. discriminate. }
  destruct (Z.to_int z) as [d|d]; [apply Hu|].
  simpl. intros [Hc | Hin]; [unfold percent in Hc; discriminate | exact (Hu d Hin)].
Qed.

Lemma str_float_no_percent (x : Polars.float) :
  ~ In percent (chars (Polars.str_float x)).
Proof.
  destruct x as [| |neg h]; simpl.
  - unfold percent. intros [Hc | [Hc | [Hc | []]]]; discriminate.
  - unfold percent. intros [Hc | [Hc | [Hc | []]]]; discriminate.
  - rewrite !chars_append, !in_app_iff. unfold Polars.digit.
    cbn [chars In]. rewrite chars_append, in_app_iff.
    intros [Hs | [Hi | [Hd | [Hd1 | Hd2]]]].
    + unfold percent in Hs.
      destruct neg; simpl in Hs; [destruct Hs as [Hc | []]; discriminate | tauto].
    + exact (str_N_no_percent _ Hi).
    + unfold percent in Hd. discriminate.
    + exact (str_N_no_percent _ Hd1).
    + destruct (h mod 10 =? 0)%N; [destruct Hd2 | exact (str_N_no_percent _ Hd2)].
Qed.

Lemma append_no_percent (a b : string) :
  ~ In percent (chars a) -> ~ In percent (chars b) ->
  ~ In percent (chars (a +++ b)).
Proof. rewrite chars_append, in_app_iff. tauto. Qed.

Lemma cons_no_percent (c : ascii) (s : string) :
  c <> percent -> ~ In percent (chars s) ->
  ~ In percent (chars (String c s)).
Proof. simpl. intuition congruence. Qed.

(** Display strings are built from numbers and punctuation. *)
Ltac no_percent :=
  repeat first
    [ apply str_float_no_percent
    | apply str_N_no_percent
    | apply str_Z_no_percent
    | apply append_no_percent
    | apply cons_no_percent; [unfold percent; discriminate|]
    | solve [unfold percent; simpl; intuition discriminate] ].

(** [replace] of the sentinel leaves a text without a percent sign as
    it is. *)
Lemma replace_no_percent (s new : string) :
  ~ In percent (chars s) -> Py.replace s baseline.sentinel new = s.
Proof.
  unfold Py.replace. induction s as [|c s IH]; intros Hno; [reflexivity|].
  cbn [Py.replace_from].
  destruct (String.prefix baseline.sentinel (String c s)) eqn:Hp.
  - exfalso. apply Hno. apply (prefix_chars _ _ _ Hp).
    vm_compute. tauto.
  - f_equal. apply IH. intros Hin. apply Hno. right. assumption.
Qed.

(* ================================================================== *)
(** ** Polars.DataFrame *)

Lemma DataFrame_inv (rows : list (list Polars.Cell)) (schema : list string)
    (tbl : Polars.Table) :
  Polars.DataFrame rows schema = Ok tbl ->
  Polars.body tbl = rows
  /\ Polars.header tbl = Polars.column_names schema
  /\ (forall row, In row rows -> length row = length schema).
Proof.
  unfold Polars.DataFrame.
  destruct (forallb _ rows) eqn:Hall; [|discriminate].
  destruct (Polars.first_duplicate _); [discriminate|].
  intros [= <-]. simpl. repeat split.
  intros row Hrow. rewrite forallb_forall in Hall.
  apply Nat.eqb_eq. apply Hall. assumption.
Qed.

Lemma DataFrame_shape_error (rows : list (list Polars.Cell))
    (schema : list string) (row : list Polars.Cell) :
  In row rows -> length row <> length schema ->
  Polars.DataFrame rows schema = Raise ShapeError.
Proof.
  intros Hrow Hlen. unfold Polars.DataFrame.
  destruct (forallb _ rows) eqn:Hall; [|reflexivity].
  exfalso. rewrite forallb_forall in Hall.
  apply Hlen. apply Nat.eqb_eq. apply Hall. assumption.
Qed.

(** A schema without an empty name keeps its names. *)
Lemma column_names_from_id (i : N) (schema : list string) :
  ~ In "" schema -> Polars.column_names_from i schema = schema.
Proof.
  revert i. induction schema as [|col rest IH]; intros i Hno; simpl;
    [reflexivity|].
  destruct (eqb_spec col "") as [->|_].
  - exfalso. apply Hno. left. reflexivity.
  - f_equal. apply IH. intros Hin. apply Hno. right. assumption.
Qed.

(* ================================================================== *)
(** ** baseline.create_baseline_table *)

Section BaselineTable.
Import baseline.
Context {E : Polars.Engine}.
Variable adsl : SubjectFrame.
Variable treatments : list string.

Lemma process_continuous_block (acc : list (list Polars.Cell))
    (var : string) :
  process_continuous adsl treatments acc var
  = (b <- continuous_block adsl treatments var ;; Ok (acc ++ b)).
Proof.
  unfold continuous_block, process_continuous.
  destruct (summarize_continuous adsl var) as [stats|e]; simpl;
    [|reflexivity].
  destruct (mapM _ treatments) as [mean_cells|e]; simpl; [|reflexivity].
  destruct (mapM _ treatments) as [median_cells|e]; simpl; [|reflexivity].
  rewrite <- !app_assoc. reflexivity.
Qed.

Lemma process_categorical_block (acc : list (list Polars.Cell))
    (var : string) :
  process_categorical adsl treatments acc var
  = (b <- categorical_block adsl treatments var ;; Ok (acc ++ b)).
Proof.
  unfold categorical_block, process_categorical.
  destruct (summarize_categorical adsl var) as [stats|e]; simpl;
    [|reflexivity].
  destruct (column adsl var) as [series|e]; simpl; [|reflexivity].
  rewrite <- !app_assoc. reflexivity.
Qed.

(** The three rows of a continuous block. *)
Lemma continuous_block_inv (var : string) (b : list (list Polars.Cell)) :
  continuous_block adsl treatments var = Ok b ->
  exists stats mean_cells median_cells,
    summarize_continuous adsl var = Ok stats
    /\ mapM (fun trt =>
               Py.replace_method
                 (get_value (mean_sd_frame (format_continuous_stats stats))
                            trt)
                 sentinel "")
            treatments = Ok mean_cells
    /\ mapM (fun trt =>
               Py.replace_method
                 (get_value
                    (median_range_frame (format_continuous_stats stats))
                    trt)
                 sentinel "")
            treatments = Ok median_cells
    /\ b = [ header_row (continuous_label var);
             Some "  Mean (SD)" :: map Some mean_cells;
             Some "  Median [Min, Max]" :: map Some median_cells ].
Proof.
  unfold continuous_block, process_continuous, mean_sd_frame,
    median_range_frame.
  destruct (summarize_continuous adsl var) as [stats|e]; simpl;
    [|discriminate].
  match goal with
  | |- bind (mapM ?f treatments) _ = _ -> _ =>
      destruct (mapM f treatments) as [mean_cells|e] eqn:Hmean; simpl;
        [|discriminate]
  end.
  match goal with
  | |- bind (mapM ?f treatments) _ = _ -> _ =>
      destruct (mapM f treatments) as [median_cells|e] eqn:Hmedian; simpl;
        [|discriminate]
  end.
  intros [= <-]. exists stats, mean_cells, median_cells. auto.
Qed.

Lemma continuous_block_length (var : string) (b : list (list Polars.Cell)) :
  continuous_block adsl treatments var = Ok b -> length b = 3%nat.
Proof.
  intros Hb. apply continuous_block_inv in Hb.
  destruct Hb as (? & ? & ? & _ & _ & _ & ->). reflexivity.
Qed.

(** The rows of a categorical block: the header, then one row per
    category kept by the inner loop. *)
Lemma categorical_block_inv (var : string) (b : list (list Polars.Cell)) :
  categorical_block adsl treatments var = Ok b ->
  exists series stats,
    column adsl var = Ok series
    /\ summarize_categorical adsl var = Ok stats
    /\ b = header_row (Py.title var)
             :: map (category_row (format_categorical_stats stats)
                                  treatments)
                    (filter (in_formatted (format_categorical_stats stats))
                            (categories_of series)).
Proof.
  unfold categorical_block, process_categorical.
  destruct (summarize_categorical adsl var) as [stats|e]; simpl;
    [|discriminate].
  destruct (column adsl var) as [series|e]; simpl; [|discriminate].
  intros [= <-]. exists series, stats. auto.
Qed.

Variables continuous_vars categorical_vars : list string.

Lemma baseline_rows_blocks (rows : list (list Polars.Cell)) :
  baseline_rows adsl continuous_vars categorical_vars treatments = Ok rows ->
  exists cblocks gblocks,
    mapM (continuous_block adsl treatments) continuous_vars = Ok cblocks
    /\ mapM (categorical_block adsl treatments) categorical_vars
       = Ok gblocks
    /\ rows = concat cblocks ++ concat gblocks.
Proof.
  unfold baseline_rows.
  rewrite (for_each_blocks _ (continuous_block adsl treatments))
    by apply process_continuous_block.
  destruct (mapM _ continuous_vars) as [cblocks|e]; simpl; [|discriminate].
  rewrite (for_each_blocks _ (categorical_block adsl treatments))
    by apply process_categorical_block.
  destruct (mapM _ categorical_vars) as [gblocks|e]; simpl; [|discriminate].
  intros [= <-]. exists cblocks, gblocks. auto.
Qed.

Lemma create_baseline_table_rows :
  create_baseline_table adsl continuous_vars categorical_vars treatments
  = (rows <- baseline_rows adsl continuous_vars categorical_vars treatments ;;
     Polars.DataFrame rows ("Characteristic" :: treatments)).
Proof.
  unfold create_baseline_table, baseline_rows.
  destruct (for_each continuous_vars _ _); reflexivity.
Qed.

(** With a variable to process, the rows start with a header row. *)
Lemma baseline_rows_header (rows : list (list Polars.Cell)) :
  continuous_vars ++ categorical_vars <> [] ->
  baseline_rows adsl continuous_vars categorical_vars treatments = Ok rows ->
  exists label, In (header_row label) rows.
Proof.
  intros Hvars Hrows. apply baseline_rows_blocks in Hrows.
  destruct Hrows as (cblocks & gblocks & Hc & Hg & ->).
  destruct continuous_vars as [|var vars].
  - destruct categorical_vars as [|var vars]; [contradiction|].
    simpl in Hc. injection Hc as <-. simpl in Hg.
    destruct (categorical_block adsl treatments var) as [b|e] eqn:Hb;
      simpl in Hg; [|discriminate].
    destruct (mapM _ vars) as [bs|e]; simpl in Hg; [|discriminate].
    injection Hg as <-.
    apply categorical_block_inv in Hb.
    destruct Hb as (? & ? & _ & _ & ->).
    exists (Py.title var). simpl. auto.
  - simpl in Hc.
    destruct (continuous_block adsl treatments var) as [b|e] eqn:Hb;
      simpl in Hc; [|discriminate].
    destruct (mapM _ vars) as [bs|e]; simpl in Hc; [|discriminate].
    injection Hc as <-.
    apply continuous_block_inv in Hb.
    destruct Hb as (? & ? & ? & _ & _ & _ & ->).
    exists (continuous_label var). simpl. auto.
Qed.

Lemma create_baseline_table_inv (tbl : Polars.Table) :
  create_baseline_table adsl continuous_vars categorical_vars treatments
  = Ok tbl ->
  baseline_rows adsl continuous_vars categorical_vars treatments
  = Ok (Polars.body tbl)
  /\ Polars.header tbl = Polars.column_names ("Characteristic" :: treatments)
  /\ (forall row, In row (Polars.body tbl) ->
                  length row = S (length treatments)).
Proof.
  rewrite create_baseline_table_rows.
  destruct (baseline_rows _ _ _ _) as [rows|e]; simpl; [|discriminate].
  intros Hdf. apply DataFrame_inv in Hdf.
  destruct Hdf as (-> & Hh & Hlen). auto.
Qed.

Lemma baseline_three_treatments (tbl : Polars.Table) :
  continuous_vars ++ categorical_vars <> [] ->
  create_baseline_table adsl continuous_vars categorical_vars treatments
  = Ok tbl ->
  length treatments = 3%nat.
Proof.
  intros Hvars Htbl. apply create_baseline_table_inv in Htbl.
  destruct Htbl as (Hrows & _ & Hlen).
  destruct (baseline_rows_header Hvars Hrows) as [label Hin].
  specialize (Hlen _ Hin). simpl in Hlen. lia.
Qed.

End BaselineTable.

(** C10.  With a variable to process, [create_baseline_table] returns a
    table only for three treatments: every variable header row has the
    label and three blank cells, and when the rows are built for any
    other number of treatments the frame constructor raises the
    shape error. *)
Theorem C10_baseline_table_needs_three_treatments {E : Polars.Engine}
    (adsl : baseline.SubjectFrame)
    (continuous_vars categorical_vars treatments : list string) :
  continuous_vars ++ categorical_vars <> [] ->
  (forall tbl,
      baseline.create_baseline_table adsl continuous_vars categorical_vars
                                     treatments = Ok tbl ->
      length treatments = 3%nat)
  /\ (length treatments <> 3%nat ->
      exists e,
        baseline.create_baseline_table adsl continuous_vars categorical_vars
                                       treatments = Raise e)
  /\ (length treatments <> 3%nat ->
      forall rows,
        baseline_rows adsl continuous_vars categorical_vars treatments
        = Ok rows ->
        (exists label, In [Some label; Some ""; Some ""; Some ""] rows)
        /\ baseline.create_baseline_table adsl continuous_vars
                                          categorical_vars treatments
           = Raise ShapeError).
Proof.
  intros Hvars. split; [|split].
  - intros tbl Htbl. eapply baseline_three_treatments; eassumption.
  - intros Hlen.
    destruct (baseline.create_baseline_table adsl continuous_vars
                categorical_vars treatments) as [tbl|e] eqn:Htbl; [|eauto].
    exfalso. apply Hlen. eapply baseline_three_treatments; eassumption.
  - intros Hlen rows Hrows.
    destruct (baseline_rows_header _ _ _ _ Hvars Hrows) as [label Hin].
    split; [exists label; exact Hin|].
    rewrite create_baseline_table_rows, Hrows. simpl.
    apply (DataFrame_shape_error _ _ _ Hin). simpl. lia.
Qed.

Lemma C10_witness :
  ["AGE"] ++ ["SEX"] <> []
  /\ baseline.create_baseline_table (E := Polars.left_order) sample.adsl ["AGE"] ["SEX"]
                                    ["Placebo"; "Drug"]
     = Raise ShapeError.
Proof.
  assert (Hvars : ["AGE"] ++ ["SEX"] <> []) by discriminate.
  split; [exact Hvars|].
  refine (proj2 (proj2 (proj2 (C10_baseline_table_needs_three_treatments
                                 sample.adsl ["AGE"] ["SEX"]
                                 ["Placebo"; "Drug"] Hvars))
                       _ _ eq_refl)).
  simpl. lia.
Defined.

(* ================================================================== *)
(** ** baseline.get_value and the cells of the continuous block *)

Section GetValue.
Import baseline.

Lemma get_value_absent (df : list (option string * option string))
    (treatment : string) :
  (forall r, In r df -> fst r <> Some treatment) ->
  get_value df treatment = Some sentinel.
Proof.
  intros Hno. unfold get_value.
  replace (filter _ df) with (@nil (option string * option string));
    [reflexivity|].
  symmetry. apply filter_nil_iff. intros r Hr.
  destruct (Polars.eq_lit (fst r) treatment) eqn:He; [|reflexivity].
  apply eq_lit_true_iff in He. exfalso. exact (Hno r Hr He).
Qed.

Lemma get_value_cases (df : list (option string * option string))
    (treatment : string) :
  get_value df treatment = Some sentinel
  \/ exists r, In r df /\ fst r = Some treatment
               /\ get_value df treatment = snd r.
Proof.
  unfold get_value.
  destruct (filter _ df) as [|r rest] eqn:Hf; [left; reflexivity|].
  right. exists r.
  assert (Hin : In r (filter (fun r => Polars.eq_lit (fst r) treatment) df))
    by (rewrite Hf; left; reflexivity).
  apply filter_In in Hin. destruct Hin as [Hin He].
  apply eq_lit_true_iff in He. auto.
Qed.

(** The groups of [summarize_continuous] are treatment cells of the
    frame. *)
Lemma summarize_continuous_groups (adsl : SubjectFrame) (var : string)
    (stats : list ContinuousStats) (s : ContinuousStats) :
  summarize_continuous adsl var = Ok stats -> In s stats ->
  In (cs_TRT01P s) (TRT01P adsl).
Proof.
  unfold summarize_continuous.
  destruct (column adsl var) as [[cells|cells]|e]; simpl; try discriminate.
  intros [= <-] Hin. apply in_map_iff in Hin.
  destruct Hin as ([k rows] & <- & Hg). simpl.
  apply group_by_In in Hg. destruct Hg as [Hk _].
  apply in_map_iff in Hk. destruct Hk as ([t c] & <- & Htc).
  simpl. eapply in_combine_l. eassumption.
Qed.

Lemma format_mean_sd_no_percent (mean sd : option Polars.float) (s : string) :
  format_mean_sd mean sd = Some s -> ~ In percent (chars s).
Proof.
  destruct mean as [m|], sd as [d|]; simpl; try discriminate.
  intros [= <-]. no_percent.
Qed.

Lemma format_median_range_no_percent (median : option Polars.float)
    (min max : option Z) (s : string) :
  format_median_range median min max = Some s -> ~ In percent (chars s).
Proof.
  destruct median as [m|], min as [lo|], max as [hi|]; simpl;
    try discriminate.
  intros [= <-]. no_percent.
Qed.

Lemma sentinel_has_percent : In percent (chars sentinel).
Proof. vm_compute. tauto. Qed.

(** A cell of a statistic row: the looked-up text with the sentinel
    blanked.  When every text of the frame is free of percent signs, the
    cell is never the sentinel. *)
Lemma blanked_cell (df : list (option string * option string))
    (treatment cell : string) :
  (forall r s, In r df -> snd r = Some s -> ~ In percent (chars s)) ->
  Py.replace_method (get_value df treatment) sentinel "" = Ok cell ->
  cell <> sentinel
  /\ (get_value df treatment = Some sentinel -> cell = "").
Proof.
  intros Hdf Hcell. split.
  - destruct (get_value_cases df treatment) as [Hs | (r & Hr & _ & Hv)].
    + rewrite Hs in Hcell. vm_compute in Hcell. injection Hcell as <-.
      discriminate.
    + rewrite Hv in Hcell. destruct (snd r) as [s|] eqn:Hsnd;
        simpl in Hcell; [|discriminate].
      injection Hcell as <-.
      pose proof (Hdf r s Hr Hsnd) as Hno.
      rewrite (@replace_no_percent s "" Hno).
      intros ->. exact (Hno sentinel_has_percent).
  - intros Hs. rewrite Hs in Hcell. vm_compute in Hcell.
    injection Hcell as <-. reflexivity.
Qed.

End GetValue.

(** C7.  In a baseline table, the rows of the [i]-th continuous
    variable are, in order, a header row with blank treatment cells, the
    [Mean (SD)] row and the [Median [Min, Max]] row; in the two
    statistic rows the cell of a treatment without subjects is the empty
    text, and no cell is the sentinel ["0 (0.0%)"]. *)
Theorem C7_continuous_block_rows {E : Polars.Engine}
    (adsl : baseline.SubjectFrame)
    (continuous_vars categorical_vars treatments : list string)
    (tbl : Polars.Table) (i : nat) (var : string) :
  baseline.create_baseline_table adsl continuous_vars categorical_vars
                                 treatments = Ok tbl ->
  nth_error continuous_vars i = Some var ->
  exists mean_cells median_cells : list string,
    nth_error (Polars.body tbl) (3 * i)
    = Some (Some (baseline.continuous_label var)
              :: repeat (Some "") (length treatments))
    /\ nth_error (Polars.body tbl) (3 * i + 1)
       = Some (Some "  Mean (SD)" :: map Some mean_cells)
    /\ nth_error (Polars.body tbl) (3 * i + 2)
       = Some (Some "  Median [Min, Max]" :: map Some median_cells)
    /\ length mean_cells = length treatments
    /\ length median_cells = length treatments
    /\ (forall j trt,
          nth_error treatments j = Some trt ->
          ~ In (Some trt) (baseline.TRT01P adsl) ->
          nth_error mean_cells j = Some ""
          /\ nth_error median_cells j = Some "")
    /\ (forall cell,
          In cell mean_cells \/ In cell median_cells ->
          cell <> baseline.sentinel).
Proof.
  intros Htbl Hvar.
  assert (Hthree : length treatments = 3%nat).
  { eapply baseline_three_treatments; [|eassumption].
    destruct continuous_vars; [destruct i; discriminate | discriminate]. }
  apply create_baseline_table_inv in Htbl. destruct Htbl as (Hrows & _ & _).
  apply baseline_rows_blocks in Hrows.
  destruct Hrows as (cblocks & gblocks & Hc & _ & ->).
  pose proof (@nth_error_blocks _ _ (continuous_block adsl treatments) 3
                _ _ (concat gblocks)
                (@continuous_block_length adsl treatments) Hc)
    as Hnth.
  destruct (Hnth i var 0%nat Hvar ltac:(lia)) as (b & Hb & H0).
  destruct (Hnth i var 1%nat Hvar ltac:(lia)) as (b1 & Hb1 & H1).
  destruct (Hnth i var 2%nat Hvar ltac:(lia)) as (b2 & Hb2 & H2).
  rewrite Hb in Hb1, Hb2. injection Hb1 as <-. injection Hb2 as <-.
  rewrite Nat.add_0_r in H0.
  apply continuous_block_inv in Hb.
  destruct Hb as (stats & mean_cells & median_cells & Hstats & Hmean
                  & Hmedian & ->).
  exists mean_cells, median_cells.
  assert (Hfree_mean :
            forall r s, In r (mean_sd_frame
                                (baseline.format_continuous_stats stats)) ->
                        snd r = Some s -> ~ In percent (chars s)).
  { intros r s Hr Hs. apply in_map_iff in Hr. destruct Hr as (f & <- & Hf).
    apply in_map_iff in Hf. destruct Hf as (c & <- & _).
    simpl in Hs. eapply format_mean_sd_no_percent. eassumption. }
  assert (Hfree_median :
            forall r s, In r (median_range_frame
                                (baseline.format_continuous_stats stats)) ->
                        snd r = Some s -> ~ In percent (chars s)).
  { intros r s Hr Hs. apply in_map_iff in Hr. destruct Hr as (f & <- & Hf).
    apply in_map_iff in Hf. destruct Hf as (c & <- & _).
    simpl in Hs. eapply format_median_range_no_percent. eassumption. }
  assert (Habsent :
            forall trt, ~ In (Some trt) (baseline.TRT01P adsl) ->
                        forall r, In r (baseline.format_continuous_stats stats) ->
                                  baseline.cf_TRT01P r <> Some trt).
  { intros trt Hno r Hr Heq. apply Hno.
    apply in_map_iff in Hr. destruct Hr as (c & <- & Hc').
    simpl in Heq. rewrite <- Heq.
    eapply summarize_continuous_groups; eassumption. }
  rewrite H0, H1, H2. simpl.
  split; [unfold baseline.header_row; rewrite Hthree; reflexivity|].
  split; [reflexivity|]. split; [reflexivity|].
  split; [eapply mapM_length; eassumption|].
  split; [eapply mapM_length; eassumption|].
  split.
  - intros j trt Hj Hno.
    assert (Hsent_mean :
              baseline.get_value
                (mean_sd_frame (baseline.format_continuous_stats stats)) trt
              = Some baseline.sentinel).
    { apply get_value_absent.
      intros r Hr. apply in_map_iff in Hr. destruct Hr as (f & <- & Hf).
      simpl. eapply Habsent; eassumption. }
    assert (Hsent_median :
              baseline.get_value
                (median_range_frame (baseline.format_continuous_stats stats))
                trt
              = Some baseline.sentinel).
    { apply get_value_absent.
      intros r Hr. apply in_map_iff in Hr. destruct Hr as (f & <- & Hf).
      simpl. eapply Habsent; eassumption. }
    destruct (@mapM_nth _ _ _ _ _ j trt Hmean Hj) as (cell & Hcell & Hrep).
    destruct (@mapM_nth _ _ _ _ _ j trt Hmedian Hj)
      as (cell' & Hcell' & Hrep').
    rewrite Hcell, Hcell'.
    apply (@blanked_cell _ _ _ Hfree_mean) in Hrep.
    apply (@blanked_cell _ _ _ Hfree_median) in Hrep'.
    destruct Hrep as [_ Hblank], Hrep' as [_ Hblank'].
    rewrite (Hblank Hsent_mean), (Hblank' Hsent_median). auto.
  - intros cell [Hin | Hin].
    + destruct (@mapM_In _ _ _ _ _ cell Hmean Hin) as (trt & _ & Hrep).
      apply (@blanked_cell _ _ _ Hfree_mean) in Hrep. tauto.
    + destruct (@mapM_In _ _ _ _ _ cell Hmedian Hin) as (trt & _ & Hrep).
      apply (@blanked_cell _ _ _ Hfree_median) in Hrep. tauto.
Qed.

Lemma C7_witness :
  baseline.create_baseline_table (E := Polars.left_order) sample.adsl ["AGE"] ["SEX"]
                                 ["Placebo"; "Drug"; "Other"]
  = Ok sample.baseline_table_other
  /\ nth_error ["AGE"] 0 = Some "AGE"
  /\ exists mean_cells median_cells : list string,
      nth_error (Polars.body sample.baseline_table_other) 1
      = Some (Some "  Mean (SD)" :: map Some mean_cells)
      /\ nth_error (Polars.body sample.baseline_table_other) 2
         = Some (Some "  Median [Min, Max]" :: map Some median_cells)
      /\ nth_error mean_cells 2 = Some ""
      /\ nth_error median_cells 2 = Some "".
Proof.
  assert (Htbl : baseline.create_baseline_table (E := Polars.left_order)
                   sample.adsl ["AGE"] ["SEX"] ["Placebo"; "Drug"; "Other"]
                 = Ok sample.baseline_table_other) by reflexivity.
  assert (Hvar : nth_error ["AGE"] 0 = Some "AGE") by reflexivity.
  split; [exact Htbl|]. split; [exact Hvar|].
  destruct (C7_continuous_block_rows _ _ _ _ _ Htbl Hvar)
    as (mean_cells & median_cells & _ & Hmean & Hmedian & _ & _ & Hblank & _).
  exists mean_cells, median_cells.
  split; [exact Hmean|]. split; [exact Hmedian|].
  apply (Hblank 2%nat "Other"); [reflexivity|].
  simpl. intuition discriminate.
Defined.

(* ================================================================== *)
(** ** The categorical block *)

Section CategoricalBlock.
Import baseline.

Lemma in_formatted_iff (var_formatted : list CategoricalFormatted)
    (category : string) :
  in_formatted var_formatted category = true
  <-> exists r, In r var_formatted /\ cg_var r = Some category.
Proof.
  unfold in_formatted. rewrite existsb_exists. split.
  - intros (v & Hv & Heq). apply eqb_true_iff in Heq. subst v.
    rewrite unique_In in Hv. apply in_map_iff in Hv.
    destruct Hv as (r & Hr & Hin). eauto.
  - intros (r & Hin & Hr). exists (Some category). split.
    + rewrite unique_In, <- Hr. apply in_map. assumption.
    + apply eqb_refl.
Qed.

(** The categories that get a row: distinct, those of the column that
    the formatted statistics hold, in the order of their first
    occurrences in the column. *)
Lemma kept_categories (series : Series)
    (var_formatted : list CategoricalFormatted) :
  let cats := filter (in_formatted var_formatted) (categories_of series) in
  NoDup cats
  /\ (forall c, In c cats <->
                In (Some c) (category_cells series)
                /\ exists r, In r var_formatted /\ cg_var r = Some c)
  /\ (forall c1 c2, before c1 c2 cats ->
        exists i j,
          first_index (Some c1) (category_cells series) = Some i
          /\ first_index (Some c2) (category_cells series) = Some j
          /\ (i < j)%nat).
Proof.
  unfold categories_of. simpl. split; [|split].
  - apply NoDup_filter, NoDup_drop_nulls, unique_NoDup.
  - intros c. rewrite filter_In, In_drop_nulls, unique_In, in_formatted_iff.
    tauto.
  - intros c1 c2 Hb. apply before_filter in Hb.
    apply before_drop_nulls in Hb. apply unique_before in Hb. assumption.
Qed.

End CategoricalBlock.

(** The rows of the [i]-th block lie, together, in the concatenation. *)
Lemma mapM_block_split {A B} (block : A -> Result (list B)) (l : list A)
    (bs : list (list B)) (i : nat) (a : A) :
  mapM block l = Ok bs -> nth_error l i = Some a ->
  exists b pre post, block a = Ok b /\ concat bs = pre ++ b ++ post.
Proof.
  intros Hm. apply mapM_Forall2 in Hm. revert i.
  induction Hm as [|a' b' l' bs' Hab _ IH]; intros [|i]; simpl;
    try discriminate.
  - intros [= ->]. exists b', [], (concat bs'). auto.
  - intros Ha. destruct (IH i Ha) as (b & pre & post & Hb & ->).
    exists b, (b' ++ pre), post. rewrite <- app_assoc. auto.
Qed.

(** C6.  In a baseline table, the block of the [i]-th categorical
    variable is its header row followed by one row per category; the
    categories are distinct and in the order of their first occurrences
    in the column of the source frame, and a category has a row exactly
    when it occurs in the column and the formatted statistics hold it
    for some group. *)
Theorem C6_category_rows_in_first_occurrence_order {E : Polars.Engine}
    (adsl : baseline.SubjectFrame)
    (continuous_vars categorical_vars treatments : list string)
    (tbl : Polars.Table) (i : nat) (var : string) :
  baseline.create_baseline_table adsl continuous_vars categorical_vars
                                 treatments = Ok tbl ->
  nth_error categorical_vars i = Some var ->
  exists series stats cats rows rows_before rows_after,
    baseline.column adsl var = Ok series
    /\ baseline.summarize_categorical adsl var = Ok stats
    /\ Polars.body tbl
       = rows_before ++ (baseline.header_row (Py.title var) :: rows)
           ++ rows_after
    /\ rows = map (baseline.category_row
                     (baseline.format_categorical_stats stats) treatments)
                  cats
    /\ map (hd None) rows = map (fun c => Some ("  " +++ c)) cats
    /\ NoDup cats
    /\ (forall c,
          In c cats <->
          In (Some c) (baseline.category_cells series)
          /\ exists r,
               In r (baseline.format_categorical_stats stats)
               /\ baseline.cg_var r = Some c)
    /\ (forall c1 c2,
          before c1 c2 cats ->
          exists p q,
            first_index (Some c1) (baseline.category_cells series) = Some p
            /\ first_index (Some c2) (baseline.category_cells series)
               = Some q
            /\ (p < q)%nat).
Proof.
  intros Htbl Hvar.
  apply create_baseline_table_inv in Htbl. destruct Htbl as (Hrows & _ & _).
  apply baseline_rows_blocks in Hrows.
  destruct Hrows as (cblocks & gblocks & _ & Hg & ->).
  destruct (mapM_block_split _ _ _ Hg Hvar) as (b & pre & post & Hb & Hcat).
  apply categorical_block_inv in Hb.
  destruct Hb as (series & stats & Hseries & Hstats & ->).
  pose proof (kept_categories series
                (baseline.format_categorical_stats stats))
    as (Hnd & Hmem & Hord).
  exists series, stats,
    (filter (baseline.in_formatted (baseline.format_categorical_stats stats))
            (baseline.categories_of series)).
  eexists. exists (concat cblocks ++ pre), post.
  split; [exact Hseries|]. split; [exact Hstats|].
  split; [rewrite Hcat, <- !app_assoc; reflexivity|].
  split; [reflexivity|].
  split; [rewrite map_map; reflexivity|].
  auto.
Qed.

Lemma C6_witness :
  baseline.create_baseline_table (E := Polars.left_order) sample.adsl ["AGE"] ["SEX"] sample.arms
  = Ok sample.baseline_table
  /\ nth_error ["SEX"] 0 = Some "SEX"
  /\ exists cats rows rows_before rows_after,
      Polars.body sample.baseline_table
      = rows_before ++ (baseline.header_row "Sex" :: rows) ++ rows_after
      /\ map (hd None) rows = map (fun c => Some ("  " +++ c)) cats
      /\ NoDup cats.
Proof.
  assert (Htbl : baseline.create_baseline_table (E := Polars.left_order)
                   sample.adsl ["AGE"] ["SEX"] sample.arms
                 = Ok sample.baseline_table) by reflexivity.
  assert (Hvar : nth_error ["SEX"] 0 = Some "SEX") by reflexivity.
  split; [exact Htbl|]. split; [exact Hvar|].
  destruct (C6_category_rows_in_first_occurrence_order _ _ _ _ _ Htbl Hvar)
    as (series & stats & cats & rows & rows_before & rows_after
        & _ & _ & Hbody & _ & Hlabels & Hnd & _).
  exists cats, rows, rows_before, rows_after. auto.
Defined.

(* ================================================================== *)
(** ** Lookups of a treatment group *)

Lemma mapM_concat_In {A B} (block : A -> Result (list B)) (l : list A)
    (bs : list (list B)) (row : B) :
  mapM block l = Ok bs -> In row (concat bs) ->
  exists a b, In a l /\ block a = Ok b /\ In row b.
Proof.
  intros Hm Hin. apply in_concat in Hin. destruct Hin as (b & Hb & Hrow).
  destruct (@mapM_In _ _ _ _ _ b Hm Hb) as (a & Ha & Hab). eauto.
Qed.

Lemma eq_value_true_iff (cell value : option string) :
  Polars.eq_value cell value = true
  <-> exists v, value = Some v /\ cell = Some v.
Proof.
  destruct value as [v|]; simpl.
  - rewrite eq_lit_true_iff. split; [eauto|].
    intros (v' & [= <-] & ->). reflexivity.
  - split; [discriminate | intros (v & Hv & _); discriminate].
Qed.

Lemma count_cell_absent (soc_data : list safety.AeCount)
    (ae_term : option string) (trt : string) :
  (forall r, In r soc_data -> safety.ac_AEDECOD_STD r = ae_term ->
             safety.ac_TRT01A r <> Some trt) ->
  safety.count_cell soc_data ae_term trt = "0".
Proof.
  intros Hno. unfold safety.count_cell.
  replace (filter _ soc_data) with (@nil safety.AeCount); [reflexivity|].
  symmetry. apply filter_nil_iff. intros r Hr.
  apply andb_false_iff.
  destruct (Polars.eq_value (safety.ac_AEDECOD_STD r) ae_term) eqn:Ht;
    [|auto].
  right. destruct (Polars.eq_lit (safety.ac_TRT01A r) trt) eqn:He;
    [|reflexivity].
  apply eq_lit_true_iff in He. apply eq_value_true_iff in Ht.
  destruct Ht as (v & -> & Hv). exfalso. exact (Hno r Hr Hv He).
Qed.

Lemma category_row_populated
    (var_formatted : list baseline.CategoricalFormatted)
    (treatments : list string) (category : string) (cell : Polars.Cell) :
  (forall r, In r var_formatted -> baseline.cg_n_pct r <> None) ->
  In cell (baseline.category_row var_formatted treatments category) ->
  cell <> None.
Proof.
  intros Hpop [<- | Hin]; [discriminate|].
  apply in_map_iff in Hin. destruct Hin as (trt & <- & _).
  match goal with
  | |- baseline.get_value ?df trt <> None =>
      destruct (get_value_cases df trt) as [-> | (r & Hr & _ & ->)]
  end; [discriminate|].
  apply in_map_iff in Hr. destruct Hr as (f & <- & Hf). simpl.
  apply Hpop. apply filter_In in Hf. tauto.
Qed.

(** C4 (amended).  [get_value] returns the sentinel ["0 (0.0%)"] for a
    treatment group that the frame does not hold, and every cell of a
    baseline table is populated; in the AE-by-SOC table the count of a
    term in a group without events is ["0"]. *)
Theorem C4_absent_group_defaults {E : Polars.Engine} :
  (forall (df : list (option string * option string)) (treatment : string),
      (forall r, In r df -> fst r <> Some treatment) ->
      baseline.get_value df treatment = Some "0 (0.0%)")
  /\ (forall adsl continuous_vars categorical_vars treatments tbl,
         baseline.create_baseline_table adsl continuous_vars categorical_vars
                                        treatments = Ok tbl ->
         forall row cell,
           In row (Polars.body tbl) -> In cell row -> cell <> None)
  /\ (forall (soc_data : list safety.AeCount) (ae_term : option string)
             (trt : string),
         (forall r, In r soc_data -> safety.ac_AEDECOD_STD r = ae_term ->
                    safety.ac_TRT01A r <> Some trt) ->
         safety.count_cell soc_data ae_term trt = "0").
Proof.
  split; [|split].
  - intros df treatment Hno. apply get_value_absent. assumption.
  - intros adsl continuous_vars categorical_vars treatments tbl Htbl
           row cell Hrow Hcell.
    apply create_baseline_table_inv in Htbl. destruct Htbl as (Hrows & _ & _).
    apply baseline_rows_blocks in Hrows.
    destruct Hrows as (cblocks & gblocks & Hc & Hg & Hbody).
    rewrite Hbody in Hrow. apply in_app_or in Hrow.
    destruct Hrow as [Hrow | Hrow].
    + destruct (mapM_concat_In _ _ _ Hc Hrow) as (var & b & _ & Hb & Hin).
      apply continuous_block_inv in Hb.
      destruct Hb as (stats & mean_cells & median_cells & _ & _ & _ & ->).
      destruct Hin as [<- | [<- | [<- | []]]].
      * simpl in Hcell. intuition (subst; discriminate).
      * destruct Hcell as [<- | Hcell]; [discriminate|].
        apply in_map_iff in Hcell. destruct Hcell as (? & <- & _).
        discriminate.
      * destruct Hcell as [<- | Hcell]; [discriminate|].
        apply in_map_iff in Hcell. destruct Hcell as (? & <- & _).
        discriminate.
    + destruct (mapM_concat_In _ _ _ Hg Hrow) as (var & b & _ & Hb & Hin).
      apply categorical_block_inv in Hb.
      destruct Hb as (series & stats & _ & _ & ->).
      destruct Hin as [<- | Hin].
      * simpl in Hcell. intuition (subst; discriminate).
      * apply in_map_iff in Hin. destruct Hin as (category & <- & _).
        eapply category_row_populated; [|eassumption].
        intros r Hr. apply in_map_iff in Hr. destruct Hr as (s & <- & _).
        discriminate.
  - intros soc_data ae_term trt Hno. apply count_cell_absent. assumption.
Qed.

Lemma C4_witness :
  (forall r, In r [(Some "Placebo", Some "1 (50.0%)")] ->
             fst r <> Some "Drug")
  /\ baseline.get_value [(Some "Placebo", Some "1 (50.0%)")] "Drug"
     = Some "0 (0.0%)".
Proof.
  assert (Hno : forall r : option string * option string,
             In r [(Some "Placebo", Some "1 (50.0%)")] ->
             fst r <> Some "Drug").
  { intros r [<- | []]. discriminate. }
  split; [exact Hno|].
  exact (proj1 (C4_absent_group_defaults (E := Polars.left_order)) _ _ Hno).
Defined.

(** The population-count lookup of the AE-by-SOC table raises on a
    treatment without a population count: it returns no default. *)
Lemma C4_counterexample :
  safety.population_cell [(Some "Placebo", 5%N)] "Drug" = Raise IndexError
  /\ safety.create_ae_by_soc_table sample.adae [(Some "Placebo", 5%N)]
                                   ["Placebo"; "Drug"]
     = Raise IndexError.
Proof. split; reflexivity. Qed.

(* ================================================================== *)
(** ** Scenario A *)

Lemma median_of_pair (a b : Z) :
  Polars.median_of [a; b] = Polars.half_sum a b.
Proof.
  unfold Polars.median_of, Polars.sort_Z. simpl.
  destruct (a <=? b)%Z; simpl; [reflexivity|].
  unfold Polars.half_sum. rewrite (Z.add_comm b a). reflexivity.
Qed.

(** On Scenario A the table builder itself returns no table: the Drug
    group has one subject, its standard deviation is null, and so is its
    [mean_sd] text. *)
Lemma scenario_A_table_raises {E : Polars.Engine} :
  baseline.create_baseline_table sample.scenario_A ["AGE"] []
                                 ["Placebo"; "Drug"]
  = Raise AttributeError.
Proof. reflexivity. Qed.

(** A Placebo cell of ["30.0 [30, 40]"] is not what the code computes. *)
Lemma C9_counterexample :
  median_range_cells sample.scenario_A "AGE" ["Placebo"; "Drug"]
  <> Ok [Some "30.0 [30, 40]"; Some "50.0 [50, 50]"].
Proof. vm_compute. discriminate. Qed.

(** C9 (amended).  For Scenario A the [median_range] cells are
    ["35.0 [30, 40]"] for Placebo and ["50.0 [50, 50]"] for Drug: the
    median of a group of two values is their mean. *)
Theorem C9_scenario_A_median_range :
  median_range_cells sample.scenario_A "AGE" ["Placebo"; "Drug"]
  = Ok [Some "35.0 [30, 40]"; Some "50.0 [50, 50]"]
  /\ (forall a b : Z, Polars.median_of [a; b] = Polars.half_sum a b)
  /\ Polars.str_float (Polars.half_sum 30 40) = "35.0".
Proof.
  split; [reflexivity|]. split; [apply median_of_pair | reflexivity].
Qed.

(* ================================================================== *)
(** ** Percentages over a zero denominator *)

Lemma percent_round1_zero (n : N) :
  Polars.percent_round1 n 0 = if (n =? 0)%N then Polars.NaN else Polars.Inf.
Proof. reflexivity. Qed.

Lemma format_ae_summary_In (ae_summary : list safety.SummaryRow)
    (pop_counts : list (option string * N)) (r : safety.FormattedRow) :
  In r (safety.format_ae_summary ae_summary pop_counts) ->
  exists row total, In row ae_summary /\ r = safety.format_row row total.
Proof.
  unfold safety.format_ae_summary, Polars.left_join. intros Hin.
  apply in_map_iff in Hin. destruct Hin as ([row m] & <- & Hj).
  apply in_flat_map in Hj. destruct Hj as (row' & Hrow & Hm).
  exists row, (option_map snd m). split; [|reflexivity].
  destruct (filter _ pop_counts) as [|p ps].
  - destruct Hm as [[= <- <-] | []]. assumption.
  - apply in_map_iff in Hm. destruct Hm as (? & [= <- <-] & _). assumption.
Qed.

(** With the sample population counts, where the arm High has no
    participant, the percentage of that arm is NaN, not 0.0. *)
Lemma C3_counterexample :
  map (fun r => (safety.fr_N r, safety.fr_pct r, safety.fr_pct_display r))
      (safety.format_ae_summary sample.empty_arm_summary sample.pop_counts)
  = [(Some 0%N, Some Polars.NaN, "(NaN)")].
Proof. reflexivity. Qed.

(** [create_ae_summary] leaves no count null. *)
Lemma create_ae_summary_counted (adae_safety : list safety.AeRow)
    (pop_counts : list (option string * N))
    (treatment_levels : list (option string)) (row : safety.SummaryRow) :
  In row (safety.create_ae_summary adae_safety pop_counts treatment_levels) ->
  safety.sr_n row <> None.
Proof.
  intros Hr. unfold safety.create_ae_summary in Hr.
  repeat (apply in_app_or in Hr; destruct Hr as [Hr | Hr]);
    unfold safety.with_category in Hr; apply in_map_iff in Hr;
    destruct Hr as (c & <- & _); discriminate.
Qed.

(** C3 (amended).  The percentage over a population denominator of 0 is
    computed without an exception, and it is the float quotient: NaN
    for a count of 0 and infinity for a positive count, printed as
    such by [format_ae_summary] and by [format_population_table].
    [format_ae_summary] prints 0.0 only for a null percentage: that of
    a null count of the summary, which [create_ae_summary] never
    makes, or of a group that the population counts do not hold. *)
Theorem C3_zero_denominator_percentage {E : Polars.Engine} :
  (forall ae_summary pop_counts r,
      In r (safety.format_ae_summary ae_summary pop_counts) ->
      safety.fr_category r <> safety.population_label ->
      safety.fr_N r = Some 0%N ->
      exists row,
        In row ae_summary
        /\ safety.sr_TRT01A row = safety.fr_TRT01A r
        /\ safety.sr_category row = safety.fr_category r
        /\ match safety.sr_n row with
           | None =>
               safety.fr_pct r = None /\ safety.fr_pct_display r = "(0.0)"
           | Some k =>
               safety.fr_n r = k
               /\ if (k =? 0)%N
                  then safety.fr_pct r = Some Polars.NaN
                       /\ safety.fr_pct_display r = "(NaN)"
                  else safety.fr_pct r = Some Polars.Inf
                       /\ safety.fr_pct_display r = "(inf)"
           end)
  /\ (forall adae_safety pop_counts treatment_levels r,
         In r (safety.format_ae_summary
                 (safety.create_ae_summary adae_safety pop_counts
                                           treatment_levels)
                 pop_counts) ->
         safety.fr_category r <> safety.population_label ->
         safety.fr_N r = Some 0%N ->
         (safety.fr_n r = 0%N /\ safety.fr_pct r = Some Polars.NaN
          /\ safety.fr_pct_display r = "(NaN)")
         \/ (safety.fr_n r <> 0%N /\ safety.fr_pct r = Some Polars.Inf
             /\ safety.fr_pct_display r = "(inf)"))
  /\ (forall ae_summary pop_counts r,
         In r (safety.format_ae_summary ae_summary pop_counts) ->
         safety.fr_category r <> safety.population_label ->
         safety.fr_N r = None ->
         safety.fr_pct r = None /\ safety.fr_pct_display r = "(0.0)")
  /\ (forall pop_summary totals r,
         In r (population.formatted_stats pop_summary totals) ->
         population.ps_total r = 0%N ->
         population.ps_pct r
         = (if (population.ps_n r =? 0)%N then Polars.NaN else Polars.Inf)
         /\ (population.ps_population r <> "Participants in population" ->
             population.ps_display r
             = Py.str_N (population.ps_n r) +++ " ("
                 +++ (if (population.ps_n r =? 0)%N then "NaN" else "inf")
                 +++ ")")).
Proof.
  assert (Hrow : forall ae_summary pop_counts r,
      In r (safety.format_ae_summary ae_summary pop_counts) ->
      safety.fr_category r <> safety.population_label ->
      safety.fr_N r = Some 0%N ->
      exists row,
        In row ae_summary
        /\ safety.sr_TRT01A row = safety.fr_TRT01A r
        /\ safety.sr_category row = safety.fr_category r
        /\ match safety.sr_n row with
           | None =>
               safety.fr_pct r = None /\ safety.fr_pct_display r = "(0.0)"
           | Some k =>
               safety.fr_n r = k
               /\ if (k =? 0)%N
                  then safety.fr_pct r = Some Polars.NaN
                       /\ safety.fr_pct_display r = "(NaN)"
                  else safety.fr_pct r = Some Polars.Inf
                       /\ safety.fr_pct_display r = "(inf)"
           end).
  { intros ae_summary pop_counts r Hin Hcat HN.
    apply format_ae_summary_In in Hin.
    destruct Hin as (row & total & Hrow & ->).
    exists row. split; [exact Hrow|].
    unfold safety.format_row in *. simpl in *. subst total.
    split; [reflexivity|]. split; [reflexivity|].
    destruct (eqb_spec (safety.sr_category row) safety.population_label)
      as [Heq|_]; [contradiction|].
    destruct (safety.sr_n row) as [k|]; simpl; [|auto].
    split; [reflexivity|]. rewrite percent_round1_zero.
    destruct (k =? 0)%N; auto. }
  split; [exact Hrow|]. split; [|split].
  - intros adae_safety pop_counts treatment_levels r Hin Hcat HN.
    destruct (Hrow _ _ _ Hin Hcat HN) as (row & Hsummary & _ & _ & Hpct).
    apply create_ae_summary_counted in Hsummary.
    destruct (safety.sr_n row) as [k|]; [|contradiction].
    destruct Hpct as [Hn Hpct].
    destruct (N.eqb_spec k 0) as [Hk|Hk]; [left | right];
      (split; [congruence | exact Hpct]).
  - intros ae_summary pop_counts r Hin Hcat HN.
    apply format_ae_summary_In in Hin.
    destruct Hin as (row & total & _ & ->).
    unfold safety.format_row in *. simpl in *. subst total.
    destruct (eqb_spec (safety.sr_category row) safety.population_label)
      as [Heq|_]; [contradiction|].
    destruct (safety.sr_n row); auto.
  - intros pop_summary totals r Hin Htotal.
    unfold population.formatted_stats in Hin. apply in_map_iff in Hin.
    destruct Hin as ([row [t total]] & <- & _).
    unfold population.stats_row in *. simpl in *. subst total.
    rewrite percent_round1_zero. split; [reflexivity|].
    intros Hpop.
    destruct (eqb_spec (population.population row)
                       "Participants in population") as [Heq|_];
      [contradiction|].
    destruct (population.n row =? 0)%N; reflexivity.
Qed.

Lemma C3_witness :
  exists r,
    In r (safety.format_ae_summary sample.empty_arm_summary sample.pop_counts)
    /\ safety.fr_category r <> safety.population_label
    /\ safety.fr_N r = Some 0%N
    /\ safety.fr_n r = 0%N
    /\ safety.fr_pct r = Some Polars.NaN
    /\ safety.fr_pct_display r = "(NaN)".
Proof.
  exists (safety.format_row
            {| safety.sr_TRT01A := Some "High"; safety.sr_n := Some 0%N;
               safety.sr_category := "With any adverse event" |}
            (Some 0%N)).
  assert (Hin : In (safety.format_row
                      {| safety.sr_TRT01A := Some "High";
                         safety.sr_n := Some 0%N;
                         safety.sr_category := "With any adverse event" |}
                      (Some 0%N))
                   (safety.format_ae_summary sample.empty_arm_summary
                                             sample.pop_counts))
    by (left; reflexivity).
  assert (Hcat : "With any adverse event" <> safety.population_label)
    by discriminate.
  split; [exact Hin|]. split; [exact Hcat|]. split; [reflexivity|].
  split; [reflexivity|].
  destruct (proj1 (C3_zero_denominator_percentage (E := Polars.left_order))
                  _ _ _ Hin Hcat eq_refl)
    as (row & [<- | []] & _ & _ & Hpct).
  exact (proj2 Hpct).
Defined.

(* ================================================================== *)
(** ** Column headers *)

Section Headers.
Context {K : Type} `{EqbLaws K}.

Lemma filter_negb_eqb_idem (x : K) (l : list K) :
  filter (fun y => negb (eqb x y)) (filter (fun y => negb (eqb x y)) l)
  = filter (fun y => negb (eqb x y)) l.
Proof.
  rewrite filter_filter. apply filter_ext. intros y.
  destruct (negb (eqb x y)); reflexivity.
Qed.

(** Repeating a value right after itself does not change the distinct
    values. *)
Lemma unique_repeated {B} (x : K) (ms : list B) (rest : list K) :
  Polars.unique (x :: map (fun _ => x) ms ++ rest)
  = x :: filter (fun y => negb (eqb x y)) (Polars.unique rest).
Proof.
  induction ms as [|m ms IH]; [reflexivity|].
  change (Polars.unique (x :: map (fun _ => x) (m :: ms) ++ rest))
    with (x :: filter (fun y => negb (eqb x y))
                      (Polars.unique (x :: map (fun _ => x) ms ++ rest))).
  rewrite IH. simpl. rewrite eqb_refl. simpl.
  rewrite filter_negb_eqb_idem. reflexivity.
Qed.

End Headers.

Lemma filter_nil_existsb {A} (p : A -> bool) (l : list A) :
  filter p l = [] <-> existsb p l = false.
Proof.
  rewrite filter_nil_iff. split.
  - intros Hall. destruct (existsb p l) eqn:Hex; [|reflexivity].
    apply existsb_exists in Hex. destruct Hex as (x & Hx & Hp).
    rewrite (Hall x Hx) in Hp. discriminate.
  - intros Hex x Hx. destruct (p x) eqn:Hp; [|reflexivity].
    assert (existsb p l = true) by (apply existsb_exists; eauto).
    congruence.
Qed.

(** The joined frame holds the same rows under every engine. *)
Lemma formatted_stats_perm {E : Polars.Engine}
    (pop_summary : list population.PopulationRow)
    (totals : list (option string * N)) :
  Permutation
    (population.formatted_stats pop_summary totals)
    (population.formatted_stats (E := Polars.left_order) pop_summary totals).
Proof.
  unfold population.formatted_stats, Polars.inner_join.
  apply Permutation_map. apply Polars.arrange_perm.
Qed.

(** The distinct values of two orders of the same rows. *)
Lemma unique_perm {K} `{EqbLaws K} (l1 l2 : list K) :
  Permutation l1 l2 -> Permutation (Polars.unique l1) (Polars.unique l2).
Proof.
  intros Hp. apply NoDup_Permutation; try apply unique_NoDup.
  intros x. rewrite !unique_In. split; apply Permutation_in;
    [assumption | apply Permutation_sym; assumption].
Qed.

(** A column of the joined frame that repeats a column of the summary
    has, when the join follows the summary, the distinct values of the
    summary rows with a total in the order of the summary. *)
Lemma joined_column {K} `{EqbLaws K}
    (f : population.PopulationStats -> K)
    (g : population.PopulationRow -> K)
    (pop_summary : list population.PopulationRow)
    (totals : list (option string * N)) :
  (forall r total, f (population.stats_row r total) = g r) ->
  Polars.unique
    (map f (population.formatted_stats (E := Polars.left_order)
                                       pop_summary totals))
  = Polars.unique (map g (filter (has_total totals) pop_summary)).
Proof.
  intros Hfg. unfold population.formatted_stats, Polars.inner_join.
  cbn [Polars.arrange Polars.left_order]. rewrite map_map.
  induction pop_summary as [|row rows IH]; [reflexivity|].
  cbn [flat_map filter]. rewrite map_app, map_map. cbn [fst snd].
  unfold has_total at 1.
  destruct (filter (fun r => Polars.key_match (population.TRT01P row) (fst r))
                   totals) as [|m ms] eqn:Hf.
  - apply filter_nil_existsb in Hf. rewrite Hf. simpl. exact IH.
  - assert (Hex : existsb (fun t => Polars.key_match (population.TRT01P row)
                                                      (fst t)) totals = true).
    { destruct (existsb _ totals) eqn:Hex; [reflexivity|].
      apply filter_nil_existsb in Hex. congruence. }
    rewrite Hex.
    replace (map (fun x : option string * N =>
                    f (population.stats_row row (snd x))) (m :: ms))
      with (g row :: map (fun _ : option string * N => g row) ms)
      by (cbn [map]; rewrite Hfg; f_equal; apply map_ext; intros x;
          rewrite Hfg; reflexivity).
    rewrite <- app_comm_cons, unique_repeated. cbn [map Polars.unique].
    rewrite IH. reflexivity.
Qed.

(** Under every engine the distinct values are the same, in the order
    in which the engine lists them. *)
Lemma joined_column_perm {E : Polars.Engine} {K} `{EqbLaws K}
    (f : population.PopulationStats -> K)
    (g : population.PopulationRow -> K)
    (pop_summary : list population.PopulationRow)
    (totals : list (option string * N)) :
  (forall r total, f (population.stats_row r total) = g r) ->
  Permutation
    (Polars.unique (map f (population.formatted_stats pop_summary totals)))
    (Polars.unique (map g (filter (has_total totals) pop_summary))).
Proof.
  intros Hfg. rewrite <- (joined_column f g pop_summary totals Hfg).
  apply unique_perm, Permutation_map, formatted_stats_perm.
Qed.

Lemma format_population_table_header {E : Polars.Engine}
    (pop_summary : list population.PopulationRow)
    (totals : list (option string * N)) (tbl : Polars.Table) :
  population.format_population_table pop_summary totals = Ok tbl ->
  Polars.header tbl
  = "population"
      :: map population.on_name
             (Polars.unique
                (map population.ps_TRT01P
                     (population.formatted_stats pop_summary totals))).
Proof.
  unfold population.format_population_table.
  destruct (mapM _ _) as [rows|e]; cbn [bind]; [|discriminate].
  destruct (Polars.first_duplicate _); [discriminate|].
  intros [= <-]. reflexivity.
Qed.

Lemma create_ae_by_soc_table_inv (adae_safety : list safety.AeRow)
    (pop_counts : list (option string * N)) (treatments : list string)
    (tbl : Polars.Table) :
  safety.create_ae_by_soc_table adae_safety pop_counts treatments = Ok tbl ->
  exists population_cells,
    mapM (safety.population_cell pop_counts) treatments = Ok population_cells
    /\ Polars.body tbl
       = (Some safety.population_label :: map Some population_cells)
           :: repeat (Some "") (length treatments + 1)
           :: flat_map (safety.soc_rows (safety.ae_counts_of adae_safety)
                                        treatments)
                       (Polars.sort_nullable
                          (Polars.unique
                             (map safety.ac_AEBODSYS_STD
                                  (safety.ae_counts_of adae_safety))))
    /\ Polars.header tbl
       = Polars.column_names
           ("System Organ Class / Preferred Term" :: treatments).
Proof.
  unfold safety.create_ae_by_soc_table.
  destruct (mapM _ treatments) as [cells|e]; simpl; [|discriminate].
  intros Hdf. apply DataFrame_inv in Hdf. destruct Hdf as (Hb & Hh & _).
  exists cells. auto.
Qed.

(** [format_population_table] takes no treatment order.  For the
    sample summary and totals, whatever order the join gives its rows,
    the table is returned with the two groups in one order: under no
    engine does its header follow both orders in which the two groups
    can be supplied. *)
Lemma C2_counterexample :
  ~ exists E : Polars.Engine,
      forall treatments tbl,
        Permutation treatments ["Placebo"; "Drug"] ->
        population.format_population_table sample.pop_summary sample.totals
        = Ok tbl ->
        Polars.header tbl = "population" :: treatments.
Proof.
  intros (E & Hall).
  assert (Htbl : exists tbl,
             population.format_population_table sample.pop_summary
                                                sample.totals = Ok tbl).
  { unfold population.format_population_table, population.formatted_stats,
      Polars.inner_join.
    match goal with
    | |- context [Polars.arrange ?l] =>
        pose proof (Polars.arrange_perm l) as Hp;
        set (joined := Polars.arrange l) in *
    end.
    clearbody joined. vm_compute in Hp. apply Permutation_sym in Hp.
    apply Permutation_length_2_inv in Hp.
    destruct Hp as [-> | ->]; eexists; reflexivity. }
  destruct Htbl as (tbl & Htbl).
  pose proof (Hall ["Placebo"; "Drug"] tbl (Permutation_refl _) Htbl) as H1.
  pose proof (Hall ["Drug"; "Placebo"] tbl (perm_swap _ _ _) Htbl) as H2.
  rewrite H1 in H2. discriminate.
Qed.

(** With a join that returns its rows in the order of the summary the
    header lists Drug first, with one that returns them in the reverse
    order Placebo first: the source fixes no order of the columns. *)
Lemma population_header_follows_join :
  (exists tbl,
      population.format_population_table (E := Polars.left_order)
        sample.pop_summary sample.totals = Ok tbl
      /\ Polars.header tbl = ["population"; "Drug"; "Placebo"])
  /\ (exists tbl,
         population.format_population_table (E := Polars.reversed)
           sample.pop_summary sample.totals = Ok tbl
         /\ Polars.header tbl = ["population"; "Placebo"; "Drug"]).
Proof. split; eexists; split; reflexivity. Qed.

(** C2 (amended).  A baseline table and an AE-by-SOC table carry, after
    the label column, the supplied treatments in the supplied order
    (treatment names being non-empty).  The population table is given no
    treatment order: its columns are the treatment groups of the summary
    rows that have a total, each once, in the order of their first
    appearance in the joined frame, an order that the join leaves to
    the engine. *)
Theorem C2_header_order {E : Polars.Engine} :
  (forall adsl continuous_vars categorical_vars treatments tbl,
      ~ In "" treatments ->
      baseline.create_baseline_table adsl continuous_vars categorical_vars
                                     treatments = Ok tbl ->
      Polars.header tbl = "Characteristic" :: treatments)
  /\ (forall adae_safety pop_counts treatments tbl,
         ~ In "" treatments ->
         safety.create_ae_by_soc_table adae_safety pop_counts treatments
         = Ok tbl ->
         Polars.header tbl
         = "System Organ Class / Preferred Term" :: treatments)
  /\ (forall pop_summary totals tbl,
         population.format_population_table pop_summary totals = Ok tbl ->
         let groups :=
           Polars.unique
             (map population.ps_TRT01P
                  (population.formatted_stats pop_summary totals)) in
         Polars.header tbl = "population" :: map population.on_name groups
         /\ NoDup groups
         /\ (forall g,
               In g groups <->
               exists row,
                 In row pop_summary /\ has_total totals row = true
                 /\ population.TRT01P row = g)).
Proof.
  split; [|split].
  - intros adsl continuous_vars categorical_vars treatments tbl Hno Htbl.
    apply create_baseline_table_inv in Htbl. destruct Htbl as (_ & -> & _).
    unfold Polars.column_names. apply column_names_from_id.
    intros [Hc | Hin]; [discriminate | auto].
  - intros adae_safety pop_counts treatments tbl Hno Htbl.
    apply create_ae_by_soc_table_inv in Htbl.
    destruct Htbl as (_ & _ & _ & ->).
    unfold Polars.column_names. apply column_names_from_id.
    intros [Hc | Hin]; [discriminate | auto].
  - intros pop_summary totals tbl Htbl. cbv zeta.
    split; [apply format_population_table_header; assumption|].
    split; [apply unique_NoDup|].
    intros g.
    pose proof (joined_column_perm population.ps_TRT01P population.TRT01P
                  pop_summary totals (fun _ _ => eq_refl)) as Hperm.
    split.
    + intros Hg. apply (Permutation_in _ Hperm) in Hg.
      rewrite unique_In in Hg. apply in_map_iff in Hg.
      destruct Hg as (row & <- & Hrow). apply filter_In in Hrow.
      exists row. tauto.
    + intros (row & Hrow & Htotal & <-).
      apply (Permutation_in _ (Permutation_sym Hperm)).
      rewrite unique_In. apply in_map. apply filter_In. auto.
Qed.

Lemma C2_witness :
  ~ In "" sample.arms
  /\ baseline.create_baseline_table (E := Polars.left_order) sample.adsl ["AGE"] ["SEX"] sample.arms
     = Ok sample.baseline_table
  /\ Polars.header sample.baseline_table = "Characteristic" :: sample.arms.
Proof.
  assert (Hno : ~ In "" sample.arms) by (simpl; intuition discriminate).
  assert (Htbl : baseline.create_baseline_table (E := Polars.left_order)
                   sample.adsl ["AGE"] ["SEX"] sample.arms
                 = Ok sample.baseline_table) by reflexivity.
  split; [exact Hno|]. split; [exact Htbl|].
  exact (proj1 C2_header_order _ _ _ _ _ Hno Htbl).
Defined.

(* ================================================================== *)
(** ** Sorting strings *)

Lemma string_leb_iff (a b : string) :
  Polars.string_leb a b = true <-> a = b \/ string_lt a b.
Proof.
  unfold Polars.string_leb, string_lt.
  destruct (String_as_OT.compare_spec a b) as [Heq | Hlt | Hgt].
  - split; auto.
  - split; auto.
  - split; [discriminate|]. intros [-> | Hlt].
    + exfalso.
      exact (@StrictOrder_Irreflexive _ _ String_as_OT.lt_strorder _ Hgt).
    + discriminate.
Qed.

Lemma string_leb_false (a b : string) :
  Polars.string_leb a b = false -> string_lt b a.
Proof.
  unfold Polars.string_leb.
  destruct (String_as_OT.compare_spec a b) as [Heq | Hlt | Hgt];
    try discriminate.
  intros _. exact Hgt.
Qed.

Lemma string_lt_trans (a b c : string) :
  string_lt a b -> string_lt b c -> string_lt a c.
Proof. apply (@StrictOrder_Transitive _ _ String_as_OT.lt_strorder). Qed.

Lemma string_lt_irrefl (a : string) : ~ string_lt a a.
Proof. apply (@StrictOrder_Irreflexive _ _ String_as_OT.lt_strorder). Qed.

Lemma insert_string_perm (x : string) (l : list string) :
  Permutation (Polars.insert_string x l) (x :: l).
Proof.
  induction l as [|y l IH]; simpl; [reflexivity|].
  destruct (Polars.string_leb x y); [reflexivity|].
  rewrite IH. apply perm_swap.
Qed.

Lemma sort_perm (l : list string) : Permutation (Polars.sort l) l.
Proof.
  induction l as [|x l IH]; simpl; [reflexivity|].
  unfold Polars.sort in *. simpl.
  rewrite insert_string_perm. apply perm_skip. exact IH.
Qed.

Lemma sort_In (x : string) (l : list string) :
  In x (Polars.sort l) <-> In x l.
Proof.
  split; apply Permutation_in; [|symmetry]; apply sort_perm.
Qed.

(** Inserting a new string into a strictly ascending list keeps it
    strictly ascending. *)
Lemma insert_string_sorted (x : string) (l : list string) :
  ~ In x l -> StronglySorted string_lt l ->
  StronglySorted string_lt (Polars.insert_string x l).
Proof.
  intros Hnew Hs. induction Hs as [|y l Hs IH Hall]; simpl.
  - constructor; constructor.
  - destruct (Polars.string_leb x y) eqn:Hxy.
    + apply string_leb_iff in Hxy. destruct Hxy as [-> | Hlt].
      * exfalso. apply Hnew. left. reflexivity.
      * constructor; [constructor; assumption|].
        constructor; [assumption|].
        eapply Forall_impl; [|exact Hall].
        intros z Hz. eapply string_lt_trans; eassumption.
    + apply string_leb_false in Hxy.
      constructor.
      * apply IH. intros Hin. apply Hnew. right. assumption.
      * apply Forall_forall. intros z Hz.
        apply (Permutation_in _ (insert_string_perm x l)) in Hz.
        destruct Hz as [<- | Hz]; [assumption|].
        rewrite Forall_forall in Hall. auto.
Qed.

Lemma sort_sorted (l : list string) :
  NoDup l -> StronglySorted string_lt (Polars.sort l).
Proof.
  induction 1 as [|x l Hnotin Hnd IH]; [constructor|].
  unfold Polars.sort in *. simpl.
  apply insert_string_sorted; [|exact IH].
  intros Hin. apply Hnotin. apply sort_In. exact Hin.
Qed.

(* ================================================================== *)
(** ** safety.create_ae_by_soc_table *)

Lemma sort_nullable_full (l : list (option string)) :
  (forall x, In x l -> x <> None) ->
  Polars.sort_nullable l = map Some (Polars.sort (Polars.drop_nulls l)).
Proof.
  intros Hl. unfold Polars.sort_nullable.
  replace (filter _ l) with (@nil (option string)); [reflexivity|].
  symmetry. apply filter_nil_iff. intros [x|] Hx; [reflexivity|].
  exfalso. exact (Hl None Hx eq_refl).
Qed.

Lemma sort_full_sorted (l : list (option string)) :
  StronglySorted string_lt
    (Polars.sort (Polars.drop_nulls (Polars.unique l))).
Proof. apply sort_sorted, NoDup_drop_nulls, unique_NoDup. Qed.

Lemma sort_full_In (x : string) (l : list (option string)) :
  In x (Polars.sort (Polars.drop_nulls (Polars.unique l))) <-> In (Some x) l.
Proof. rewrite sort_In, In_drop_nulls, unique_In. reflexivity. Qed.

Section AeBySoc.
Import safety.
Variable adae : list AeRow.

Lemma ae_counts_keyed :
  ae_counts_of adae
  = map (ae_count_of adae) (Polars.unique (map ae_key adae)).
Proof.
  unfold ae_counts_of, Polars.group_by. rewrite map_map.
  apply map_ext. intros [[trt soc] term]. reflexivity.
Qed.

Lemma ae_counts_In (c : AeCount) :
  In c (ae_counts_of adae)
  <-> exists r, In r adae /\ c = ae_count_of adae (ae_key r).
Proof.
  rewrite ae_counts_keyed, in_map_iff. split.
  - intros (k & <- & Hk). rewrite unique_In in Hk.
    apply in_map_iff in Hk. destruct Hk as (r & <- & Hr). eauto.
  - intros (r & Hr & ->). exists (ae_key r). split; [reflexivity|].
    rewrite unique_In. apply in_map. assumption.
Qed.

(** The organ classes of the table are those of the events. *)
Lemma soc_In (soc : string) :
  In soc (Polars.sort
            (Polars.drop_nulls
               (Polars.unique (map ac_AEBODSYS_STD (ae_counts_of adae)))))
  <-> exists r, In r adae
                /\ option_map Polars.to_titlecase (AEBODSYS r) = Some soc.
Proof.
  rewrite sort_full_In, in_map_iff. split.
  - intros (c & <- & Hc). apply ae_counts_In in Hc.
    destruct Hc as (r & Hr & ->). eauto.
  - intros (r & Hr & <-). exists (ae_count_of adae (ae_key r)).
    split; [reflexivity|]. apply ae_counts_In. eauto.
Qed.

(** The terms of an organ class are those of its events. *)
Lemma terms_of_In (soc term : string) :
  In term (terms_of adae soc)
  <-> exists r, In r adae
                /\ option_map Polars.to_titlecase (AEBODSYS r) = Some soc
                /\ option_map Polars.to_titlecase (AEDECOD r) = Some term.
Proof.
  unfold terms_of. rewrite sort_full_In, in_map_iff. split.
  - intros (c & <- & Hc). apply filter_In in Hc. destruct Hc as [Hc Hsoc].
    apply eq_lit_true_iff in Hsoc. apply ae_counts_In in Hc.
    destruct Hc as (r & Hr & ->). eauto.
  - intros (r & Hr & Hs & Hd). exists (ae_count_of adae (ae_key r)).
    split; [exact Hd|]. apply filter_In. split.
    + apply ae_counts_In. eauto.
    + apply eq_lit_true_iff. exact Hs.
Qed.

(** A count cell shows the participants of its group and term. *)
Lemma count_cell_participants (soc ae_term trt : string) :
  count_cell (filter (fun r => Polars.eq_value (ac_AEBODSYS_STD r) (Some soc))
                     (ae_counts_of adae))
             (Some ae_term) trt
  = Py.str_N (participants adae trt soc ae_term).
Proof.
  unfold count_cell. f_equal. rewrite filter_filter, ae_counts_keyed.
  rewrite (filter_map_keyed (ae_count_of adae) _
             (k0 := (Some trt, Some soc, Some ae_term))).
  - destruct (existsb _ _) eqn:Hex; [reflexivity|].
    unfold participants.
    replace (filter _ adae) with (@nil AeRow); [reflexivity|].
    symmetry. apply filter_nil_iff. intros r Hr.
    destruct (eqb (TRT01A r) (Some trt)
              && eqb (option_map Polars.to_titlecase (AEBODSYS r)) (Some soc)
              && eqb (option_map Polars.to_titlecase (AEDECOD r))
                     (Some ae_term)) eqn:Hkey;
      [|reflexivity].
    exfalso. rewrite !andb_true_iff, !eqb_true_iff in Hkey.
    destruct Hkey as [[Ht Hs] Hd].
    assert (Hex' : existsb
                     (fun k =>
                        Polars.eq_value (ac_AEBODSYS_STD (ae_count_of adae k))
                                        (Some soc)
                        && (Polars.eq_value
                              (ac_AEDECOD_STD (ae_count_of adae k))
                              (Some ae_term)
                            && Polars.eq_lit (ac_TRT01A (ae_count_of adae k))
                                             trt))
                     (Polars.unique (map ae_key adae)) = true).
    { apply existsb_exists. exists (ae_key r). split.
      - rewrite unique_In. apply in_map. assumption.
      - unfold ae_key. simpl. rewrite Ht, Hs, Hd. simpl.
        rewrite !eqb_refl. reflexivity. }
    congruence.
  - apply unique_NoDup.
  - intros [[t s] d]. simpl.
    rewrite !andb_true_iff, !eq_lit_true_iff.
    split; [intros (-> & -> & ->); reflexivity | intros [= -> -> ->]; auto].
Qed.

Lemma participants_none (trt soc term : string) :
  (forall r, In r adae ->
             ~ (TRT01A r = Some trt
                /\ option_map Polars.to_titlecase (AEBODSYS r) = Some soc
                /\ option_map Polars.to_titlecase (AEDECOD r) = Some term)) ->
  participants adae trt soc term = 0%N.
Proof.
  intros Hno. unfold participants.
  replace (filter _ adae) with (@nil AeRow); [reflexivity|].
  symmetry. apply filter_nil_iff. intros r Hr.
  destruct (eqb (TRT01A r) (Some trt)
            && eqb (option_map Polars.to_titlecase (AEBODSYS r)) (Some soc)
            && eqb (option_map Polars.to_titlecase (AEDECOD r)) (Some term))
    eqn:Hkey; [|reflexivity].
  exfalso. rewrite !andb_true_iff, !eqb_true_iff in Hkey.
  apply (Hno r Hr). tauto.
Qed.

Hypothesis adae_full :
  forall r, In r adae -> AEDECOD r <> None /\ AEBODSYS r <> None.

(** Events without nulls give grouped counts without nulls. *)
Lemma ae_counts_full (c : AeCount) :
  In c (ae_counts_of adae) ->
  ac_AEBODSYS_STD c <> None /\ ac_AEDECOD_STD c <> None.
Proof.
  intros Hc. apply ae_counts_In in Hc. destruct Hc as (r & Hr & ->).
  destruct (adae_full r Hr) as [Hd Hs]. simpl.
  destruct (AEBODSYS r), (AEDECOD r); try contradiction.
  split; discriminate.
Qed.

Lemma soc_rows_block (treatments : list string) (soc : string) :
  soc_rows (ae_counts_of adae) treatments (Some soc)
  = soc_block adae treatments soc.
Proof.
  unfold soc_rows, soc_block, terms_of. f_equal.
  rewrite sort_nullable_full.
  - rewrite map_map. apply map_ext. intros term.
    unfold term_row. simpl. f_equal.
    apply map_ext. intros trt. f_equal.
    apply count_cell_participants.
  - intros x Hx. rewrite unique_In in Hx. apply in_map_iff in Hx.
    destruct Hx as (c & <- & Hc). apply filter_In in Hc.
    apply ae_counts_full. tauto.
Qed.

Lemma ae_by_soc_blocks (treatments : list string) :
  flat_map (soc_rows (ae_counts_of adae) treatments)
           (Polars.sort_nullable
              (Polars.unique (map ac_AEBODSYS_STD (ae_counts_of adae))))
  = flat_map (soc_block adae treatments)
             (Polars.sort
                (Polars.drop_nulls
                   (Polars.unique
                      (map ac_AEBODSYS_STD (ae_counts_of adae))))).
Proof.
  rewrite sort_nullable_full.
  - rewrite flat_map_concat_map, map_map, <- flat_map_concat_map.
    apply flat_map_ext. intros soc. apply soc_rows_block.
  - intros x Hx. rewrite unique_In in Hx. apply in_map_iff in Hx.
    destruct Hx as (c & <- & Hc). apply ae_counts_full. exact Hc.
Qed.

End AeBySoc.

Lemma population_cell_inv (pop_counts : list (option string * N))
    (t cell : string) :
  safety.population_cell pop_counts t = Ok cell ->
  exists p, find (fun p => Polars.eq_lit (fst p) t) pop_counts = Some p
            /\ cell = Py.str_N (snd p).
Proof.
  unfold safety.population_cell.
  induction pop_counts as [|p ps IH]; simpl; [discriminate|].
  destruct (Polars.eq_lit (fst p) t); [|exact IH].
  intros [= <-]. eauto.
Qed.

(** An event with a null term: its organ class is listed with the row
    ["  None"], which shows ["0"] in every group, although one
    participant of the Drug group has such an event. *)
Lemma C8_counterexample :
  safety.create_ae_by_soc_table [sample.unnamed_event] sample.pop_counts
                                ["Placebo"; "Drug"]
  = Ok {| Polars.header :=
            ["System Organ Class / Preferred Term"; "Placebo"; "Drug"];
          Polars.body :=
            [ [Some "Participants in population"; Some "5"; Some "10"];
              [Some ""; Some ""; Some ""];
              [Some "Skin Disorders"; Some ""; Some ""];
              [Some "  None"; Some "0"; Some "0"] ] |}
  /\ Polars.n_unique
       (map safety.USUBJID
            (filter (fun r =>
                       eqb (safety.TRT01A r) (Some "Drug")
                       && eqb (safety.AEBODSYS r) (Some "SKIN DISORDERS")
                       && eqb (safety.AEDECOD r) None)
                    [sample.unnamed_event]))
     = 1%N.
Proof. split; reflexivity. Qed.

(** C8 (amended).  For events whose term and organ class are never
    null, the AE-by-SOC table is: a first row with the label
    ["Participants in population"] and the population count of each
    treatment as plain text; a row of blank cells; then, for each
    title-cased organ class of the events in ascending order, a header
    row with blank group cells followed, for each title-cased term of
    that class in ascending order, by a row with the indented term and
    the number of distinct participants of each treatment, which is
    ["0"] for a treatment without such an event. *)
Theorem C8_ae_by_soc_table_structure
    (adae_safety : list safety.AeRow) (pop_counts : list (option string * N))
    (treatments : list string) (tbl : Polars.Table) :
  (forall r, In r adae_safety ->
             safety.AEDECOD r <> None /\ safety.AEBODSYS r <> None) ->
  safety.create_ae_by_soc_table adae_safety pop_counts treatments = Ok tbl ->
  exists (population_cells socs : list string),
    Polars.body tbl
    = (Some "Participants in population" :: map Some population_cells)
        :: repeat (Some "") (length treatments + 1)
        :: flat_map (soc_block adae_safety treatments) socs
    /\ Forall2 (fun t cell =>
                  exists p,
                    find (fun p => Polars.eq_lit (fst p) t) pop_counts
                    = Some p
                    /\ cell = Py.str_N (snd p))
               treatments population_cells
    /\ StronglySorted string_lt socs
    /\ (forall soc,
          In soc socs <->
          exists r, In r adae_safety
                    /\ option_map Polars.to_titlecase (safety.AEBODSYS r)
                       = Some soc)
    /\ (forall soc, StronglySorted string_lt (terms_of adae_safety soc))
    /\ (forall soc term,
          In term (terms_of adae_safety soc) <->
          exists r, In r adae_safety
                    /\ option_map Polars.to_titlecase (safety.AEBODSYS r)
                       = Some soc
                    /\ option_map Polars.to_titlecase (safety.AEDECOD r)
                       = Some term)
    /\ (forall trt soc term,
          (forall r, In r adae_safety ->
                     ~ (safety.TRT01A r = Some trt
                        /\ option_map Polars.to_titlecase (safety.AEBODSYS r)
                           = Some soc
                        /\ option_map Polars.to_titlecase (safety.AEDECOD r)
                           = Some term)) ->
          Py.str_N (participants adae_safety trt soc term) = "0").
Proof.
  intros Hfull Htbl. apply create_ae_by_soc_table_inv in Htbl.
  destruct Htbl as (cells & Hcells & Hbody & _).
  exists cells,
    (Polars.sort
       (Polars.drop_nulls
          (Polars.unique
             (map safety.ac_AEBODSYS_STD
                  (safety.ae_counts_of adae_safety))))).
  split.
  { rewrite Hbody. do 2 f_equal. apply ae_by_soc_blocks. exact Hfull. }
  split.
  { apply mapM_Forall2 in Hcells.
    eapply Forall2_impl; [|exact Hcells].
    intros t cell Hc. apply population_cell_inv. exact Hc. }
  split; [apply sort_full_sorted|].
  split; [apply soc_In|].
  split; [intros soc; apply sort_full_sorted|].
  split; [apply terms_of_In|].
  intros trt soc term Hno. rewrite participants_none by assumption.
  reflexivity.
Qed.

Lemma C8_witness :
  (forall r, In r sample.adae ->
             safety.AEDECOD r <> None /\ safety.AEBODSYS r <> None)
  /\ safety.create_ae_by_soc_table sample.adae sample.pop_counts sample.arms
     = Ok sample.ae_by_soc_table
  /\ exists (population_cells socs : list string),
      Polars.body sample.ae_by_soc_table
      = (Some "Participants in population" :: map Some population_cells)
          :: repeat (Some "") (length sample.arms + 1)
          :: flat_map (soc_block sample.adae sample.arms) socs
      /\ StronglySorted string_lt socs.
Proof.
  assert (Hfull : forall r, In r sample.adae ->
                    safety.AEDECOD r <> None /\ safety.AEBODSYS r <> None).
  { intros r Hr. simpl in Hr.
    repeat (destruct Hr as [<- | Hr]; [split; discriminate|]).
    contradiction. }
  assert (Htbl : safety.create_ae_by_soc_table
                   sample.adae sample.pop_counts sample.arms
                 = Ok sample.ae_by_soc_table) by reflexivity.
  split; [exact Hfull|]. split; [exact Htbl|].
  destruct (@C8_ae_by_soc_table_structure _ _ _ _ Hfull Htbl)
    as (population_cells & socs & Hbody & _ & Hsorted & _).
  exists population_cells, socs. auto.
Defined.

(* ================================================================== *)
(** ** Further properties: shared lemmas *)

Lemma filter_map_comm {A B} (f : A -> B) (p : B -> bool) (l : list A) :
  filter p (map f l) = map f (filter (fun x => p (f x)) l).
Proof.
  induction l as [|x l IH]; simpl; [reflexivity|].
  destruct (p (f x)); simpl; rewrite IH; reflexivity.
Qed.

(** A join that pairs every row with one row or none. *)
Lemma flat_map_optional {A B} (f : A -> list B) (p : A -> bool) (g : A -> B)
    (l : list A) :
  (forall a, In a l -> f a = if p a then [g a] else []) ->
  flat_map f l = map g (filter p l).
Proof.
  induction l as [|a l IH]; intros Hf; simpl; [reflexivity|].
  rewrite (Hf a (or_introl eq_refl)), IH
    by (intros b Hb; apply Hf; right; assumption).
  destruct (p a); reflexivity.
Qed.

(** The first exception of a comprehension: when every exception of the
    body is [e], and the body raises on some element, the comprehension
    raises [e]. *)
Lemma mapM_raises {A B} (f : A -> Result B) (l : list A) (e : PyError) :
  (forall a e', f a = Raise e' -> e' = e) ->
  (exists a, In a l /\ exists e', f a = Raise e') ->
  mapM f l = Raise e.
Proof.
  intros Honly (a & Hin & e' & Ha).
  induction l as [|x l IH]; [destruct Hin|]. simpl.
  destruct (f x) as [b|e1] eqn:Hx; simpl.
  - destruct Hin as [-> | Hin]; [congruence|].
    rewrite (IH Hin). reflexivity.
  - f_equal. eapply Honly. eassumption.
Qed.

Lemma mapM_all_ok {A B} (f : A -> Result B) (l : list A) :
  (forall a, In a l -> exists b, f a = Ok b) ->
  exists bs, mapM f l = Ok bs.
Proof.
  induction l as [|x l IH]; intros Hok; simpl; [eauto|].
  destruct (Hok x (or_introl eq_refl)) as [b ->]. simpl.
  destruct IH as [bs ->]; [intros a Ha; apply Hok; right; assumption|].
  simpl. eauto.
Qed.

Lemma mapM_raise_inv {A B} (f : A -> Result B) (l : list A) (e : PyError) :
  mapM f l = Raise e -> exists a, In a l /\ f a = Raise e.
Proof.
  induction l as [|x l IH]; simpl; [discriminate|].
  destruct (f x) as [b|e1] eqn:Hx; simpl.
  - destruct (mapM f l) as [bs|e2]; simpl; [discriminate|].
    intros [= <-]. destruct (IH eq_refl) as (a & Ha & Hfa). eauto.
  - intros [= <-]. eauto.
Qed.

Section Partition.
Context {R K : Type} `{EqbLaws K}.
Variable key : R -> K.

Lemma indicator_sum (k0 : K) (ks : list K) :
  NoDup ks -> In k0 ks ->
  list_sum (map (fun k => if eqb k0 k then 1 else 0)%nat ks) = 1%nat.
Proof.
  induction 1 as [|k ks Hnotin Hnd IH]; intros Hin; [destruct Hin|]. simpl.
  destruct (eqb_spec k0 k) as [->|Hne].
  - f_equal. clear IH Hin.
    induction ks as [|k' ks IH]; [reflexivity|]. simpl.
    destruct (eqb_spec k k') as [->|_].
    + exfalso. apply Hnotin. left. reflexivity.
    + apply IH.
      * intros Hin. apply Hnotin. right. assumption.
      * inversion Hnd. assumption.
  - apply IH. destruct Hin as [->|Hin]; [contradiction | assumption].
Qed.

(** The groups of a frame partition its rows: their sizes add up to the
    height of the frame. *)
Lemma group_sizes_sum (ks : list K) (l : list R) :
  NoDup ks -> (forall r, In r l -> In (key r) ks) ->
  list_sum (map (fun k => length (filter (fun r => eqb (key r) k) l)) ks)
  = length l.
Proof.
  intros Hnd. induction l as [|x l IH]; intros Hin.
  - simpl. clear. induction ks as [|k ks IHk]; [reflexivity|]. simpl.
    exact IHk.
  - assert (Hstep :
              list_sum
                (map (fun k =>
                        length (filter (fun r => eqb (key r) k) (x :: l)))
                     ks)
              = (list_sum (map (fun k => if eqb (key x) k then 1 else 0) ks)
                 + list_sum
                     (map (fun k => length (filter (fun r => eqb (key r) k) l))
                          ks))%nat).
    { clear. unfold list_sum. induction ks as [|k ks IHk]; [reflexivity|].
      cbn [map fold_right]. rewrite IHk. cbn [filter].
      destruct (eqb (key x) k); simpl; lia. }
    rewrite Hstep, IH by (intros r Hr; apply Hin; right; assumption).
    rewrite (@indicator_sum (key x) ks Hnd (Hin x (or_introl eq_refl))).
    reflexivity.
Qed.

Lemma unique_sizes_sum (l : list R) :
  list_sum (map (fun k => length (filter (fun r => eqb (key r) k) l))
                (Polars.unique (map key l)))
  = length l.
Proof.
  apply group_sizes_sum; [apply unique_NoDup|].
  intros r Hr. rewrite unique_In. apply in_map. assumption.
Qed.

End Partition.

(** Looking a treatment up in a frame with one row per treatment cell. *)
Lemma get_value_keyed (F : option string -> option string)
    (keys : list (option string)) (t : string) :
  NoDup keys ->
  baseline.get_value (map (fun k => (k, F k)) keys) t
  = if existsb (fun k => Polars.eq_lit k t) keys then F (Some t)
    else Some baseline.sentinel.
Proof.
  intros Hnd. unfold baseline.get_value.
  rewrite (filter_map_keyed (fun k => (k, F k))
             (fun r : option string * option string =>
                Polars.eq_lit (fst r) t) (k0 := Some t) Hnd).
  - cbn [fst]. destruct (existsb _ keys); reflexivity.
  - intros k. cbn [fst]. apply eq_lit_true_iff.
Qed.

Lemma existsb_eq_lit (keys : list (option string)) (t : string) :
  existsb (fun k => Polars.eq_lit k t) keys = true <-> In (Some t) keys.
Proof.
  rewrite existsb_exists. split.
  - intros (k & Hk & He). apply eq_lit_true_iff in He. congruence.
  - intros Hin. exists (Some t). split; [assumption|].
    apply eq_lit_true_iff. reflexivity.
Qed.

(* ================================================================== *)
(** ** Further properties of baseline.py: continuous variables *)

(** X1.  [get_value] reads the first row of the requested treatment:
    rows of other treatments and rows with a null treatment before it
    are passed over, and rows after it are not read. *)
Theorem X1_get_value_first_match
    (before_rows after_rows : list (option string * option string))
    (treatment : string) (value : option string) :
  (forall r, In r before_rows -> fst r <> Some treatment) ->
  baseline.get_value
    (before_rows ++ (Some treatment, value) :: after_rows) treatment
  = value.
Proof.
  intros Hno. unfold baseline.get_value. rewrite filter_app.
  replace (filter _ before_rows)
    with (@nil (option string * option string)).
  - simpl. rewrite eqb_refl. reflexivity.
  - symmetry. apply filter_nil_iff. intros r Hr.
    destruct (Polars.eq_lit (fst r) treatment) eqn:He; [|reflexivity].
    apply eq_lit_true_iff in He. exfalso. exact (Hno r Hr He).
Qed.

Lemma X1_witness :
  (forall r, In r [(None, Some "9 (9.0%)"); (Some "Drug", Some "1 (50.0%)")] ->
             fst r <> Some "Placebo")
  /\ baseline.get_value
       ([(None, Some "9 (9.0%)"); (Some "Drug", Some "1 (50.0%)")]
          ++ (Some "Placebo", Some "2 (40.0%)")
          :: [(Some "Placebo", Some "3 (60.0%)")])
       "Placebo"
     = Some "2 (40.0%)".
Proof.
  assert (Hno : forall r : option string * option string,
             In r [(None, Some "9 (9.0%)"); (Some "Drug", Some "1 (50.0%)")] ->
             fst r <> Some "Placebo").
  { intros r [<- | [<- | []]]; discriminate. }
  split; [exact Hno|].
  exact (X1_get_value_first_match _ _ _ Hno).
Defined.

Section ContinuousStats.
Import baseline.
Variable adsl : SubjectFrame.
Variable var : string.
Variable cells : list (option Z).
Hypothesis Hcolumn : column adsl var = Ok (IntSeries cells).

Lemma summarize_continuous_keyed :
  summarize_continuous adsl var
  = Ok (map (continuous_stat (TRT01P adsl) cells)
            (Polars.unique (map fst (combine (TRT01P adsl) cells)))).
Proof.
  unfold summarize_continuous. rewrite Hcolumn. simpl. f_equal.
  unfold Polars.group_by. rewrite map_map. apply map_ext. intros k.
  unfold continuous_stat, group_cells. simpl. rewrite length_map.
  reflexivity.
Qed.

(** The frames that [get_value] reads in the continuous block have one
    row per treatment cell. *)
Lemma mean_sd_frame_keyed :
  mean_sd_frame
    (format_continuous_stats
       (map (continuous_stat (TRT01P adsl) cells)
            (Polars.unique (map fst (combine (TRT01P adsl) cells)))))
  = map (fun k =>
           (k, format_mean_sd
                 (Polars.agg_mean_round1 (group_cells (TRT01P adsl) cells k))
                 (Polars.agg_std_round2 (group_cells (TRT01P adsl) cells k))))
        (Polars.unique (map fst (combine (TRT01P adsl) cells))).
Proof.
  unfold mean_sd_frame, format_continuous_stats. rewrite !map_map.
  reflexivity.
Qed.

Lemma median_range_frame_keyed :
  median_range_frame
    (format_continuous_stats
       (map (continuous_stat (TRT01P adsl) cells)
            (Polars.unique (map fst (combine (TRT01P adsl) cells)))))
  = map (fun k =>
           (k, format_median_range
                 (Polars.agg_median (group_cells (TRT01P adsl) cells k))
                 (Polars.agg_min (group_cells (TRT01P adsl) cells k))
                 (Polars.agg_max (group_cells (TRT01P adsl) cells k))))
        (Polars.unique (map fst (combine (TRT01P adsl) cells))).
Proof.
  unfold median_range_frame, format_continuous_stats. rewrite !map_map.
  reflexivity.
Qed.

Lemma treated_exists (t : string) :
  In (Some t) (map fst (combine (TRT01P adsl) cells)) ->
  existsb (fun k => Polars.eq_lit k t)
          (Polars.unique (map fst (combine (TRT01P adsl) cells))) = true.
Proof.
  intros Hin. apply existsb_eq_lit. rewrite unique_In. assumption.
Qed.

End ContinuousStats.

Lemma group_cells_nonempty {V} (trt : list (option string)) (cells : list V)
    (t : option string) :
  In t (map fst (combine trt cells)) -> group_cells trt cells t <> [].
Proof.
  intros Hin. apply in_map_iff in Hin. destruct Hin as (r & <- & Hr).
  unfold group_cells. intros Hnil. apply map_eq_nil in Hnil.
  assert (Hf : In r (filter (fun r' => eqb (fst r') (fst r))
                            (combine trt cells))).
  { apply filter_In. split; [assumption | apply eqb_refl]. }
  rewrite Hnil in Hf. destruct Hf.
Qed.

(** X2.  [summarize_continuous] on an integer column returns one row
    per distinct treatment cell of the frame (null included, as a group
    of its own); [n] is the size of the group, at least 1, and the
    sizes add up to the height of the frame. *)
Theorem X2_summarize_continuous_groups
    (adsl : baseline.SubjectFrame) (var : string) (cells : list (option Z)) :
  baseline.column adsl var = Ok (baseline.IntSeries cells) ->
  exists stats,
    baseline.summarize_continuous adsl var = Ok stats
    /\ NoDup (map baseline.cs_TRT01P stats)
    /\ (forall t, In t (map baseline.cs_TRT01P stats)
                  <-> In t (map fst (combine (baseline.TRT01P adsl) cells)))
    /\ (forall s, In s stats ->
          baseline.cs_n s
          = N.of_nat (length (group_cells (baseline.TRT01P adsl) cells
                                          (baseline.cs_TRT01P s)))
          /\ (1 <= baseline.cs_n s)%N)
    /\ list_sum (map (fun s => N.to_nat (baseline.cs_n s)) stats)
       = length (combine (baseline.TRT01P adsl) cells).
Proof.
  intros Hcolumn. eexists. split; [apply summarize_continuous_keyed; eassumption|].
  set (rows := combine (baseline.TRT01P adsl) cells).
  assert (Hkeys : map baseline.cs_TRT01P
                      (map (continuous_stat (baseline.TRT01P adsl) cells)
                           (Polars.unique (map fst rows)))
                  = Polars.unique (map fst rows)).
  { rewrite map_map. simpl. apply map_id. }
  split; [rewrite Hkeys; apply unique_NoDup|].
  split; [intros t; rewrite Hkeys; apply unique_In|].
  split.
  - intros s Hs. apply in_map_iff in Hs. destruct Hs as (k & <- & Hk).
    simpl. split; [reflexivity|].
    rewrite unique_In in Hk.
    pose proof (group_cells_nonempty _ _ _ Hk) as Hne.
    destruct (group_cells (baseline.TRT01P adsl) cells k); [contradiction|].
    simpl. lia.
  - rewrite map_map. simpl.
    rewrite <- (unique_sizes_sum (fun r : option string * option Z => fst r)
                                 rows).
    f_equal. apply map_ext. intros k. rewrite Nat2N.id.
    unfold group_cells. apply length_map.
Qed.

Lemma X2_witness :
  baseline.column sample.adsl "AGE"
  = Ok (baseline.IntSeries
          [Some 30%Z; Some 50%Z; Some 40%Z; Some 61%Z; Some 45%Z; Some 47%Z;
           Some 52%Z])
  /\ exists stats,
      baseline.summarize_continuous sample.adsl "AGE" = Ok stats
      /\ NoDup (map baseline.cs_TRT01P stats)
      /\ list_sum (map (fun s => N.to_nat (baseline.cs_n s)) stats) = 7%nat.
Proof.
  assert (Hcolumn : baseline.column sample.adsl "AGE"
                    = Ok (baseline.IntSeries
                            [Some 30%Z; Some 50%Z; Some 40%Z; Some 61%Z;
                             Some 45%Z; Some 47%Z; Some 52%Z]))
    by reflexivity.
  split; [exact Hcolumn|].
  destruct (X2_summarize_continuous_groups _ _ Hcolumn)
    as (stats & Hstats & Hnd & _ & _ & Hsum).
  exists stats. auto.
Defined.

(** *** The statistics of a group *)

Lemma minimum_spec (xs : list Z) (lo : Z) :
  Polars.minimum xs = Some lo ->
  In lo xs /\ (forall v, In v xs -> (lo <= v)%Z).
Proof.
  destruct xs as [|x xs]; simpl; [discriminate|]. intros [= <-].
  induction xs as [|y xs [IHin IHle]]; simpl.
  - split; [auto|]. intros v [Hv | []]. lia.
  - split.
    + destruct (Z.min_spec y (fold_right Z.min x xs)) as [[_ ->] | [_ ->]].
      * auto.
      * destruct IHin as [Hx | Hin]; auto.
    + intros v [Hv | [Hv | Hv]].
      * subst v. specialize (IHle x (or_introl eq_refl)). lia.
      * subst v. lia.
      * specialize (IHle v (or_intror Hv)). lia.
Qed.

Lemma maximum_spec (xs : list Z) (hi : Z) :
  Polars.maximum xs = Some hi ->
  In hi xs /\ (forall v, In v xs -> (v <= hi)%Z).
Proof.
  destruct xs as [|x xs]; simpl; [discriminate|]. intros [= <-].
  induction xs as [|y xs [IHin IHle]]; simpl.
  - split; [auto|]. intros v [Hv | []]. lia.
  - split.
    + destruct (Z.max_spec y (fold_right Z.max x xs)) as [[_ ->] | [_ ->]].
      * destruct IHin as [Hx | Hin]; auto.
      * auto.
    + intros v [Hv | [Hv | Hv]].
      * subst v. specialize (IHle x (or_introl eq_refl)). lia.
      * subst v. lia.
      * specialize (IHle v (or_intror Hv)). lia.
Qed.

Lemma insert_Z_perm (x : Z) (l : list Z) :
  Permutation (Polars.insert_Z x l) (x :: l).
Proof.
  induction l as [|y l IH]; simpl; [reflexivity|].
  destruct (x <=? y)%Z; [reflexivity|].
  rewrite IH. apply perm_swap.
Qed.

Lemma sort_Z_perm (l : list Z) : Permutation (Polars.sort_Z l) l.
Proof.
  induction l as [|x l IH]; simpl; [reflexivity|].
  unfold Polars.sort_Z in *. simpl.
  rewrite insert_Z_perm. apply perm_skip. exact IH.
Qed.

Lemma centi_half_sum (a b : Z) :
  centi (Polars.half_sum a b) = (50 * (a + b))%Z.
Proof.
  unfold Polars.half_sum, centi.
  rewrite N2Z.inj_mul, N2Z.inj_abs_N. simpl Z.of_N.
  destruct (Z.ltb_spec (a + b) 0); lia.
Qed.

(** The median of a non-empty group lies between two of its values. *)
Lemma median_of_between (xs : list Z) :
  xs <> [] ->
  exists a b, In a xs /\ In b xs
              /\ centi (Polars.median_of xs) = (50 * (a + b))%Z.
Proof.
  intros Hne. unfold Polars.median_of.
  set (s := Polars.sort_Z xs).
  assert (Hlen : (0 < length s)%nat).
  { unfold s. rewrite (Permutation_length (sort_Z_perm xs)).
    destruct xs; [contradiction | simpl; lia]. }
  assert (Hhalf : (length s / 2 < length s)%nat)
    by (apply Nat.div_lt; lia).
  assert (Hin : forall i, (i < length s)%nat -> In (nth i s 0%Z) xs).
  { intros i Hi. apply (Permutation_in _ (sort_Z_perm xs)).
    apply nth_In. exact Hi. }
  destruct (Nat.even (length s)).
  - exists (nth (length s / 2 - 1) s 0%Z), (nth (length s / 2) s 0%Z).
    split; [apply Hin; lia|]. split; [apply Hin; lia|].
    apply centi_half_sum.
  - exists (nth (length s / 2) s 0%Z), (nth (length s / 2) s 0%Z).
    split; [apply Hin; lia|]. split; [apply Hin; lia|].
    apply centi_half_sum.
Qed.

(** X3.  In a row of [summarize_continuous] the statistics are those
    of the non-null values of the group: with no such value, mean, sd,
    median, min and max are all null; otherwise min and max are values
    of the group that bound every value, and the mean and the median
    are not null.  Where the values are of magnitude at most [2^52],
    so that the Float64 median is exact, the median lies between min
    and max.  The standard deviation is null exactly when the group
    has fewer than two non-null values. *)
Theorem X3_summarize_continuous_statistics
    (adsl : baseline.SubjectFrame) (var : string) (cells : list (option Z))
    (stats : list baseline.ContinuousStats) (s : baseline.ContinuousStats) :
  baseline.column adsl var = Ok (baseline.IntSeries cells) ->
  baseline.summarize_continuous adsl var = Ok stats ->
  In s stats ->
  let values :=
    Polars.drop_nulls
      (group_cells (baseline.TRT01P adsl) cells (baseline.cs_TRT01P s)) in
  (values = [] ->
   baseline.cs_mean s = None /\ baseline.cs_median s = None
   /\ baseline.cs_min s = None /\ baseline.cs_max s = None)
  /\ (values <> [] ->
      exists lo hi md,
        baseline.cs_min s = Some lo /\ baseline.cs_max s = Some hi
        /\ baseline.cs_median s = Some md
        /\ In lo values /\ In hi values
        /\ (forall v, In v values -> (lo <= v <= hi)%Z)
        /\ ((forall v, In v values -> (Z.abs v <= 2 ^ 52)%Z) ->
            (100 * lo <= centi md <= 100 * hi)%Z)
        /\ baseline.cs_mean s <> None)
  /\ (baseline.cs_sd s = None <-> (length values < 2)%nat).
Proof.
  intros Hcolumn Hstats Hs.
  rewrite (summarize_continuous_keyed _ _ Hcolumn) in Hstats.
  injection Hstats as <-. apply in_map_iff in Hs.
  destruct Hs as (k & <- & _).
  cbn [baseline.cs_TRT01P baseline.cs_mean baseline.cs_sd baseline.cs_median
       baseline.cs_min baseline.cs_max continuous_stat].
  unfold Polars.agg_mean_round1, Polars.agg_median, Polars.agg_min,
    Polars.agg_max, Polars.agg_std_round2.
  generalize (Polars.drop_nulls
                (group_cells (baseline.TRT01P adsl) cells k)).
  intros values. cbv zeta.
  split; [|split].
  - intros ->. simpl. auto.
  - intros Hne.
    destruct (Polars.minimum values) as [lo|] eqn:Hmin;
      [|destruct values; [contradiction | discriminate]].
    destruct (Polars.maximum values) as [hi|] eqn:Hmax;
      [|destruct values; [contradiction | discriminate]].
    destruct (minimum_spec _ Hmin) as [Hlo_in Hlo].
    destruct (maximum_spec _ Hmax) as [Hhi_in Hhi].
    destruct (median_of_between Hne) as (a & b & Ha & Hb & Hmd).
    exists lo, hi, (Polars.median_of values).
    split; [reflexivity|]. split; [reflexivity|].
    split; [destruct values; [contradiction | reflexivity]|].
    split; [assumption|]. split; [assumption|].
    split; [intros v Hv; split; [apply Hlo | apply Hhi]; assumption|].
    split.
    + intros _. rewrite Hmd.
      pose proof (Hlo a Ha). pose proof (Hlo b Hb).
      pose proof (Hhi a Ha). pose proof (Hhi b Hb). lia.
    + destruct values; [contradiction | discriminate].
  - destruct values as [|v0 [|v1 vs]]; simpl; split; intros Hx;
      try reflexivity; try lia; discriminate.
Qed.

Lemma X3_witness :
  exists s,
    In s [continuous_stat (baseline.TRT01P sample.scenario_A)
                          [Some 30%Z; Some 40%Z; Some 50%Z] (Some "Drug")]
    /\ baseline.cs_min s = Some 50%Z
    /\ baseline.cs_max s = Some 50%Z
    /\ baseline.cs_sd s = None.
Proof.
  exists (continuous_stat (baseline.TRT01P sample.scenario_A)
                          [Some 30%Z; Some 40%Z; Some 50%Z] (Some "Drug")).
  split; [left; reflexivity|].
  assert (Hcolumn : baseline.column sample.scenario_A "AGE"
                    = Ok (baseline.IntSeries
                            [Some 30%Z; Some 40%Z; Some 50%Z]))
    by reflexivity.
  assert (Hin : In (continuous_stat (baseline.TRT01P sample.scenario_A)
                                    [Some 30%Z; Some 40%Z; Some 50%Z]
                                    (Some "Drug"))
                   [continuous_stat (baseline.TRT01P sample.scenario_A)
                                    [Some 30%Z; Some 40%Z; Some 50%Z]
                                    (Some "Placebo");
                    continuous_stat (baseline.TRT01P sample.scenario_A)
                                    [Some 30%Z; Some 40%Z; Some 50%Z]
                                    (Some "Drug")])
    by (right; left; reflexivity).
  destruct (X3_summarize_continuous_statistics
              sample.scenario_A "AGE" _ Hcolumn eq_refl Hin)
    as (_ & _ & Hsd).
  split; [reflexivity|]. split; [reflexivity|].
  apply Hsd. simpl. lia.
Defined.

Lemma in_combine_map {A B} (f : A -> B) (l : list A) (a : A) :
  In a l -> In (a, f a) (combine l (map f l)).
Proof.
  induction l as [|x l IH]; simpl; [tauto|].
  intros [-> | Hin]; [left; reflexivity | right; auto].
Qed.

(** X4.  For a treatment that has rows in the frame, the continuous
    block looks up the statistics of that treatment's own cells:
    [summarize_continuous] has exactly one row for the treatment, whose
    [n], [min] and [max] are those of the treatment's cells, and
    [get_value] returns the [mean_sd] and the [median_range] text of the
    row that [format_continuous_stats] makes of it.  The [mean_sd] text
    is null exactly when the treatment has fewer than two non-null
    values, the [median_range] text exactly when it has none. *)
Theorem X4_continuous_lookup
    (adsl : baseline.SubjectFrame) (var : string) (cells : list (option Z))
    (t : string) :
  baseline.column adsl var = Ok (baseline.IntSeries cells) ->
  In (Some t) (map fst (combine (baseline.TRT01P adsl) cells)) ->
  let own := group_cells (baseline.TRT01P adsl) cells (Some t) in
  exists stats s f,
    baseline.summarize_continuous adsl var = Ok stats
    /\ In (s, f) (combine stats (baseline.format_continuous_stats stats))
    /\ baseline.cs_TRT01P s = Some t
    /\ baseline.cf_TRT01P f = Some t
    /\ (forall s', In s' stats -> baseline.cs_TRT01P s' = Some t -> s' = s)
    /\ baseline.cs_n s = N.of_nat (length own)
    /\ baseline.cs_min s = Polars.minimum (Polars.drop_nulls own)
    /\ baseline.cs_max s = Polars.maximum (Polars.drop_nulls own)
    /\ baseline.get_value
         (mean_sd_frame (baseline.format_continuous_stats stats)) t
       = baseline.cf_mean_sd f
    /\ baseline.get_value
         (median_range_frame (baseline.format_continuous_stats stats)) t
       = baseline.cf_median_range f
    /\ (baseline.cf_mean_sd f = None
        <-> (length (Polars.drop_nulls own) < 2)%nat)
    /\ (baseline.cf_median_range f = None <-> Polars.drop_nulls own = []).
Proof.
  intros Hcolumn Hin. cbv zeta.
  set (trt := baseline.TRT01P adsl).
  set (keys := Polars.unique (map fst (combine trt cells))).
  exists (map (continuous_stat trt cells) keys),
         (continuous_stat trt cells (Some t)).
  eexists.
  split; [apply summarize_continuous_keyed; assumption|].
  split.
  { apply in_combine_map. apply in_map. apply unique_In. exact Hin. }
  split; [reflexivity|]. split; [reflexivity|]. split.
  { intros s' Hs' Ht. apply in_map_iff in Hs'.
    destruct Hs' as (k & <- & _). simpl in Ht. subst k. reflexivity. }
  split; [reflexivity|]. split; [reflexivity|]. split; [reflexivity|].
  unfold trt, keys. rewrite mean_sd_frame_keyed, median_range_frame_keyed.
  rewrite !get_value_keyed by apply unique_NoDup.
  rewrite (treated_exists _ _ _ Hin).
  split; [reflexivity|]. split; [reflexivity|].
  cbn [baseline.cf_mean_sd baseline.cf_median_range continuous_stat
       baseline.cs_mean baseline.cs_sd baseline.cs_median baseline.cs_min
       baseline.cs_max].
  unfold Polars.agg_mean_round1, Polars.agg_std_round2, Polars.agg_median,
    Polars.agg_min, Polars.agg_max.
  destruct (Polars.drop_nulls _) as [|v0 [|v1 vs]]; simpl;
    repeat split; intros Hx; try reflexivity; try lia; discriminate.
Qed.

Lemma X4_witness :
  baseline.column sample.scenario_A "AGE"
  = Ok (baseline.IntSeries [Some 30%Z; Some 40%Z; Some 50%Z])
  /\ In (Some "Placebo")
        (map fst (combine (baseline.TRT01P sample.scenario_A)
                          [Some 30%Z; Some 40%Z; Some 50%Z]))
  /\ exists stats,
      baseline.summarize_continuous sample.scenario_A "AGE" = Ok stats
      /\ baseline.get_value
           (mean_sd_frame (baseline.format_continuous_stats stats)) "Placebo"
         <> None.
Proof.
  assert (Hcolumn : baseline.column sample.scenario_A "AGE"
                    = Ok (baseline.IntSeries
                            [Some 30%Z; Some 40%Z; Some 50%Z]))
    by reflexivity.
  assert (Hin : In (Some "Placebo")
                   (map fst (combine (baseline.TRT01P sample.scenario_A)
                                     [Some 30%Z; Some 40%Z; Some 50%Z])))
    by (left; reflexivity).
  split; [exact Hcolumn|]. split; [exact Hin|].
  destruct (@X4_continuous_lookup sample.scenario_A "AGE" _ "Placebo"
              Hcolumn Hin)
    as (stats & s & f & Hstats & _ & _ & _ & _ & _ & _ & _ & Hmean & _
        & Hnull & _).
  exists stats. split; [exact Hstats|].
  rewrite Hmean. intros Hnone. apply Hnull in Hnone.
  simpl in Hnone. lia.
Defined.

Lemma replace_method_raises (x : option string) (old new : string)
    (e : PyError) :
  Py.replace_method x old new = Raise e -> e = AttributeError.
Proof. destruct x; simpl; [discriminate | congruence]. Qed.

(** X5.  [create_baseline_table] raises [AttributeError] when a
    requested treatment has rows in the frame but fewer than two
    non-null values of the first continuous variable: the standard
    deviation of the group is null, so its [mean_sd] text is null and
    [None.replace] fails.  A group of one subject is such a group. *)
Theorem X5_small_group_raises_attribute_error {E : Polars.Engine}
    (adsl : baseline.SubjectFrame) (var : string) (cells : list (option Z))
    (continuous_vars categorical_vars treatments : list string)
    (t : string) :
  baseline.column adsl var = Ok (baseline.IntSeries cells) ->
  In t treatments ->
  In (Some t) (map fst (combine (baseline.TRT01P adsl) cells)) ->
  (length (Polars.drop_nulls
             (group_cells (baseline.TRT01P adsl) cells (Some t))) < 2)%nat ->
  baseline.create_baseline_table adsl (var :: continuous_vars)
                                 categorical_vars treatments
  = Raise AttributeError.
Proof.
  intros Hcolumn Ht Hin Hsmall.
  unfold baseline.create_baseline_table. cbn [for_each].
  assert (Hraise : baseline.process_continuous adsl treatments [] var
                   = Raise AttributeError).
  { unfold baseline.process_continuous.
    rewrite (summarize_continuous_keyed _ _ Hcolumn). cbn [bind].
    match goal with
    | |- bind (mapM ?f treatments) _ = _ =>
        assert (Hmean : mapM f treatments = Raise AttributeError)
    end.
    { apply mapM_raises.
      - intros a e'. apply replace_method_raises.
      - exists t. split; [assumption|]. exists AttributeError.
        change (map (fun r => (baseline.cf_TRT01P r, baseline.cf_mean_sd r))
                    ?vf)
          with (mean_sd_frame vf).
        rewrite mean_sd_frame_keyed.
        rewrite get_value_keyed by apply unique_NoDup.
        rewrite (treated_exists _ _ _ Hin).
        unfold Polars.agg_std_round2.
        destruct (Polars.drop_nulls _) as [|v0 [|v1 vs]];
          [| |simpl in Hsmall; lia];
          destruct (Polars.agg_mean_round1 _); reflexivity. }
    rewrite Hmean. reflexivity. }
  rewrite Hraise. reflexivity.
Qed.

Lemma X5_witness :
  baseline.column sample.scenario_A "AGE"
  = Ok (baseline.IntSeries [Some 30%Z; Some 40%Z; Some 50%Z])
  /\ In "Drug" ["Placebo"; "Drug"; "High"]
  /\ baseline.create_baseline_table (E := Polars.left_order) sample.scenario_A ["AGE"] []
                                    ["Placebo"; "Drug"; "High"]
     = Raise AttributeError.
Proof.
  assert (Hcolumn : baseline.column sample.scenario_A "AGE"
                    = Ok (baseline.IntSeries
                            [Some 30%Z; Some 40%Z; Some 50%Z]))
    by reflexivity.
  assert (Ht : In "Drug" ["Placebo"; "Drug"; "High"])
    by (right; left; reflexivity).
  split; [exact Hcolumn|]. split; [exact Ht|].
  refine (@X5_small_group_raises_attribute_error Polars.left_order
            sample.scenario_A "AGE" _ [] [] ["Placebo"; "Drug"; "High"]
            "Drug" Hcolumn Ht _ _).
  - right. right. left. reflexivity.
  - simpl. lia.
Defined.

Lemma column_missing (adsl : baseline.SubjectFrame) (var : string) :
  var <> "TRT01P" ->
  ~ In var (map fst (baseline.columns adsl)) ->
  baseline.column adsl var = Raise (ColumnNotFoundError var).
Proof.
  intros Hvar Hno. unfold baseline.column.
  destruct (find _ (baseline.columns adsl)) as [c|] eqn:Hf;
    [|destruct (eqb_spec var "TRT01P"); [contradiction | reflexivity]].
  exfalso. apply find_some in Hf. destruct Hf as [Hin Heq].
  apply eqb_true_iff in Heq. apply Hno. rewrite <- Heq.
  apply in_map. assumption.
Qed.

(** X6.  A requested variable that is not a column of the frame
    (neither the treatment column TRT01P nor one of the others) is an
    error: when the first variable that [create_baseline_table]
    processes is missing, the call raises [ColumnNotFoundError] with
    its name, whatever the treatments are. *)
Theorem X6_missing_variable_raises {E : Polars.Engine}
    (adsl : baseline.SubjectFrame) (var : string)
    (continuous_vars categorical_vars treatments : list string) :
  var <> "TRT01P" ->
  ~ In var (map fst (baseline.columns adsl)) ->
  baseline.summarize_continuous adsl var = Raise (ColumnNotFoundError var)
  /\ baseline.summarize_categorical adsl var
     = Raise (ColumnNotFoundError var)
  /\ baseline.create_baseline_table adsl (var :: continuous_vars)
                                    categorical_vars treatments
     = Raise (ColumnNotFoundError var)
  /\ baseline.create_baseline_table adsl [] (var :: categorical_vars)
                                    treatments
     = Raise (ColumnNotFoundError var).
Proof.
  intros Hvar Hno. pose proof (@column_missing adsl var Hvar Hno) as Hcol.
  assert (Hc : baseline.summarize_continuous adsl var
               = Raise (ColumnNotFoundError var)).
  { unfold baseline.summarize_continuous. rewrite Hcol. reflexivity. }
  assert (Hg : baseline.summarize_categorical adsl var
               = Raise (ColumnNotFoundError var)).
  { unfold baseline.summarize_categorical. rewrite Hcol. reflexivity. }
  split; [exact Hc|]. split; [exact Hg|]. split.
  - unfold baseline.create_baseline_table. cbn [for_each].
    unfold baseline.process_continuous. rewrite Hc. reflexivity.
  - unfold baseline.create_baseline_table. cbn [for_each bind].
    unfold baseline.process_categorical. rewrite Hg. reflexivity.
Qed.

Lemma X6_witness :
  "WEIGHT" <> "TRT01P"
  /\ ~ In "WEIGHT" (map fst (baseline.columns sample.adsl))
  /\ baseline.create_baseline_table (E := Polars.left_order) sample.adsl ["WEIGHT"; "AGE"] ["SEX"]
                                    sample.arms
     = Raise (ColumnNotFoundError "WEIGHT").
Proof.
  assert (Hvar : "WEIGHT" <> "TRT01P") by discriminate.
  assert (Hno : ~ In "WEIGHT" (map fst (baseline.columns sample.adsl)))
    by (simpl; intuition discriminate).
  split; [exact Hvar|]. split; [exact Hno|].
  exact (proj1 (proj2 (proj2 (@X6_missing_variable_raises Polars.left_order
                                sample.adsl "WEIGHT" ["AGE"] ["SEX"]
                                sample.arms Hvar Hno)))).
Defined.

(* ================================================================== *)
(** ** Further properties of baseline.py: categorical variables *)

Lemma flat_map_map {A B C} (g : A -> B) (f : B -> list C) (l : list A) :
  flat_map f (map g l) = flat_map (fun x => f (g x)) l.
Proof. induction l as [|x l IH]; simpl; congruence. Qed.

Lemma map_flat_map {A B C} (g : B -> C) (f : A -> list B) (l : list A) :
  map g (flat_map f l) = flat_map (fun x => map g (f x)) l.
Proof.
  induction l as [|x l IH]; simpl; [reflexivity|].
  rewrite map_app, IH. reflexivity.
Qed.

Lemma N_of_nat_le (n m : nat) : (n <= m)%nat -> (N.of_nat n <= N.of_nat m)%N.
Proof. lia. Qed.

Lemma filter_length_le {A} (p q : A -> bool) (l : list A) :
  (forall x, p x = true -> q x = true) ->
  (length (filter p l) <= length (filter q l))%nat.
Proof.
  intros Hpq. induction l as [|x l IH]; simpl; [lia|].
  destruct (p x) eqn:Hp.
  - rewrite (Hpq x Hp). simpl. lia.
  - destruct (q x); simpl; lia.
Qed.

Lemma filter_nonempty {A} (p : A -> bool) (l : list A) (x : A) :
  In x l -> p x = true -> (1 <= length (filter p l))%nat.
Proof.
  intros Hin Hp.
  assert (Hf : In x (filter p l)) by (apply filter_In; auto).
  destruct (filter p l); [destruct Hf | simpl; lia].
Qed.

(** A rounded quotient is within a half of the exact quotient,
    whichever way a half is rounded. *)
Lemma round_div_near (a : N) [b : N] :
  b <> 0%N ->
  (2 * (Polars.round_div a b * b) <= 2 * a + b
   /\ 2 * a <= 2 * (Polars.round_div a b * b) + b)%N.
Proof.
  intros Hb. unfold Polars.round_div. cbv zeta.
  pose proof (N.div_mod a b Hb) as Hdm.
  pose proof (N.mod_lt a b Hb) as Hlt.
  set (q := (a / b)%N) in *. set (r := (a mod b)%N) in *.
  rewrite (N.mul_comm b q) in Hdm.
  destruct (N.ltb_spec (2 * r) b) as [Hsmall|Hge]; [lia|].
  destruct (N.ltb_spec b (2 * r)) as [Hbig|Hle];
    [rewrite N.mul_add_distr_r; lia|].
  destruct (N.even q); [lia | rewrite N.mul_add_distr_r; lia].
Qed.

(** A percentage of a part of a positive total is a decimal between 0.0
    and 100.0. *)
Lemma percent_round1_bounds (n d : N) :
  (0 < d)%N -> (n <= d)%N ->
  exists tenths,
    Polars.percent_round1 n d = Polars.Dec false (10 * tenths)
    /\ (tenths <= 1000)%N.
Proof.
  intros Hd Hn. unfold Polars.percent_round1.
  destruct (N.eqb_spec d 0) as [->|_]; [lia|].
  exists (Polars.round_div (1000 * n) d). split; [reflexivity|].
  assert (Hnz : d <> 0%N) by lia.
  pose proof (round_div_near (1000 * n) Hnz) as [Hlo _]. nia.
Qed.

Lemma percent_round1_of_zero (d : N) :
  d <> 0%N -> Polars.percent_round1 0 d = Polars.Dec false 0.
Proof.
  intros Hd. destruct d as [|p]; [contradiction | reflexivity].
Qed.


Lemma Permutation_filter {A} (p : A -> bool) (l1 l2 : list A) :
  Permutation l1 l2 -> Permutation (filter p l1) (filter p l2).
Proof.
  induction 1 as [|x l1 l2 _ IH|x y l|l1 l2 l3 _ IH1 _ IH2]; simpl.
  - constructor.
  - destruct (p x); [constructor|]; assumption.
  - destruct (p x), (p y); try reflexivity. constructor.
  - eapply Permutation_trans; eassumption.
Qed.

Lemma Permutation_list_sum (l1 l2 : list nat) :
  Permutation l1 l2 -> list_sum l1 = list_sum l2.
Proof.
  induction 1 as [|x l1 l2 _ IH|x y l|l1 l2 l3 _ IH1 _ IH2]; simpl; lia.
Qed.

Section CategoricalStats.
Import baseline.
Context {E : Polars.Engine}.
Variable adsl : SubjectFrame.
Variable var : string.
Variable series : Series.
Hypothesis Hcolumn : column adsl var = Ok series.

Let rows : list (option string * option string) :=
  combine (TRT01P adsl) (category_cells series).

Lemma totals_lookup (t : string) :
  In (Some t) (map fst rows) ->
  filter (fun tt : option string * N => Polars.key_match (Some t) (fst tt))
         (map (fun g => (fst g, N.of_nat (length (snd g))))
              (Polars.group_by fst rows))
  = [(Some t, subjects (TRT01P adsl) (category_cells series) (Some t))].
Proof.
  intros Hin. unfold Polars.group_by. rewrite map_map. cbn [fst snd].
  rewrite (filter_map_keyed
             (fun k => (k, N.of_nat
                             (length (filter (fun r => eqb (fst r) k) rows))))
             (fun tt : option string * N =>
                Polars.key_match (Some t) (fst tt))
             (k0 := Some t)).
  - cbn [fst].
    replace (existsb _ _) with true; [reflexivity|].
    symmetry. apply existsb_exists. exists (Some t).
    split; [rewrite unique_In; assumption|]. simpl. apply eqb_refl.
  - apply unique_NoDup.
  - intros k. cbn [fst]. rewrite key_match_true_iff. split.
    + intros (s & [= <-] & ->). reflexivity.
    + intros ->. eauto.
Qed.

(** The counts joined with the totals, in the order of the counts:
    one row per pair of a named treatment and a category cell. *)
Lemma joined_counts :
  map (fun j : (option string * option string * N) * (option string * N) =>
         let '((trt, cat, len), (_, total)) := j in
         {| ct_TRT01P := trt; ct_var := cat; ct_len := len;
            ct_total := total; ct_pct := Polars.percent_round1 len total |})
      (flat_map
         (fun l : option string * option string * N =>
            map (fun r => (l, r))
                (filter (fun r : option string * N =>
                           Polars.key_match (fst (fst l)) (fst r))
                        (map (fun g => (fst g, N.of_nat (length (snd g))))
                             (Polars.group_by fst rows))))
         (map (fun g => (fst g, N.of_nat (length (snd g))))
              (Polars.group_by (fun r => r) rows)))
  = map (categorical_stat (TRT01P adsl) (category_cells series))
        (filter (fun k => is_some (fst k)) (Polars.unique rows)).
Proof.
  unfold Polars.group_by at 2. rewrite map_id, map_map. cbn [fst snd].
  rewrite map_flat_map, flat_map_map.
  apply flat_map_optional. intros [trt cat] Hk. cbn [fst snd].
  rewrite unique_In in Hk.
  destruct trt as [t|]; cbn [is_some].
  - rewrite totals_lookup
      by (apply in_map_iff; exists (Some t, cat); auto).
    reflexivity.
  - replace (filter _ _) with (@nil (option string * N)); [reflexivity|].
    symmetry. apply filter_nil_iff. reflexivity.
Qed.

(** A returned summary has one row per key, the keys being the pairs
    of a named treatment and a category cell of the frame, each once,
    in the order in which the join returns them. *)
Lemma summarize_categorical_keyed (stats : list CategoricalStats) :
  summarize_categorical adsl var = Ok stats ->
  exists keys,
    stats = map (categorical_stat (TRT01P adsl) (category_cells series)) keys
    /\ Permutation
         (filter (fun k => is_some (fst k)) (Polars.unique rows)) keys
    /\ NoDup keys
    /\ (forall k, In k keys <-> In k rows /\ exists t, fst k = Some t).
Proof.
  unfold summarize_categorical. rewrite Hcolumn. cbn [bind].
  destruct (is_treatment_column adsl var); [discriminate|].
  intros [= <-]. fold rows. unfold Polars.inner_join.
  match goal with
  | |- context [map ?mk (Polars.arrange ?L)] =>
      assert (Hperm : Permutation (map mk (Polars.arrange L)) (map mk L))
        by apply Permutation_map, Polars.arrange_perm
  end.
  rewrite joined_counts in Hperm.
  apply Permutation_map_inv in Hperm.
  destruct Hperm as (keys & Hstats & Hkeys).
  exists keys. split; [exact Hstats|]. split; [exact Hkeys|]. split.
  - apply (Permutation_NoDup Hkeys). apply NoDup_filter, unique_NoDup.
  - intros k. split.
    + intros Hk. apply (Permutation_in _ (Permutation_sym Hkeys)) in Hk.
      apply filter_In in Hk. rewrite unique_In in Hk.
      destruct Hk as [Hin Hs]. split; [exact Hin|].
      destruct (fst k); [eauto | discriminate].
    + intros (Hin & t & Ht). apply (Permutation_in _ Hkeys).
      apply filter_In. rewrite unique_In, Ht. auto.
Qed.

(** The returning case: the variable is not the treatment column. *)
Lemma summarize_categorical_returns :
  is_treatment_column adsl var = false ->
  exists stats, summarize_categorical adsl var = Ok stats.
Proof.
  intros Hvar. unfold summarize_categorical. rewrite Hcolumn. cbn [bind].
  rewrite Hvar. eauto.
Qed.

End CategoricalStats.



(** X8.  The category counts of a treatment add up to its total: over
    the rows of [summarize_categorical] for one treatment, the sum of
    [len] is the number of subjects of the treatment (a null category
    is counted as a category of its own). *)
Theorem X8_category_counts_add_up {E : Polars.Engine}
    (adsl : baseline.SubjectFrame) (var : string) (series : baseline.Series)
    (stats : list baseline.CategoricalStats) (t : string) :
  baseline.column adsl var = Ok series ->
  baseline.summarize_categorical adsl var = Ok stats ->
  list_sum
    (map (fun s => N.to_nat (baseline.ct_len s))
         (filter (fun s => eqb (baseline.ct_TRT01P s) (Some t)) stats))
  = N.to_nat (subjects (baseline.TRT01P adsl)
                       (baseline.category_cells series) (Some t)).
Proof.
  intros Hcolumn Hstats.
  destruct (@summarize_categorical_keyed E adsl var series Hcolumn stats
              Hstats) as (keys' & -> & Hperm & _ & _).
  set (rows := combine (baseline.TRT01P adsl)
                       (baseline.category_cells series)) in *.
  rewrite <- (Permutation_list_sum
                (Permutation_map _
                   (Permutation_filter _
                      (Permutation_map
                         (categorical_stat (baseline.TRT01P adsl)
                            (baseline.category_cells series)) Hperm)))).
  rewrite filter_map_comm, map_map, filter_filter.
  cbn [categorical_stat baseline.ct_TRT01P baseline.ct_len].
  unfold subjects, subjects_in. fold rows. rewrite Nat2N.id.
  set (keys := filter (fun k : option string * option string =>
                         is_some (fst k) && eqb (fst k) (Some t))
                      (Polars.unique rows)).
  set (rows_t := filter (fun r : option string * option string =>
                           eqb (fst r) (Some t)) rows).
  rewrite <- (@group_sizes_sum _ _ _ _ (fun r => r) keys rows_t).
  - f_equal. apply map_ext_in. intros [k1 k2] Hk. rewrite Nat2N.id.
    apply filter_In in Hk. destruct Hk as [_ Hk].
    apply andb_true_iff in Hk. destruct Hk as [_ Hk].
    apply eqb_true_iff in Hk. simpl in Hk. subst k1. cbn [fst snd].
    unfold rows_t. rewrite filter_filter. f_equal.
    apply filter_ext. intros r.
    destruct (eqb_spec r (Some t, k2)) as [->|Hne].
    + cbn [fst]. rewrite eqb_refl. reflexivity.
    + symmetry. apply andb_false_r.
  - apply NoDup_filter, unique_NoDup.
  - intros r Hr. unfold rows_t in Hr. apply filter_In in Hr.
    destruct Hr as [Hr Ht]. apply filter_In. split.
    + rewrite unique_In. assumption.
    + rewrite Ht. apply eqb_true_iff in Ht. rewrite Ht. reflexivity.
Qed.

Lemma X8_witness :
  baseline.column sample.adsl "SEX"
  = Ok (baseline.StrSeries
          [Some "M"; Some "F"; Some "F"; Some "F"; Some "M"; Some "F";
           Some "U"])
  /\ exists stats,
      baseline.summarize_categorical (E := Polars.left_order) sample.adsl "SEX" = Ok stats
      /\ list_sum
           (map (fun s => N.to_nat (baseline.ct_len s))
                (filter (fun s => eqb (baseline.ct_TRT01P s) (Some "Drug"))
                        stats))
         = 2%nat.
Proof.
  assert (Hcolumn : baseline.column sample.adsl "SEX"
                    = Ok (baseline.StrSeries
                            [Some "M"; Some "F"; Some "F"; Some "F";
                             Some "M"; Some "F"; Some "U"]))
    by reflexivity.
  split; [exact Hcolumn|].
  destruct (baseline.summarize_categorical (E := Polars.left_order) sample.adsl "SEX")
    as [stats|e] eqn:Hstats; [|discriminate Hstats].
  exists stats. split; [reflexivity|].
  rewrite (@X8_category_counts_add_up Polars.left_order _ _ _ _ "Drug" Hcolumn Hstats).
  reflexivity.
Defined.




(* ================================================================== *)
(** ** Further properties of safety.py *)

Lemma n_unique_incl {K} `{EqbLaws K} (l1 l2 : list K) :
  incl l1 l2 -> (Polars.n_unique l1 <= Polars.n_unique l2)%N.
Proof.
  intros Hincl. unfold Polars.n_unique. apply N_of_nat_le.
  apply NoDup_incl_length; [apply unique_NoDup|].
  intros x Hx. rewrite unique_In in *. auto.
Qed.

Lemma n_unique_le_length {K} `{EqbLaws K} (l : list K) :
  (Polars.n_unique l <= N.of_nat (length l))%N.
Proof.
  unfold Polars.n_unique. apply N_of_nat_le.
  induction l as [|x l IH]; simpl; [lia|].
  pose proof (filter_length_le
                (fun y => negb (eqb x y)) (fun _ => true) (Polars.unique l)
                (fun _ _ => eq_refl)) as Hf.
  assert (Hall : filter (fun _ : K => true) (Polars.unique l)
                 = Polars.unique l).
  { clear. induction (Polars.unique l); simpl; congruence. }
  rewrite Hall in Hf. lia.
Qed.

Lemma level_count_monotone (df1 df2 : list safety.AeRow)
    (level : option string) :
  incl df1 df2 -> (level_count df1 level <= level_count df2 level)%N.
Proof.
  intros Hincl. destruct level as [t|]; simpl; [|lia].
  apply n_unique_incl. intros u Hu. apply in_map_iff in Hu.
  destruct Hu as (r & <- & Hr). apply filter_In in Hr.
  apply in_map. apply filter_In. destruct Hr. auto.
Qed.

(** X10.  Narrowing the filter of [count_participants] never raises a
    count: when every row that passes one condition passes another,
    the counts under the first are, level by level, at most the counts
    under the second.  Each count is also at most the number of rows of
    the level that pass the filter. *)
Theorem X10_count_participants_monotone
    (df : list safety.AeRow) (levels : list (option string))
    (narrow wide : option safety.Expr) :
  (forall r, In r df -> holds narrow r = true -> holds wide r = true) ->
  Forall2 (fun a b => fst a = fst b /\ (snd a <= snd b)%N)
          (safety.count_participants df levels narrow)
          (safety.count_participants df levels wide)
  /\ (forall level n,
        In (level, n) (safety.count_participants df levels wide) ->
        (n <= N.of_nat
                (length (filter (fun r => eqb (safety.TRT01A r) level
                                          && holds wide r) df)))%N).
Proof.
  intros Himp. rewrite !count_participants_rows. split.
  - induction levels as [|level levels IH]; simpl; constructor; [|exact IH].
    simpl. split; [reflexivity|]. apply level_count_monotone.
    intros r Hr. apply selected_In in Hr. apply selected_In.
    destruct Hr. auto.
  - intros level n Hin. apply in_map_iff in Hin.
    destruct Hin as (level' & [= -> <-] & _).
    destruct level as [t|]; simpl; [|lia].
    etransitivity; [apply n_unique_le_length|].
    rewrite length_map. unfold selected. rewrite filter_filter.
    apply N_of_nat_le.
    erewrite filter_ext; [reflexivity|].
    intros r. simpl. apply andb_comm.
Qed.

Lemma X10_witness :
  (forall r, In r sample.adae ->
             holds (Some (fun r => Polars.eq_lit (safety.AESER r) "Y")) r
             = true ->
             holds None r = true)
  /\ Forall2 (fun a b => fst a = fst b /\ (snd a <= snd b)%N)
             (safety.count_participants
                sample.adae [Some "Placebo"; Some "Drug"]
                (Some (fun r => Polars.eq_lit (safety.AESER r) "Y")))
             (safety.count_participants
                sample.adae [Some "Placebo"; Some "Drug"] None).
Proof.
  assert (Himp : forall r, In r sample.adae ->
             holds (Some (fun r => Polars.eq_lit (safety.AESER r) "Y")) r
             = true ->
             holds None r = true) by reflexivity.
  split; [exact Himp|].
  exact (proj1 (@X10_count_participants_monotone
                  sample.adae [Some "Placebo"; Some "Drug"] _ None Himp)).
Defined.

Lemma with_category_keys (category : string) (df : list safety.AeRow)
    (levels : list (option string)) (condition : option safety.Expr) :
  map (fun r => (safety.sr_category r, safety.sr_TRT01A r))
      (safety.with_category category
         (safety.count_participants df levels condition))
  = map (fun level => (category, level)) levels.
Proof.
  unfold safety.with_category. rewrite count_participants_rows, !map_map.
  reflexivity.
Qed.

(** X11.  [create_ae_summary] lays its rows out by category: first one
    row per row of [pop_counts], labelled "Participants in population",
    then, for each of the six event categories in turn, one row per
    treatment level in the order of the levels.  Every category and
    level combination is there, with a count that is not null. *)
Theorem X11_create_ae_summary_layout
    (adae_safety : list safety.AeRow) (pop_counts : list (option string * N))
    (treatment_levels : list (option string)) :
  map (fun r => (safety.sr_category r, safety.sr_TRT01A r))
      (safety.create_ae_summary adae_safety pop_counts treatment_levels)
  = map (fun p => ("Participants in population", fst p)) pop_counts
      ++ flat_map (fun category =>
                     map (fun level => (category, level)) treatment_levels)
                  event_categories
  /\ length (safety.create_ae_summary adae_safety pop_counts
                                      treatment_levels)
     = (length pop_counts + 6 * length treatment_levels)%nat
  /\ (forall r,
        In r (safety.create_ae_summary adae_safety pop_counts
                                       treatment_levels) ->
        safety.sr_n r <> None).
Proof.
  assert (Hkeys :
    map (fun r => (safety.sr_category r, safety.sr_TRT01A r))
        (safety.create_ae_summary adae_safety pop_counts treatment_levels)
    = map (fun p => ("Participants in population", fst p)) pop_counts
        ++ flat_map (fun category =>
                       map (fun level => (category, level)) treatment_levels)
                    event_categories).
  { unfold safety.create_ae_summary. rewrite !map_app, !with_category_keys.
    unfold safety.with_category at 1. rewrite map_map. simpl.
    rewrite app_nil_r. reflexivity. }
  split; [exact Hkeys|]. split.
  - rewrite <- (length_map (fun r => (safety.sr_category r,
                                      safety.sr_TRT01A r))), Hkeys.
    rewrite length_app, length_map. simpl.
    rewrite !length_app, !length_map. simpl. lia.
  - intros r Hr. unfold safety.create_ae_summary in Hr.
    repeat (apply in_app_or in Hr; destruct Hr as [Hr | Hr]);
      unfold safety.with_category in Hr; apply in_map_iff in Hr;
      destruct Hr as (c & <- & _); discriminate.
Qed.

Lemma X11_witness :
  length (safety.create_ae_summary sample.adae sample.pop_counts
                                   [Some "Placebo"; Some "Drug"; Some "High"])
  = 21%nat.
Proof.
  rewrite (proj1 (proj2 (X11_create_ae_summary_layout
                           sample.adae sample.pop_counts
                           [Some "Placebo"; Some "Drug"; Some "High"]))).
  reflexivity.
Defined.

Lemma key_match_eq_lit (t : string) (cell : option string) :
  Polars.key_match (Some t) cell = Polars.eq_lit cell t.
Proof.
  destruct cell as [s|]; simpl; [|reflexivity].
  unfold eqb, Eqb_string. apply String.eqb_sym.
Qed.

(** With one row per treatment in [pop_counts], the left join finds the
    row that [find] finds. *)
Lemma filter_key_find (pop_counts : list (option string * N)) (t : string) :
  NoDup (map fst pop_counts) ->
  filter (fun q => Polars.key_match (Some t) (fst q)) pop_counts
  = match find (fun p => Polars.eq_lit (fst p) t) pop_counts with
    | Some p => [p]
    | None => []
    end.
Proof.
  induction pop_counts as [|p rest IH]; intros Hnd; [reflexivity|].
  cbn [filter find map] in *.
  inversion Hnd as [|? ? Hnotin Hnd']; subst.
  rewrite key_match_eq_lit.
  destruct (Polars.eq_lit (fst p) t) eqn:Hp; [|apply IH; assumption].
  f_equal. apply filter_nil_iff. intros q Hq.
  rewrite key_match_eq_lit.
  destruct (Polars.eq_lit (fst q) t) eqn:Hqt; [|reflexivity].
  exfalso. apply Hnotin.
  apply eq_lit_true_iff in Hp, Hqt. rewrite Hp, <- Hqt.
  apply in_map. assumption.
Qed.

Lemma format_ae_summary_rows (ae_summary : list safety.SummaryRow)
    (pop_counts : list (option string * N)) :
  NoDup (map fst pop_counts) ->
  safety.format_ae_summary ae_summary pop_counts
  = map (fun row =>
           safety.format_row row
             (population_of pop_counts (safety.sr_TRT01A row)))
        ae_summary.
Proof.
  intros Hnd. unfold safety.format_ae_summary, Polars.left_join.
  apply map_flat_map_singleton. intros row. unfold population_of.
  destruct (safety.sr_TRT01A row) as [t|].
  - rewrite (@filter_key_find pop_counts t Hnd).
    destruct (find _ pop_counts); reflexivity.
  - replace (filter _ pop_counts) with (@nil (option string * N));
      [reflexivity|].
    symmetry. apply filter_nil_iff. reflexivity.
Qed.

(** X12.  When [pop_counts] has one row per treatment,
    [format_ae_summary] returns one row per row of the summary, in its
    order, with the same category and treatment, the count with null
    replaced by 0, and the population count of the treatment, which is
    null for a treatment that [pop_counts] does not hold. *)
Theorem X12_format_ae_summary_keeps_rows
    (ae_summary : list safety.SummaryRow)
    (pop_counts : list (option string * N)) :
  NoDup (map fst pop_counts) ->
  Forall2 (fun row r =>
             safety.fr_category r = safety.sr_category row
             /\ safety.fr_TRT01A r = safety.sr_TRT01A row
             /\ safety.fr_n r = Polars.fill_null 0 (safety.sr_n row)
             /\ safety.fr_N r
                = population_of pop_counts (safety.sr_TRT01A row))
          ae_summary
          (safety.format_ae_summary ae_summary pop_counts).
Proof.
  intros Hnd. rewrite (@format_ae_summary_rows ae_summary pop_counts Hnd).
  induction ae_summary as [|row rows IH]; simpl; constructor; [|exact IH].
  simpl. auto.
Qed.

Lemma X12_witness :
  NoDup (map fst sample.pop_counts)
  /\ length (safety.format_ae_summary
               (safety.create_ae_summary
                  sample.adae sample.pop_counts
                  [Some "Placebo"; Some "Drug"; Some "High"])
               sample.pop_counts)
     = 21%nat.
Proof.
  assert (Hnd : NoDup (map fst sample.pop_counts)).
  { simpl. repeat constructor; simpl; intuition discriminate. }
  split; [exact Hnd|].
  rewrite <- (Forall2_length
                (@X12_format_ae_summary_keeps_rows
                   (safety.create_ae_summary
                      sample.adae sample.pop_counts
                      [Some "Placebo"; Some "Drug"; Some "High"])
                   sample.pop_counts Hnd)).
  reflexivity.
Defined.

Lemma round_div_all (d : N) :
  (0 < d)%N -> Polars.round_div (1000 * d) d = 1000%N.
Proof.
  intros Hd. unfold Polars.round_div.
  rewrite N.div_mul, N.Div0.mod_mul by lia. cbv zeta.
  rewrite N.mul_0_r.
  destruct (N.ltb_spec 0 d) as [_|Hle]; [reflexivity | lia].
Qed.

(** X13.  In the output of [format_ae_summary] a population row has no
    percentage and a blank percentage text.  An event row whose count
    is at most a positive population count has a percentage between
    0.0 and 100.0, printed in parentheses with one decimal: ["(0.0)"]
    for a count of 0 and ["(100.0)"] for the whole population; the
    count is printed as it is. *)
Theorem X13_format_ae_summary_display
    (ae_summary : list safety.SummaryRow)
    (pop_counts : list (option string * N)) (r : safety.FormattedRow) :
  In r (safety.format_ae_summary ae_summary pop_counts) ->
  safety.fr_n_display r = Py.str_N (safety.fr_n r)
  /\ (safety.fr_category r = "Participants in population" ->
      safety.fr_pct r = None /\ safety.fr_pct_display r = "")
  /\ (safety.fr_category r <> "Participants in population" ->
      forall d,
        safety.fr_N r = Some d -> (0 < d)%N -> (safety.fr_n r <= d)%N ->
        exists tenths,
          (tenths <= 1000)%N
          /\ safety.fr_pct_display r
             = "(" +++ Polars.str_float (Polars.Dec false (10 * tenths))
                 +++ ")"
          /\ (safety.fr_n r = 0%N -> safety.fr_pct_display r = "(0.0)")
          /\ (safety.fr_n r = d -> safety.fr_pct_display r = "(100.0)")).
Proof.
  intros Hin. apply format_ae_summary_In in Hin.
  destruct Hin as (row & total & _ & ->).
  unfold safety.format_row. cbn.
  split; [reflexivity|]. split.
  - intros Hcat. fold safety.population_label in Hcat. rewrite Hcat.
    rewrite eqb_refl. auto.
  - intros Hcat d -> Hd Hle. fold safety.population_label in Hcat.
    destruct (eqb_spec (safety.sr_category row) safety.population_label)
      as [Heq|_]; [contradiction|].
    destruct (safety.sr_n row) as [k|]; simpl in Hle |- *.
    + destruct (@percent_round1_bounds k d Hd Hle) as (tenths & Hpct & Hbound).
      exists tenths. rewrite Hpct.
      split; [exact Hbound|]. split; [reflexivity|]. split.
      * intros ->. rewrite <- Hpct, percent_round1_of_zero by lia.
        reflexivity.
      * intros ->. rewrite <- Hpct. unfold Polars.percent_round1.
        destruct (N.eqb_spec d 0); [lia|].
        rewrite round_div_all by assumption. reflexivity.
    + exists 0%N. split; [lia|]. split; [reflexivity|].
      split; [reflexivity | intros <-; lia].
Qed.

Lemma X13_witness :
  exists r,
    In r (safety.format_ae_summary
            [ {| safety.sr_TRT01A := Some "Drug"; safety.sr_n := Some 2%N;
                 safety.sr_category := "With serious adverse event" |} ]
            sample.pop_counts)
    /\ safety.fr_category r <> "Participants in population"
    /\ safety.fr_N r = Some 10%N
    /\ safety.fr_n_display r = "2"
    /\ safety.fr_pct_display r = "(20.0)".
Proof.
  eexists. split; [left; reflexivity|].
  split; [discriminate|]. split; [reflexivity|].
  split; [|reflexivity].
  refine (proj1 (@X13_format_ae_summary_display
                   [ {| safety.sr_TRT01A := Some "Drug";
                        safety.sr_n := Some 2%N;
                        safety.sr_category := "With serious adverse event" |} ]
                   sample.pop_counts _ _)).
  left. reflexivity.
Defined.

(** *** create_ae_by_soc_table: when it raises and when it returns *)

Lemma population_cell_raises (pop_counts : list (option string * N))
    (t : string) (e : PyError) :
  safety.population_cell pop_counts t = Raise e -> e = IndexError.
Proof.
  unfold safety.population_cell.
  destruct (filter _ pop_counts); [congruence | discriminate].
Qed.

Lemma population_cell_missing (pop_counts : list (option string * N))
    (t : string) :
  (forall p, In p pop_counts -> fst p <> Some t)
  <-> safety.population_cell pop_counts t = Raise IndexError.
Proof.
  unfold safety.population_cell. split.
  - intros Hno.
    replace (filter _ pop_counts) with (@nil (option string * N));
      [reflexivity|].
    symmetry. apply filter_nil_iff. intros p Hp.
    destruct (Polars.eq_lit (fst p) t) eqn:He; [|reflexivity].
    apply eq_lit_true_iff in He. exfalso. exact (Hno p Hp He).
  - destruct (filter _ pop_counts) as [|q qs] eqn:Hf; [|discriminate].
    intros _ p Hp He.
    assert (Hin : In p (filter (fun p => Polars.eq_lit (fst p) t)
                               pop_counts)).
    { apply filter_In. split; [assumption|].
      apply eq_lit_true_iff. assumption. }
    rewrite Hf in Hin. destruct Hin.
Qed.

Lemma first_duplicate_NoDup (names : list string) :
  NoDup names -> Polars.first_duplicate names = None.
Proof.
  induction 1 as [|x l Hnotin _ IH]; simpl; [reflexivity|].
  destruct (existsb (eqb x) l) eqn:Hex; [|exact IH].
  exfalso. apply existsb_exists in Hex. destruct Hex as (y & Hy & Heq).
  apply eqb_true_iff in Heq. subst y. contradiction.
Qed.

(** Every row that [create_ae_by_soc_table] builds has one cell per
    column. *)
Lemma ae_by_soc_rows_rectangular (ae_counts : list safety.AeCount)
    (treatments : list string) (population_cells : list string)
    (socs : list (option string)) (row : list Polars.Cell) :
  length population_cells = length treatments ->
  In row ((Some safety.population_label :: map Some population_cells)
            :: repeat (Some "") (length treatments + 1)
            :: flat_map (safety.soc_rows ae_counts treatments) socs) ->
  length row = S (length treatments).
Proof.
  intros Hlen [<- | [<- | Hin]].
  - simpl. rewrite length_map, Hlen. reflexivity.
  - rewrite repeat_length. lia.
  - apply in_flat_map in Hin. destruct Hin as (soc & _ & Hin).
    unfold safety.soc_rows in Hin. destruct Hin as [<- | Hin].
    + simpl. rewrite repeat_length. reflexivity.
    + apply in_map_iff in Hin. destruct Hin as (term & <- & _).
      unfold safety.term_row. simpl. rewrite length_map. reflexivity.
Qed.

Lemma DataFrame_outcome (rows : list (list Polars.Cell))
    (schema : list string) :
  (forall row, In row rows -> length row = length schema) ->
  Polars.DataFrame rows schema
  = match Polars.first_duplicate (Polars.column_names schema) with
    | Some name => Raise (DuplicateError name)
    | None => Ok {| Polars.header := Polars.column_names schema;
                    Polars.body := rows |}
    end.
Proof.
  intros Hlen. unfold Polars.DataFrame.
  replace (forallb _ rows) with true; [reflexivity|].
  symmetry. apply forallb_forall. intros row Hrow.
  apply Nat.eqb_eq. apply Hlen. assumption.
Qed.

(** X14.  [create_ae_by_soc_table] raises [IndexError] exactly when
    some requested treatment has no row in [pop_counts]; it never
    raises the shape error, since every row it builds has one cell per
    column. *)
Theorem X14_ae_by_soc_index_error
    (adae_safety : list safety.AeRow) (pop_counts : list (option string * N))
    (treatments : list string) :
  (safety.create_ae_by_soc_table adae_safety pop_counts treatments
   = Raise IndexError
   <-> exists t, In t treatments
                 /\ forall p, In p pop_counts -> fst p <> Some t)
  /\ safety.create_ae_by_soc_table adae_safety pop_counts treatments
     <> Raise ShapeError.
Proof.
  unfold safety.create_ae_by_soc_table.
  destruct (mapM (safety.population_cell pop_counts) treatments)
    as [cells|e] eqn:Hcells; cbn [bind].
  - rewrite DataFrame_outcome.
    + split.
      * split.
        -- destruct (Polars.first_duplicate _); discriminate.
        -- intros (t & Ht & Hno). exfalso.
           apply mapM_Forall2 in Hcells.
           apply (proj1 (population_cell_missing pop_counts t)) in Hno.
           clear -Hcells Ht Hno.
           induction Hcells as [|a b l bs Hab _ IH]; [destruct Ht|].
           destruct Ht as [-> | Ht]; [congruence | auto].
      * destruct (Polars.first_duplicate _); discriminate.
    + intros row Hrow.
      apply (@ae_by_soc_rows_rectangular _ _ _ _ row
               (mapM_length _ _ Hcells)) in Hrow.
      simpl. exact Hrow.
  - destruct (mapM_raise_inv _ _ Hcells) as (t & Ht & Hraise).
    pose proof (population_cell_raises _ _ Hraise) as ->.
    split; [|discriminate].
    split; [|reflexivity].
    intros _. exists t. split; [assumption|].
    apply (proj2 (population_cell_missing pop_counts t)). assumption.
Qed.

Lemma X14_witness :
  safety.create_ae_by_soc_table sample.adae [(Some "Placebo", 5%N)]
                                ["Placebo"; "Drug"]
  = Raise IndexError.
Proof.
  apply (proj1 (@X14_ae_by_soc_index_error
                  sample.adae [(Some "Placebo", 5%N)] ["Placebo"; "Drug"])).
  exists "Drug". split; [right; left; reflexivity|].
  intros p [<- | []]. discriminate.
Defined.

(** X15.  [create_ae_by_soc_table] returns a table whenever every
    requested treatment has a row in [pop_counts] and the treatment
    names are distinct, non-empty and different from the name of the
    label column.  Every row of the table has one cell per column, and
    for an event frame without rows the table is just the population
    row and the blank row. *)
Theorem X15_ae_by_soc_returns
    (adae_safety : list safety.AeRow) (pop_counts : list (option string * N))
    (treatments : list string) :
  (forall t, In t treatments ->
             exists p, In p pop_counts /\ fst p = Some t) ->
  NoDup treatments ->
  ~ In "" treatments ->
  ~ In "System Organ Class / Preferred Term" treatments ->
  exists tbl,
    safety.create_ae_by_soc_table adae_safety pop_counts treatments = Ok tbl
    /\ (forall row, In row (Polars.body tbl) ->
                    length row = length (Polars.header tbl))
    /\ (adae_safety = [] -> length (Polars.body tbl) = 2%nat).
Proof.
  intros Hpop Hnd Hempty Hlabel.
  destruct (@mapM_all_ok _ _ (safety.population_cell pop_counts) treatments)
    as [cells Hcells].
  { intros t Ht. destruct (Hpop t Ht) as (p & Hp & Hfst).
    destruct (safety.population_cell pop_counts t) as [cell|e] eqn:Hc;
      [eauto|].
    exfalso. pose proof (population_cell_raises _ _ Hc) as ->.
    exact (proj2 (population_cell_missing pop_counts t) Hc p Hp Hfst). }
  unfold safety.create_ae_by_soc_table. rewrite Hcells. cbn [bind].
  rewrite DataFrame_outcome.
  - unfold Polars.column_names.
    rewrite column_names_from_id
      by (intros [Hc | Hin]; [discriminate | auto]).
    rewrite first_duplicate_NoDup by (constructor; assumption).
    eexists. split; [reflexivity|]. cbn [Polars.body Polars.header].
    split.
    + intros row Hrow.
      apply (@ae_by_soc_rows_rectangular _ _ _ _ row
               (mapM_length _ _ Hcells)) in Hrow.
      simpl. exact Hrow.
    + intros ->. reflexivity.
  - intros row Hrow.
    apply (@ae_by_soc_rows_rectangular _ _ _ _ row
             (mapM_length _ _ Hcells)) in Hrow.
    simpl. exact Hrow.
Qed.

Lemma X15_witness :
  (forall t, In t sample.arms ->
             exists p, In p sample.pop_counts /\ fst p = Some t)
  /\ NoDup sample.arms
  /\ ~ In "" sample.arms
  /\ ~ In "System Organ Class / Preferred Term" sample.arms
  /\ exists tbl,
      safety.create_ae_by_soc_table [] sample.pop_counts sample.arms = Ok tbl
      /\ length (Polars.body tbl) = 2%nat.
Proof.
  assert (Hpop : forall t, In t sample.arms ->
                   exists p, In p sample.pop_counts /\ fst p = Some t).
  { intros t [<- | [<- | [<- | []]]];
      [exists (Some "Placebo", 5%N) | exists (Some "Drug", 10%N)
       | exists (Some "High", 0%N)];
      (split; [simpl; auto | reflexivity]). }
  assert (Hnd : NoDup sample.arms)
    by (repeat constructor; simpl; intuition discriminate).
  assert (Hempty : ~ In "" sample.arms) by (simpl; intuition discriminate).
  assert (Hlabel : ~ In "System Organ Class / Preferred Term" sample.arms)
    by (simpl; intuition discriminate).
  split; [exact Hpop|]. split; [exact Hnd|]. split; [exact Hempty|].
  split; [exact Hlabel|].
  destruct (@X15_ae_by_soc_returns [] sample.pop_counts sample.arms
              Hpop Hnd Hempty Hlabel) as (tbl & Htbl & _ & Hlen).
  exists tbl. split; [exact Htbl | exact (Hlen eq_refl)].
Defined.

(** *** create_ae_by_soc_table: the case of the letters of a term *)

Lemma to_upper_to_lower (c : ascii) :
  Py.to_upper (Py.to_lower c) = Py.to_upper c.
Proof.
  destruct c as [[] [] [] [] [] [] [] []]; vm_compute; reflexivity.
Qed.

Lemma to_lower_to_lower (c : ascii) :
  Py.to_lower (Py.to_lower c) = Py.to_lower c.
Proof.
  destruct c as [[] [] [] [] [] [] [] []]; vm_compute; reflexivity.
Qed.

Lemma is_alphabetic_to_lower (c : ascii) :
  Py.is_alphabetic (Py.to_lower c) = Py.is_alphabetic c.
Proof.
  destruct c as [[] [] [] [] [] [] [] []]; vm_compute; reflexivity.
Qed.

Lemma to_titlecase_from_lower (next_is_upper : bool) (s : string) :
  Polars.to_titlecase_from next_is_upper (lower s)
  = Polars.to_titlecase_from next_is_upper s.
Proof.
  revert next_is_upper. induction s as [|c rest IH]; intros b; simpl;
    [reflexivity|].
  rewrite to_upper_to_lower, to_lower_to_lower, is_alphabetic_to_lower, IH.
  reflexivity.
Qed.

Lemma to_titlecase_lower (s1 s2 : string) :
  lower s1 = lower s2 -> Polars.to_titlecase s1 = Polars.to_titlecase s2.
Proof.
  intros Heq. unfold Polars.to_titlecase.
  rewrite <- (to_titlecase_from_lower true s1),
          <- (to_titlecase_from_lower true s2), Heq.
  reflexivity.
Qed.

Lemma to_titlecase_cell_lower (c1 c2 : option string) :
  option_map lower c1 = option_map lower c2 ->
  option_map Polars.to_titlecase c1 = option_map Polars.to_titlecase c2.
Proof.
  destruct c1 as [s1|], c2 as [s2|]; simpl; try discriminate;
    [|reflexivity].
  intros [= Heq]. f_equal. apply to_titlecase_lower. exact Heq.
Qed.

(** The grouped counts read the event rows through their key and their
    subject only. *)
Lemma ae_counts_of_ext (adae1 adae2 : list safety.AeRow) :
  Forall2 (fun r1 r2 => ae_key r1 = ae_key r2
                        /\ safety.USUBJID r1 = safety.USUBJID r2)
          adae1 adae2 ->
  safety.ae_counts_of adae1 = safety.ae_counts_of adae2.
Proof.
  intros Hrows.
  assert (Hkeys : map ae_key adae1 = map ae_key adae2).
  { induction Hrows as [|r1 r2 l1 l2 [Hk _] _ IH]; simpl;
      [reflexivity | rewrite Hk, IH; reflexivity]. }
  assert (Hgroup : forall k,
             map safety.USUBJID (filter (fun r => eqb (ae_key r) k) adae1)
             = map safety.USUBJID
                   (filter (fun r => eqb (ae_key r) k) adae2)).
  { intros k. clear Hkeys.
    induction Hrows as [|r1 r2 l1 l2 [Hk Hs] _ IH]; simpl;
      [reflexivity|].
    rewrite Hk. destruct (eqb (ae_key r2) k); simpl;
      [rewrite Hs, IH | rewrite IH]; reflexivity. }
  unfold safety.ae_counts_of, Polars.group_by.
  rewrite !map_map.
  change (fun r => (safety.TRT01A r,
                    option_map Polars.to_titlecase (safety.AEBODSYS r),
                    option_map Polars.to_titlecase (safety.AEDECOD r)))
    with ae_key.
  rewrite Hkeys. apply map_ext. intros [[trt soc] term].
  cbn [fst snd]. rewrite Hgroup. reflexivity.
Qed.

(** X16.  [create_ae_by_soc_table] does not see the case of the
    letters of AEDECOD and AEBODSYS: two event frames that agree row by
    row on treatment and subject, and on term and organ class up to the
    case of their letters, give the same outcome, so spellings of a
    term that differ in case only are counted as one term. *)
Theorem X16_ae_by_soc_ignores_case
    (adae1 adae2 : list safety.AeRow)
    (pop_counts : list (option string * N)) (treatments : list string) :
  Forall2 same_event_up_to_case adae1 adae2 ->
  safety.create_ae_by_soc_table adae1 pop_counts treatments
  = safety.create_ae_by_soc_table adae2 pop_counts treatments.
Proof.
  intros Hrows. unfold safety.create_ae_by_soc_table.
  rewrite (@ae_counts_of_ext adae1 adae2); [reflexivity|].
  eapply Forall2_impl; [|exact Hrows].
  intros r1 r2 (Htrt & Hsubj & Hterm & Hsoc). split; [|assumption].
  unfold ae_key.
  rewrite Htrt, (to_titlecase_cell_lower _ _ Hterm),
    (to_titlecase_cell_lower _ _ Hsoc).
  reflexivity.
Qed.

Lemma X16_witness :
  safety.create_ae_by_soc_table
    [ sample.event "Drug" "S1" "Rash" "skin disorders" None;
      sample.event "Drug" "S2" "RASH" "Skin Disorders" None ]
    sample.pop_counts sample.arms
  = safety.create_ae_by_soc_table
      [ sample.event "Drug" "S1" "RASH" "SKIN DISORDERS" None;
        sample.event "Drug" "S2" "rash" "SKIN disorders" None ]
      sample.pop_counts sample.arms.
Proof.
  apply X16_ae_by_soc_ignores_case.
  constructor; [|constructor; [|constructor]];
    (split; [reflexivity|]; split; [reflexivity|]; split; reflexivity).
Defined.

(* ================================================================== *)
(** ** Further properties of population.py *)

(** *** count_by_treatment *)

Lemma count_by_treatment_keyed (data : list (option string))
    (population_name : string) :
  population.count_by_treatment data population_name
  = map (fun k =>
           {| population.TRT01P := k;
              population.n :=
                N.of_nat (length (filter (fun t => eqb t k) data));
              population.population := population_name |})
        (Polars.unique data).
Proof.
  unfold population.count_by_treatment, Polars.group_by.
  rewrite map_map, map_id. reflexivity.
Qed.

Lemma count_by_treatment_In (data : list (option string))
    (population_name : string) (r : population.PopulationRow) :
  In r (population.count_by_treatment data population_name)
  <-> population.population r = population_name
      /\ In (population.TRT01P r) data
      /\ population.n r
         = N.of_nat (length (filter (fun t => eqb t (population.TRT01P r))
                                    data)).
Proof.
  rewrite count_by_treatment_keyed, in_map_iff. split.
  - intros (k & <- & Hk). rewrite unique_In in Hk. simpl. auto.
  - intros (Hp & Hin & Hn). exists (population.TRT01P r).
    rewrite unique_In. split; [|assumption].
    destruct r as [trt n label]. simpl in *. subst. reflexivity.
Qed.

Lemma count_by_treatment_keys (data : list (option string))
    (population_name : string) :
  map population.TRT01P (population.count_by_treatment data population_name)
  = Polars.unique data.
Proof.
  rewrite count_by_treatment_keyed, map_map. simpl. apply map_id.
Qed.

(** X17.  [count_by_treatment] returns one row per distinct treatment
    cell of the data (null included): the row carries the population
    label, and [n] is the number of rows of the data with that
    treatment, at least 1; the counts add up to the height of the
    data. *)
Theorem X17_count_by_treatment_rows
    (data : list (option string)) (population_name : string) :
  let counts := population.count_by_treatment data population_name in
  NoDup (map population.TRT01P counts)
  /\ (forall r,
        In r counts
        <-> population.population r = population_name
            /\ In (population.TRT01P r) data
            /\ population.n r
               = N.of_nat
                   (length (filter (fun t => eqb t (population.TRT01P r))
                                   data)))
  /\ (forall r, In r counts -> (1 <= population.n r)%N)
  /\ list_sum (map (fun r => N.to_nat (population.n r)) counts)
     = length data.
Proof.
  cbv zeta. split; [rewrite count_by_treatment_keys; apply unique_NoDup|].
  split; [intros r; apply count_by_treatment_In|].
  split.
  - intros r Hr. apply count_by_treatment_In in Hr.
    destruct Hr as (_ & Hin & ->).
    pose proof (@filter_nonempty _ (fun t => eqb t (population.TRT01P r))
                  data _ Hin (eqb_refl _)).
    lia.
  - rewrite count_by_treatment_keyed, map_map. simpl.
    etransitivity;
      [|exact (unique_sizes_sum (fun t : option string => t) data)].
    rewrite map_id. f_equal. apply map_ext. intros k. apply Nat2N.id.
Qed.

(** *** create_population_summary *)

Lemma create_population_summary_blocks (adsl : population.SubjectFrame) :
  population.create_population_summary adsl
  = flat_map (fun label =>
                population.count_by_treatment
                  (map population.subject_TRT01P (members adsl label)) label)
             [ "Participants in population";
               "Participants included in ITT population";
               "Participants included in efficacy population";
               "Participants included in safety population" ].
Proof.
  unfold population.create_population_summary, members.
  cbn [flat_map].
  destruct (population.contains "ITTFL" (population.columns adsl));
    destruct (population.contains "EFFFL" (population.columns adsl));
    destruct (population.contains "SAFFL" (population.columns adsl));
    cbn [concat app]; rewrite ?app_nil_r; reflexivity.
Qed.

(** Every population is a part of the frame. *)
Lemma members_filter (adsl : population.SubjectFrame) (label : string) :
  exists p, members adsl label = filter p (population.rows adsl).
Proof.
  assert (Hall : population.rows adsl
                 = filter (fun _ => true) (population.rows adsl)).
  { symmetry. apply forallb_filter_id. apply forallb_forall. reflexivity. }
  assert (Hnone : @nil population.Subject
                  = filter (fun _ => false) (population.rows adsl)).
  { symmetry. apply filter_nil_iff. reflexivity. }
  unfold members.
  destruct (eqb label "Participants in population"); [eauto|].
  destruct (eqb label "Participants included in ITT population").
  { destruct (population.contains "ITTFL" _); eauto. }
  destruct (eqb label "Participants included in efficacy population").
  { destruct (population.contains "EFFFL" _); eauto. }
  destruct (eqb label "Participants included in safety population").
  { destruct (population.contains "SAFFL" _); eauto. }
  eauto.
Qed.

Lemma members_label (adsl : population.SubjectFrame) (label : string)
    (s : population.Subject) :
  In s (members adsl label) ->
  In label [ "Participants in population";
             "Participants included in ITT population";
             "Participants included in efficacy population";
             "Participants included in safety population" ].
Proof.
  unfold members.
  destruct (eqb_spec label "Participants in population") as [->|_];
    [simpl; auto|].
  destruct (eqb_spec label "Participants included in ITT population")
    as [->|_]; [simpl; auto|].
  destruct (eqb_spec label "Participants included in efficacy population")
    as [->|_]; [simpl; auto|].
  destruct (eqb_spec label "Participants included in safety population")
    as [->|_]; [simpl; auto|].
  intros [].
Qed.

Lemma of_treatment_length (subjects : list population.Subject)
    (trt : option string) :
  length (filter (fun t => eqb t trt)
                 (map population.subject_TRT01P subjects))
  = length (of_treatment subjects trt).
Proof.
  rewrite filter_map_comm, length_map. reflexivity.
Qed.

Lemma create_population_summary_In (adsl : population.SubjectFrame)
    (r : population.PopulationRow) :
  In r (population.create_population_summary adsl)
  <-> In (population.TRT01P r)
         (map population.subject_TRT01P
              (members adsl (population.population r)))
      /\ population.n r
         = N.of_nat (length (of_treatment
                               (members adsl (population.population r))
                               (population.TRT01P r))).
Proof.
  rewrite create_population_summary_blocks, in_flat_map. split.
  - intros (label & _ & Hr). apply count_by_treatment_In in Hr.
    destruct Hr as (<- & Hin & Hn).
    rewrite of_treatment_length in Hn. auto.
  - intros (Hin & Hn). exists (population.population r). split.
    + apply in_map_iff in Hin. destruct Hin as (s & _ & Hs).
      exact (members_label _ _ _ Hs).
    + apply count_by_treatment_In.
      rewrite of_treatment_length. auto.
Qed.

Lemma NoDup_blocks (block : string -> list population.PopulationRow)
    (labels : list string) :
  NoDup labels ->
  (forall label, NoDup (map population.TRT01P (block label))) ->
  (forall label r, In r (block label) -> population.population r = label) ->
  NoDup (map summary_key (flat_map block labels)).
Proof.
  intros Hnd Hkeys Hlabel.
  induction Hnd as [|label labels Hnotin _ IH]; [constructor|].
  cbn [flat_map]. rewrite map_app. apply NoDup_app; [|exact IH|].
  - specialize (Hkeys label). specialize (Hlabel label).
    induction (block label) as [|r rest IHb]; [constructor|].
    cbn [map] in *. inversion Hkeys as [|? ? Hr Hrest]; subst.
    constructor.
    + intros Hin. apply Hr. apply in_map_iff in Hin.
      destruct Hin as (r' & Hk & Hr'). apply in_map_iff.
      exists r'. split; [|assumption].
      unfold summary_key in Hk. congruence.
    + apply IHb; [assumption|]. intros r' Hr'. apply Hlabel. right.
      assumption.
  - intros k Hk1 Hk2.
    apply in_map_iff in Hk1. destruct Hk1 as (r1 & <- & Hr1).
    apply in_map_iff in Hk2. destruct Hk2 as (r2 & Hk & Hr2).
    apply in_flat_map in Hr2. destruct Hr2 as (label' & Hl' & Hr2).
    apply Hlabel in Hr1, Hr2. unfold summary_key in Hk.
    apply Hnotin. congruence.
Qed.

(** X18.  [create_population_summary] has a row for a population and a
    treatment cell exactly when some subject of the treatment is in the
    population (all subjects, or those whose flag is "Y" when the frame
    has the flag column), and [n] is the number of those subjects, so
    no row has a count of 0.  No two rows share population and
    treatment, and every row is matched by the row of "Participants in
    population" of its treatment, whose count is at least as large. *)
Theorem X18_create_population_summary_rows (adsl : population.SubjectFrame) :
  let summary := population.create_population_summary adsl in
  (forall r,
     In r summary
     <-> In (population.TRT01P r)
            (map population.subject_TRT01P
                 (members adsl (population.population r)))
         /\ population.n r
            = N.of_nat (length (of_treatment
                                  (members adsl (population.population r))
                                  (population.TRT01P r))))
  /\ NoDup (map summary_key summary)
  /\ (forall r,
        In r summary ->
        (1 <= population.n r)%N
        /\ exists r0,
             In r0 summary
             /\ population.population r0 = "Participants in population"
             /\ population.TRT01P r0 = population.TRT01P r
             /\ (population.n r <= population.n r0)%N).
Proof.
  cbv zeta. split; [apply create_population_summary_In|]. split.
  - rewrite create_population_summary_blocks. apply NoDup_blocks.
    + repeat constructor; simpl; intuition discriminate.
    + intros label. rewrite count_by_treatment_keys. apply unique_NoDup.
    + intros label r Hr. apply count_by_treatment_In in Hr. tauto.
  - intros r Hr. apply create_population_summary_In in Hr.
    destruct Hr as (Hin & Hn). split.
    + apply in_map_iff in Hin. destruct Hin as (s & Hs & Hin).
      assert (Hone : (1 <= length (of_treatment
                                     (members adsl (population.population r))
                                     (population.TRT01P r)))%nat).
      { unfold of_treatment. apply filter_nonempty with (x := s);
          [assumption|]. rewrite Hs. apply eqb_refl. }
      lia.
    + destruct (members_filter adsl (population.population r)) as [p Hp].
      exists {| population.TRT01P := population.TRT01P r;
                population.n :=
                  N.of_nat (length (of_treatment (population.rows adsl)
                                                 (population.TRT01P r)));
                population.population := "Participants in population" |}.
      split; [|split; [reflexivity|split; [reflexivity|]]].
      * apply create_population_summary_In. cbn [population.TRT01P
          population.population population.n].
        change (members adsl "Participants in population")
          with (population.rows adsl).
        split; [|reflexivity].
        rewrite Hp in Hin. apply in_map_iff in Hin.
        destruct Hin as (s & Hs & Hin). apply filter_In in Hin.
        apply in_map_iff. exists s. tauto.
      * cbn [population.n]. rewrite Hn, Hp. apply N_of_nat_le.
        unfold of_treatment. rewrite filter_filter.
        apply filter_length_le. intros s Hs.
        apply andb_true_iff in Hs. tauto.
Qed.

(** *** format_population_table *)

Lemma mapM_pure {A B} (f : A -> Result B) (g : A -> B) (l : list A) :
  (forall a, In a l -> f a = Ok (g a)) -> mapM f l = Ok (map g l).
Proof.
  intros Hf. apply mapM_Forall2.
  induction l as [|a l IH]; simpl; constructor.
  - apply Hf. left. reflexivity.
  - apply IH. intros a' Ha'. apply Hf. right. assumption.
Qed.

Lemma find_absent {A} (p : A -> bool) (l : list A) :
  (forall x, In x l -> p x = false) -> find p l = None.
Proof.
  induction l as [|x l IH]; intros Hp; simpl; [reflexivity|].
  rewrite (Hp x (or_introl eq_refl)). apply IH.
  intros y Hy. apply Hp. right. assumption.
Qed.

(** The rows of [totals] that the join pairs with a treatment cell,
    when [totals] lists every treatment once. *)
Lemma total_rows (totals : list (option string * N)) (trt : option string) :
  NoDup (map fst totals) ->
  filter (fun p => Polars.key_match trt (fst p)) totals
  = match total_of totals trt with
    | Some total => [(trt, total)]
    | None => []
    end.
Proof.
  intros Hnd. destruct trt as [t|]; cbn [total_of].
  - rewrite (@filter_key_find totals t Hnd).
    destruct (find (fun p => Polars.eq_lit (fst p) t) totals)
      as [[k total]|] eqn:Hfind; simpl; [|reflexivity].
    apply find_some in Hfind. destruct Hfind as [_ Hk].
    apply eq_lit_true_iff in Hk. simpl in Hk. subst k. reflexivity.
  - apply filter_nil_iff. reflexivity.
Qed.

Lemma has_total_total_of (totals : list (option string * N))
    (row : population.PopulationRow) :
  has_total totals row = is_some (total_of totals (population.TRT01P row)).
Proof.
  unfold has_total, total_of.
  destruct (population.TRT01P row) as [t|].
  - induction totals as [|p rest IH]; [reflexivity|].
    cbn [existsb find]. rewrite key_match_eq_lit.
    destruct (Polars.eq_lit (fst p) t); [reflexivity | exact IH].
  - induction totals as [|p rest IH]; [reflexivity | exact IH].
Qed.

(** The joined frame in the order of the summary, one row per summary
    row whose treatment has a total. *)
Lemma formatted_stats_keyed (pop_summary : list population.PopulationRow)
    (totals : list (option string * N)) :
  NoDup (map fst totals) ->
  population.formatted_stats (E := Polars.left_order) pop_summary totals
  = flat_map (fun r =>
                match total_of totals (population.TRT01P r) with
                | Some total => [population.stats_row r total]
                | None => []
                end)
             pop_summary.
Proof.
  intros Hnd. unfold population.formatted_stats, Polars.inner_join.
  cbn [Polars.arrange Polars.left_order].
  rewrite map_flat_map. apply flat_map_ext. intros r.
  rewrite (@total_rows totals _ Hnd).
  destruct (total_of totals (population.TRT01P r)); reflexivity.
Qed.

Lemma cell_rows_app (l1 l2 : list population.PopulationStats)
    (index : string) (on : option string) :
  cell_rows (l1 ++ l2) index on
  = cell_rows l1 index on ++ cell_rows l2 index on.
Proof. apply filter_app. Qed.

Lemma cell_rows_in_order (pop_summary : list population.PopulationRow)
    (totals : list (option string * N)) (index : string)
    (on : option string) :
  NoDup (map summary_key pop_summary) ->
  NoDup (map fst totals) ->
  cell_rows (population.formatted_stats (E := Polars.left_order)
                                        pop_summary totals) index on
  = match find (fun r => eqb (summary_key r) (index, on)) pop_summary with
    | Some r =>
        match total_of totals on with
        | Some total => [population.stats_row r total]
        | None => []
        end
    | None => []
    end.
Proof.
  intros Hkeys Hnd. rewrite (@formatted_stats_keyed pop_summary totals Hnd).
  induction pop_summary as [|r rest IH]; [reflexivity|].
  inversion Hkeys as [|? ? Hnotin Hrest]; subst.
  cbn [flat_map find]. rewrite cell_rows_app, (IH Hrest).
  destruct (eqb_spec (summary_key r) (index, on)) as [Hk|Hk].
  - rewrite find_absent.
    + rewrite app_nil_r. injection Hk as Hindex Hon. rewrite Hon.
      destruct (total_of totals on) as [total|]; [|reflexivity].
      unfold cell_rows. cbn [filter population.stats_row
        population.ps_population population.ps_TRT01P].
      rewrite Hindex, Hon, !eqb_refl. reflexivity.
    + intros r' Hr'. apply eqb_false_iff. intros Hk'. apply Hnotin.
      rewrite Hk, <- Hk'. apply in_map. assumption.
  - replace (cell_rows _ index on) with (@nil population.PopulationStats);
      [reflexivity|].
    destruct (total_of totals (population.TRT01P r)) as [total|];
      [|reflexivity].
    unfold cell_rows. cbn [filter population.stats_row
      population.ps_population population.ps_TRT01P].
    destruct (eqb_spec (population.population r) index) as [Hi|_];
      [|reflexivity].
    destruct (eqb_spec (population.TRT01P r) on) as [Ho|_]; [|reflexivity].
    exfalso. apply Hk. unfold summary_key. congruence.
Qed.

(** The rows of a cell are the same under every engine. *)
Lemma cell_rows_perm {E : Polars.Engine}
    (pop_summary : list population.PopulationRow)
    (totals : list (option string * N)) (index : string)
    (on : option string) :
  Permutation
    (cell_rows (population.formatted_stats pop_summary totals) index on)
    (cell_rows (population.formatted_stats (E := Polars.left_order)
                                           pop_summary totals) index on).
Proof. apply Permutation_filter, formatted_stats_perm. Qed.

(** With distinct keys on both sides, a cell of the pivot receives at
    most one row of the joined frame. *)
Lemma cell_rows_keyed {E : Polars.Engine}
    (pop_summary : list population.PopulationRow)
    (totals : list (option string * N)) (index : string)
    (on : option string) :
  NoDup (map summary_key pop_summary) ->
  NoDup (map fst totals) ->
  cell_rows (population.formatted_stats pop_summary totals) index on
  = match find (fun r => eqb (summary_key r) (index, on)) pop_summary with
    | Some r =>
        match total_of totals on with
        | Some total => [population.stats_row r total]
        | None => []
        end
    | None => []
    end.
Proof.
  intros Hkeys Hnd.
  pose proof (cell_rows_perm pop_summary totals index on) as Hperm.
  rewrite (@cell_rows_in_order pop_summary totals index on Hkeys Hnd)
    in Hperm.
  destruct (find _ pop_summary) as [r|].
  - destruct (total_of totals on) as [total|].
    + apply Permutation_sym, Permutation_length_1_inv in Hperm. exact Hperm.
    + apply Permutation_sym, Permutation_nil in Hperm. exact Hperm.
  - apply Permutation_sym, Permutation_nil in Hperm. exact Hperm.
Qed.

Lemma pivot_cell_keyed {E : Polars.Engine}
    (pop_summary : list population.PopulationRow)
    (totals : list (option string * N)) (index : string)
    (on : option string) :
  NoDup (map summary_key pop_summary) ->
  NoDup (map fst totals) ->
  population.pivot_cell (population.formatted_stats pop_summary totals)
                        index on
  = Ok (display_cell pop_summary totals index on).
Proof.
  intros Hkeys Hnd. unfold population.pivot_cell, display_cell.
  change (filter _ (population.formatted_stats pop_summary totals))
    with (cell_rows (population.formatted_stats pop_summary totals) index on).
  rewrite (@cell_rows_keyed E pop_summary totals index on Hkeys Hnd).
  destruct (find _ pop_summary) as [r|]; [|reflexivity].
  destruct (total_of totals on); reflexivity.
Qed.

Lemma NoDup_map_on (f : option string -> string) (l : list (option string)) :
  NoDup l ->
  (forall a b, In a l -> In b l -> f a = f b -> a = b) ->
  NoDup (map f l).
Proof.
  induction 1 as [|x l Hnotin _ IH]; intros Hinj; simpl; constructor.
  - intros Hin. apply in_map_iff in Hin. destruct Hin as (y & Hy & Hin).
    apply Hnotin. rewrite (Hinj x y); simpl; auto.
  - apply IH. intros a b Ha Hb. apply Hinj; right; assumption.
Qed.

Lemma shown_treatment {E : Polars.Engine}
    (pop_summary : list population.PopulationRow)
    (totals : list (option string * N)) (on : option string) :
  In on (Polars.unique
           (map population.ps_TRT01P
                (population.formatted_stats pop_summary totals))) ->
  exists r t, In r pop_summary /\ population.TRT01P r = Some t
              /\ on = Some t.
Proof.
  intros Hin.
  apply (Permutation_in _
           (joined_column_perm population.ps_TRT01P population.TRT01P
              pop_summary totals (fun _ _ => eq_refl))) in Hin.
  rewrite unique_In, in_map_iff in Hin. destruct Hin as (r & <- & Hr).
  apply filter_In in Hr. destruct Hr as [Hr Htotal].
  rewrite has_total_total_of in Htotal.
  destruct (population.TRT01P r) as [t|] eqn:Ht; [|discriminate].
  eauto.
Qed.

Lemma format_population_table_returns {E : Polars.Engine}
    (pop_summary : list population.PopulationRow)
    (totals : list (option string * N)) :
  NoDup (map summary_key pop_summary) ->
  NoDup (map fst totals) ->
  (forall r, In r pop_summary -> population.TRT01P r <> Some "population") ->
  population.format_population_table pop_summary totals
  = Ok {| Polars.header :=
            "population"
              :: map population.on_name
                     (Polars.unique
                        (map population.ps_TRT01P
                             (population.formatted_stats pop_summary
                                                         totals)));
          Polars.body :=
            map (fun index =>
                   Some index
                     :: map (display_cell pop_summary totals index)
                            (Polars.unique
                               (map population.ps_TRT01P
                                    (population.formatted_stats pop_summary
                                                                totals))))
                (Polars.unique
                   (map population.ps_population
                        (population.formatted_stats pop_summary totals))) |}.
Proof.
  intros Hkeys Hnd Hname. unfold population.format_population_table.
  set (groups := Polars.unique (map population.ps_TRT01P _)).
  set (populations := Polars.unique (map population.ps_population _)).
  rewrite (@mapM_pure _ _ _
             (fun index =>
                Some index :: map (display_cell pop_summary totals index)
                                  groups)).
  - cbn [bind]. rewrite first_duplicate_NoDup; [reflexivity|].
    constructor.
    + intros Hin. apply in_map_iff in Hin. destruct Hin as (on & Hon & Hin).
      apply shown_treatment in Hin. destruct Hin as (r & t & Hr & Ht & ->).
      simpl in Hon. subst t. exact (Hname r Hr Ht).
    + apply NoDup_map_on; [apply unique_NoDup|].
      intros a b Ha Hb Hab.
      apply shown_treatment in Ha, Hb.
      destruct Ha as (_ & ta & _ & _ & ->).
      destruct Hb as (_ & tb & _ & _ & ->).
      simpl in Hab. congruence.
  - intros index _.
    rewrite (@mapM_pure _ _ _ (display_cell pop_summary totals index));
      [reflexivity|].
    intros on _. apply pivot_cell_keyed; assumption.
Qed.

Lemma Forall2_map_of {A B} (P : A -> B -> Prop) (f : A -> B) (l : list A) :
  (forall a, In a l -> P a (f a)) -> Forall2 P l (map f l).
Proof.
  induction l as [|a l IH]; intros Hall; simpl; constructor.
  - apply Hall. left. reflexivity.
  - apply IH. intros a' Ha'. apply Hall. right. assumption.
Qed.

Lemma stats_row_displays (r : population.PopulationRow) (total : N) :
  displays (population.population r) (population.n r) total
           (population.ps_display (population.stats_row r total)).
Proof.
  unfold displays, population.stats_row. cbn [population.ps_display].
  destruct (eqb (population.population r) "Participants in population");
    [reflexivity|].
  unfold Polars.percent_round1.
  destruct (N.eqb_spec total 0) as [Hz|Hpos].
  - destruct (population.n r =? 0)%N; reflexivity.
  - exists (Polars.round_div (1000 * population.n r) total).
    split; [apply round_div_near; assumption | reflexivity].
Qed.

(** X19.  When no two rows of the summary share population and
    treatment, [totals] lists no treatment twice and no treatment is
    called "population", [format_population_table] returns a table.
    Its columns are the treatments, and its rows the populations, of
    the summary rows whose treatment has a total, each once and in the
    order of first appearance in the joined frame, which is the
    engine's choice.  Whatever that order, a cell displays the count of
    the summary row of its population and treatment over the total of
    the treatment, and it is null when there is no such row. *)
Theorem X19_format_population_table_returns {E : Polars.Engine}
    (pop_summary : list population.PopulationRow)
    (totals : list (option string * N)) :
  NoDup (map summary_key pop_summary) ->
  NoDup (map fst totals) ->
  (forall r, In r pop_summary -> population.TRT01P r <> Some "population") ->
  let shown := filter (has_total totals) pop_summary in
  let joined := population.formatted_stats pop_summary totals in
  let groups := Polars.unique (map population.ps_TRT01P joined) in
  let populations := Polars.unique (map population.ps_population joined) in
  exists tbl,
    population.format_population_table pop_summary totals = Ok tbl
    /\ Polars.header tbl = "population" :: map population.on_name groups
    /\ Permutation groups (Polars.unique (map population.TRT01P shown))
    /\ Permutation populations
                   (Polars.unique (map population.population shown))
    /\ Forall2
         (fun index row =>
            exists cells,
              row = Some index :: cells
              /\ Forall2
                   (fun on cell =>
                      match find (fun r => eqb (summary_key r) (index, on))
                                 pop_summary,
                            total_of totals on with
                      | Some r, Some total =>
                          exists text,
                            cell = Some text
                            /\ displays index (population.n r) total text
                      | _, _ => cell = None
                      end)
                   groups cells)
         populations (Polars.body tbl).
Proof.
  intros Hkeys Hnd Hname. cbv zeta.
  eexists. split; [apply format_population_table_returns; assumption|].
  cbn [Polars.header Polars.body].
  split; [reflexivity|].
  split; [apply joined_column_perm; reflexivity|].
  split; [apply joined_column_perm; reflexivity|].
  apply Forall2_map_of. intros index _. eexists. split; [reflexivity|].
  apply Forall2_map_of. intros on _. unfold display_cell.
  destruct (find _ pop_summary) as [r|] eqn:Hfind; [|reflexivity].
  destruct (total_of totals on) as [total|]; [|reflexivity].
  cbn [option_map]. eexists. split; [reflexivity|].
  apply find_some in Hfind. destruct Hfind as [_ Hkey].
  apply eqb_true_iff in Hkey. injection Hkey as <- _.
  apply stats_row_displays.
Qed.

Lemma X19_witness :
  exists tbl,
    population.format_population_table (E := Polars.left_order)
      (sample.pop_summary
         ++ [ {| population.TRT01P := Some "Drug"; population.n := 4%N;
                 population.population :=
                   "Participants included in ITT population" |} ])
      sample.totals
    = Ok tbl
    /\ Polars.header tbl = ["population"; "Drug"; "Placebo"]
    /\ length (Polars.body tbl) = 2%nat.
Proof.
  destruct (@X19_format_population_table_returns Polars.left_order
              (sample.pop_summary
                 ++ [ {| population.TRT01P := Some "Drug";
                         population.n := 4%N;
                         population.population :=
                           "Participants included in ITT population" |} ])
              sample.totals)
    as (tbl & Htbl & Hheader & _ & _ & Hrows).
  - repeat constructor; simpl; intuition discriminate.
  - repeat constructor; simpl; intuition discriminate.
  - intros r [<- | [<- | [<- | []]]]; discriminate.
  - exists tbl. split; [exact Htbl|]. split; [exact Hheader|].
    symmetry. exact (Forall2_length Hrows).
Defined.

Lemma pivot_cell_raises (stats : list population.PopulationStats)
    (index : string) (on : option string) (e : PyError) :
  population.pivot_cell stats index on = Raise e ->
  e = ComputeError /\ (2 <= length (cell_rows stats index on))%nat.
Proof.
  unfold population.pivot_cell, cell_rows.
  destruct (filter _ stats) as [|r1 [|r2 rest]]; try discriminate.
  intros [= <-]. simpl. split; [reflexivity | lia].
Qed.

Lemma pivot_cell_crowded (stats : list population.PopulationStats)
    (index : string) (on : option string) :
  (2 <= length (cell_rows stats index on))%nat ->
  population.pivot_cell stats index on = Raise ComputeError.
Proof.
  unfold population.pivot_cell, cell_rows.
  destruct (filter _ stats) as [|r1 [|r2 rest]]; simpl; intros Hlen;
    try lia.
  reflexivity.
Qed.

Lemma pivot_row_raises (stats : list population.PopulationStats)
    (ons : list (option string)) (index : string) (e : PyError) :
  (cells <- mapM (population.pivot_cell stats index) ons ;;
   Ok (Some index :: cells)) = Raise e ->
  e = ComputeError
  /\ exists on, In on ons /\ (2 <= length (cell_rows stats index on))%nat.
Proof.
  destruct (mapM _ ons) as [cells|e'] eqn:Hcells; cbn [bind];
    [discriminate|].
  intros [= ->]. apply mapM_raise_inv in Hcells.
  destruct Hcells as (on & Hon & Hraise).
  apply pivot_cell_raises in Hraise. destruct Hraise as [-> Hlen]. eauto.
Qed.

(** The rows of the joined frame that one summary row contributes fall
    into the cell of its population and treatment. *)
Lemma cell_rows_of_row {E : Polars.Engine}
    (pop_summary : list population.PopulationRow)
    (totals : list (option string * N)) (r : population.PopulationRow) :
  In r pop_summary ->
  (length (filter (fun p => Polars.key_match (population.TRT01P r) (fst p))
                  totals)
   <= length (cell_rows (population.formatted_stats pop_summary totals)
                        (population.population r) (population.TRT01P r)))%nat.
Proof.
  rewrite (Permutation_length
             (cell_rows_perm pop_summary totals (population.population r)
                             (population.TRT01P r))).
  unfold population.formatted_stats, Polars.inner_join.
  cbn [Polars.arrange Polars.left_order].
  induction pop_summary as [|r' rest IH]; [intros []|].
  cbn [flat_map]. rewrite map_app, cell_rows_app, length_app, !map_map.
  intros [-> | Hin]; [|specialize (IH Hin); lia].
  cbn [fst snd]. unfold cell_rows at 1.
  rewrite filter_map_comm, length_map.
  set (matched := filter (fun p => Polars.key_match (population.TRT01P r)
                                                    (fst p)) totals).
  rewrite (@forallb_filter_id _ _ matched); [lia|].
  apply forallb_forall. intros p _.
  cbn [population.stats_row population.ps_population population.ps_TRT01P].
  rewrite !eqb_refl. reflexivity.
Qed.

(** X20.  [format_population_table] raises polars' error for a pivot
    without aggregation exactly when two rows of the joined frame share
    population and treatment.  This is the case whenever [totals] lists
    the treatment of a summary row twice. *)
Theorem X20_format_population_table_compute_error {E : Polars.Engine}
    (pop_summary : list population.PopulationRow)
    (totals : list (option string * N)) :
  (population.format_population_table pop_summary totals = Raise ComputeError
   <-> exists index on,
         (2 <= length (cell_rows
                         (population.formatted_stats pop_summary totals)
                         index on))%nat)
  /\ (forall r t,
        In r pop_summary ->
        population.TRT01P r = Some t ->
        (2 <= length (filter (fun p => Polars.eq_lit (fst p) t) totals))%nat ->
        population.format_population_table pop_summary totals
        = Raise ComputeError).
Proof.
  set (stats := population.formatted_stats pop_summary totals).
  assert (Hcrowded :
            (exists index on, (2 <= length (cell_rows stats index on))%nat) ->
            population.format_population_table pop_summary totals
            = Raise ComputeError).
  { intros (index & on & Hlen).
    unfold population.format_population_table. fold stats.
    assert (Hrow : exists s, In s (cell_rows stats index on)).
    { destruct (cell_rows stats index on) as [|s rest];
        [simpl in Hlen; lia | exists s; left; reflexivity]. }
    destruct Hrow as (s & Hs). apply filter_In in Hs.
    destruct Hs as [Hs Hkey]. apply andb_true_iff in Hkey.
    destruct Hkey as [Hindex Hon].
    apply eqb_true_iff in Hindex, Hon.
    rewrite (@mapM_raises _ _ _ _ ComputeError); [reflexivity| |].
    - intros index' e' Hraise. apply pivot_row_raises in Hraise. tauto.
    - exists index. split.
      + apply unique_In. rewrite <- Hindex. apply in_map. assumption.
      + exists ComputeError.
        rewrite (@mapM_raises _ _ _ _ ComputeError); [reflexivity| |].
        * intros on' e' Hraise. apply pivot_cell_raises in Hraise. tauto.
        * exists on. split.
          -- apply unique_In. rewrite <- Hon. apply in_map. assumption.
          -- exists ComputeError. apply pivot_cell_crowded. assumption. }
  split; [split; [|exact Hcrowded]|].
  - unfold population.format_population_table. fold stats.
    destruct (mapM _ (Polars.unique (map population.ps_population stats)))
      as [rows|e] eqn:Hrows; cbn [bind].
    + destruct (Polars.first_duplicate _); discriminate.
    + intros _. apply mapM_raise_inv in Hrows.
      destruct Hrows as (index & _ & Hraise).
      apply pivot_row_raises in Hraise.
      destruct Hraise as (_ & on & _ & Hlen). eauto.
  - intros r t Hr Ht Hlen. apply Hcrowded.
    exists (population.population r), (Some t).
    pose proof (@cell_rows_of_row E pop_summary totals r Hr) as Hle.
    fold stats in Hle. rewrite Ht in Hle.
    erewrite filter_ext in Hle
      by (intros p; apply key_match_eq_lit).
    lia.
Qed.

Lemma X20_witness :
  population.format_population_table (E := Polars.left_order)
    sample.pop_summary
    [(Some "Placebo", 5%N); (Some "Drug", 10%N); (Some "Drug", 12%N)]
  = Raise ComputeError.
Proof.
  apply (proj2 (@X20_format_population_table_compute_error
                  Polars.left_order sample.pop_summary
                  [(Some "Placebo", 5%N); (Some "Drug", 10%N);
                   (Some "Drug", 12%N)])
               {| population.TRT01P := Some "Drug"; population.n := 10%N;
                  population.population := "Participants in population" |}
               "Drug").
  - left. reflexivity.
  - reflexivity.
  - simpl. lia.
Defined.

(** *** create_population_summary followed by format_population_table *)

Lemma filter_flat_map {A B} (p : B -> bool) (f : A -> list B) (l : list A) :
  filter p (flat_map f l) = flat_map (fun a => filter p (f a)) l.
Proof.
  induction l as [|a l IH]; simpl; [reflexivity|].
  rewrite filter_app, IH. reflexivity.
Qed.

Lemma existsb_iff {A B} (p : A -> bool) (q : B -> bool)
    (l1 : list A) (l2 : list B) :
  ((exists x, In x l1 /\ p x = true) <-> (exists y, In y l2 /\ q y = true)) ->
  existsb p l1 = existsb q l2.
Proof.
  intros Hiff. apply eq_iff_eq_true. rewrite !existsb_exists. exact Hiff.
Qed.

(** The distinct labels of a frame stacked from labelled blocks are the
    labels of the blocks that have a row. *)
Lemma unique_blocks (block : string -> list population.PopulationRow)
    (labels : list string) :
  NoDup labels ->
  (forall label r, In r (block label) -> population.population r = label) ->
  Polars.unique (map population.population (flat_map block labels))
  = filter (fun label => existsb (fun _ => true) (block label)) labels.
Proof.
  intros Hnd Hlabel. induction Hnd as [|label labels Hnotin _ IH];
    [reflexivity|].
  cbn [flat_map filter]. rewrite map_app.
  replace (map population.population (block label))
    with (map (fun _ : population.PopulationRow => label) (block label))
    by (apply map_ext_in; intros r Hr; symmetry; apply Hlabel; assumption).
  destruct (block label) as [|m ms]; [exact IH|].
  cbn [existsb orb map]. rewrite <- app_comm_cons, unique_repeated, IH.
  f_equal. rewrite filter_filter.
  apply filter_ext_in. intros label' Hl'.
  destruct (eqb_spec label label') as [<-|_]; [contradiction|].
  cbn [negb]. apply andb_true_r.
Qed.

(** X21.  On the summary of [create_population_summary] the population
    table is returned whenever [totals] lists no treatment twice and no
    subject has the treatment "population".  Its rows are, each once
    and in the order in which the joined frame brings them, the four
    populations of the source (all participants, ITT, efficacy,
    safety) that have a subject whose treatment has a total, and every
    row has one cell per column. *)
Theorem X21_population_table_of_summary {E : Polars.Engine}
    (adsl : population.SubjectFrame) (totals : list (option string * N)) :
  NoDup (map fst totals) ->
  (forall s, In s (population.rows adsl) ->
             population.subject_TRT01P s <> Some "population") ->
  exists tbl,
    population.format_population_table
      (population.create_population_summary adsl) totals = Ok tbl
    /\ Permutation
         (map (hd None) (Polars.body tbl))
         (map Some
              (filter
                 (fun label =>
                    existsb (fun s => is_some
                                        (total_of totals
                                           (population.subject_TRT01P s)))
                            (members adsl label))
                 [ "Participants in population";
                   "Participants included in ITT population";
                   "Participants included in efficacy population";
                   "Participants included in safety population" ]))
    /\ (forall row, In row (Polars.body tbl) ->
                    length row = length (Polars.header tbl)).
Proof.
  intros Hnd Hname.
  assert (Hkeys : NoDup (map summary_key
                             (population.create_population_summary adsl))).
  { rewrite create_population_summary_blocks. apply NoDup_blocks.
    - repeat constructor; simpl; intuition discriminate.
    - intros label. rewrite count_by_treatment_keys. apply unique_NoDup.
    - intros label r Hr. apply count_by_treatment_In in Hr. tauto. }
  eexists. split; [|split].
  - apply format_population_table_returns; [assumption..|].
    intros r Hr Ht. apply create_population_summary_In in Hr.
    destruct Hr as [Hin _]. apply in_map_iff in Hin.
    destruct Hin as (s & Hs & Hin).
    destruct (members_filter adsl (population.population r)) as [p Hp].
    rewrite Hp in Hin. apply filter_In in Hin.
    apply (Hname s); [tauto | congruence].
  - cbn [Polars.body]. rewrite map_map. cbn [hd]. rewrite <- map_map with
      (f := fun index : string => index) (g := @Some string), map_id.
    apply Permutation_map.
    eapply Permutation_trans;
      [apply (joined_column_perm population.ps_population
                population.population); reflexivity|].
    rewrite create_population_summary_blocks, filter_flat_map.
    rewrite unique_blocks.
    + erewrite filter_ext; [apply Permutation_refl|].
      intros label. apply existsb_iff. split.
      * intros (r & Hr & _). apply filter_In in Hr. destruct Hr as [Hr Ht].
        apply count_by_treatment_In in Hr. destruct Hr as (_ & Hin & _).
        apply in_map_iff in Hin. destruct Hin as (s & Hs & Hin).
        exists s. split; [assumption|].
        rewrite Hs, <- has_total_total_of. assumption.
      * intros (s & Hs & Ht).
        exists {| population.TRT01P := population.subject_TRT01P s;
                  population.n :=
                    N.of_nat
                      (length
                         (filter (fun t => eqb t (population.subject_TRT01P s))
                                 (map population.subject_TRT01P
                                      (members adsl label))));
                  population.population := label |}.
        split; [|reflexivity]. apply filter_In. split.
        -- apply count_by_treatment_In. cbn [population.TRT01P
             population.n population.population].
           split; [reflexivity|]. split; [|reflexivity].
           apply in_map. assumption.
        -- rewrite has_total_total_of. exact Ht.
    + repeat constructor; simpl; intuition discriminate.
    + intros label r Hr. apply filter_In in Hr. destruct Hr as [Hr _].
      apply count_by_treatment_In in Hr. tauto.
  - cbn [Polars.body Polars.header]. intros row Hrow.
    apply in_map_iff in Hrow. destruct Hrow as (index & <- & _).
    simpl. rewrite !length_map. reflexivity.
Qed.

Lemma X21_witness :
  exists tbl,
    population.format_population_table (E := Polars.left_order)
      (population.create_population_summary sample.enrolled) sample.totals
    = Ok tbl
    /\ Permutation
         (map (hd None) (Polars.body tbl))
         [ Some "Participants in population";
           Some "Participants included in ITT population";
           Some "Participants included in safety population" ].
Proof.
  destruct (@X21_population_table_of_summary Polars.left_order
              sample.enrolled sample.totals)
    as (tbl & Htbl & Hrows & _).
  - repeat constructor; simpl; intuition discriminate.
  - intros s [<- | [<- | [<- | []]]]; discriminate.
  - exists tbl. split; [exact Htbl | exact Hrows].
Defined.

(* ================================================================== *)
(** ** When create_baseline_table returns *)








